(** * Video Color Converter: the conversion pipeline of both variants

    The repository ships one application twice:
    - [video_color_converter_bundled_final.py] (module [Bundled] below):
      every file of a batch is converted at once, the working set is capped;
    - [video_color_converter_windows.py] (module [Windows] below): the files
      are converted one after the other, with a preview of one frame.

    Conventions of the embedding.
    - Text is [string]; a character is read as the code point of the same
      number, so the model covers Python's [str] restricted to code points
      below 256.  The character classes below are Python's on that range.
    - Python's [int] is [Z]; [int()] of a text refuses more than 4300 digits,
      as Python 3.11 does by default.  Python's [float] is [pyfloat], an IEEE 754
      binary64 number: the rational it denotes, an infinity or a NaN.  Every
      operation rounds its exact result to the nearest binary64 number, the
      even one of two that are equally near, and to an infinity from 2^1024
      on.  The sign of a zero is not kept: the program never looks at it.
    - An exception is a value of [exn]; code that can raise returns [result].
    - The external tools (prober, encoder) are data: what they print and the
      status they exit with. *)

From Stdlib Require Import ZArith QArith Qround Qabs Qpower String Ascii List DecimalString.
From Stdlib Require Import Lia Lqa.
From stdpp Require Import gmap strings list.

(** ** Python text *)

Module PyStr.

Definition ord (c : ascii) : N := N_of_ascii c.

(** [\d] of [re] on [str], and the decimal digits [int()] and [float()] read. *)
Definition is_decimal (c : ascii) : bool :=
  ((48 <=? ord c) && (ord c <=? 57))%N.

(** One character of [str.isdigit()]: the decimal digits and the superscript
    digits U+00B2, U+00B3, U+00B9. *)
Definition isdigit_char (c : ascii) : bool :=
  is_decimal c || (ord c =? 178)%N || (ord c =? 179)%N || (ord c =? 185)%N.

(** One character of [str.isspace()], which is what [str.strip()] removes. *)
Definition isspace_char (c : ascii) : bool :=
  ((9 <=? ord c) && (ord c <=? 13))%N || ((28 <=? ord c) && (ord c <=? 32))%N
  || (ord c =? 133)%N || (ord c =? 160)%N.

Fixpoint forallb_str (p : ascii -> bool) (s : string) : bool :=
  match s with
  | EmptyString => true
  | String c s' => p c && forallb_str p s'
  end.

(** [s.isdigit()]: at least one character, all of them digits. *)
Definition isdigit (s : string) : bool :=
  match s with
  | EmptyString => false
  | _ => forallb_str isdigit_char s
  end.

Fixpoint lstrip (s : string) : string :=
  match s with
  | EmptyString => EmptyString
  | String c s' => if isspace_char c then lstrip s' else s
  end.

Fixpoint rstrip (s : string) : string :=
  match s with
  | EmptyString => EmptyString
  | String c s' =>
      match rstrip s' with
      | EmptyString => if isspace_char c then EmptyString else String c EmptyString
      | r => String c r
      end
  end.

(** [s.strip()] *)
Definition strip (s : string) : string := rstrip (lstrip s).

(** A Python string is true when it is not empty. *)
Definition truthy (s : string) : bool :=
  match s with EmptyString => false | _ => true end.

(** One character of [str.lower()]: A-Z, and the capital letters of
    U+00C0..U+00DE but the multiplication sign U+00D7. *)
Definition lower_char (c : ascii) : ascii :=
  let n := ord c in
  if (((65 <=? n) && (n <=? 90)) || ((192 <=? n) && (n <=? 222) && negb (n =? 215)))%N
  then ascii_of_N (n + 32) else c.

Fixpoint lower (s : string) : string :=
  match s with
  | EmptyString => EmptyString
  | String c s' => String (lower_char c) (lower s')
  end.

(** [s.endswith(suffix)] *)
Definition endswith (s suffix : string) : bool :=
  (String.length suffix <=? String.length s)%nat
  && String.eqb (substring (String.length s - String.length suffix)
                           (String.length suffix) s) suffix.

(** [s.endswith((a, b, ...))] *)
Definition endswith_any (s : string) (suffixes : list string) : bool :=
  existsb (endswith s) suffixes.

(** [x in l] for a list of strings. *)
Definition contains (l : list string) (x : string) : bool :=
  existsb (String.eqb x) l.

(** [str(n)] for an [int]. *)
Definition str_int (n : Z) : string := NilZero.string_of_int (Z.to_int n).

Definition digit_value (c : ascii) : Z := Z.of_N (ord c) - 48.

(** The number a string of decimal digits denotes, most significant first,
    continuing from [acc]. *)
Fixpoint digits_value_from (acc : Z) (s : string) : Z :=
  match s with
  | EmptyString => acc
  | String c s' => digits_value_from (acc * 10 + digit_value c) s'
  end.

Definition digits_value (s : string) : Z := digits_value_from 0 s.

End PyStr.

(** ** Exceptions and results *)

Inductive exn : Type :=
| ValueError_float (literal : string)  (* could not convert string to float *)
| ValueError_int (literal : string)    (* invalid literal for int() *)
| ValueError_digits (digits : nat)     (* exceeds the limit for integer string conversion *)
| ValueError_nan                       (* cannot convert float NaN to integer *)
| OverflowError_inf                    (* cannot convert float infinity to integer *)
| OverflowError_int                    (* int too large to convert to float *)
| ZeroDivisionError
| OSError (strerror : string).         (* a program that cannot be started *)

Inductive result (A : Type) : Type :=
| Ok (a : A)
| Raise (e : exn).
Arguments Ok {A} a.
Arguments Raise {A} e.

(** Sequencing: [x ← r; k] runs [k] when [r] did not raise. *)
#[global] Instance result_bind : MBind result := fun A B k r =>
  match r with
  | Ok a => k a
  | Raise e => Raise e
  end.

(** ** Python numbers *)

Module PyNum.
Import PyStr.

(** A [float]: the rational a finite binary64 number denotes, an infinity
    or a NaN. *)
Inductive pyfloat : Type :=
| Fin (q : Q)
| PInf
| NInf
| NaN.

Definition pow2 (e : Z) : Q := (2 ^ e)%Q.

(** [floor(log2 q)] for a positive [q]: the quotient of a numerator of
    [a + 1] bits by a denominator of [b + 1] bits lies between [2^(a-b-1)]
    and [2^(a-b+1)]. *)
Definition ilog2 (q : Q) : Z :=
  let k := (Z.log2 (Qnum q) - Z.log2 (Zpos (Qden q)))%Z in
  if Qle_bool (pow2 k) q then k else (k - 1)%Z.

(** The nearest integer, the even one of two that are equally near. *)
Definition round_half_even (x : Q) : Z :=
  let f := Qfloor x in
  match (x - inject_Z f ?= 1 # 2)%Q with
  | Lt => f
  | Gt => (f + 1)%Z
  | Eq => if Z.even f then f else (f + 1)%Z
  end.

(** The exponent of the last of the 53 bits of a binary64 number near [a];
    it is -1074 for the subnormal numbers. *)
Definition last_place (a : Q) : Z := Z.max (-1074) (ilog2 a - 52).

(** The multiple of [2^last_place] nearest to [a]. *)
Definition nearest (a : Q) : Q :=
  (inject_Z (round_half_even (a / pow2 (last_place a))) * pow2 (last_place a))%Q.

(** A positive rational as a binary64 number. *)
Definition round_pos (a : Q) : pyfloat :=
  if Qle_bool (pow2 1024) (nearest a) then PInf else Fin (Qred (nearest a)).

Definition fneg (x : pyfloat) : pyfloat :=
  match x with
  | Fin q => Fin (- q)
  | PInf => NInf
  | NInf => PInf
  | NaN => NaN
  end.

(** A rational as a binary64 number. *)
Definition round64 (q : Q) : pyfloat :=
  match (q ?= 0)%Q with
  | Eq => Fin 0
  | Gt => round_pos q
  | Lt => fneg (round_pos (- q))
  end.

(** A [digitpart] of the grammar of numeric literals: decimal digits, with
    single underscores between digits.  [prev] tells whether the previous
    character was a digit.  The result is the value and the number of digits. *)
Fixpoint digitpart_from (acc : Z) (n : nat) (prev : bool) (s : string)
  : option (Z * nat) :=
  match s with
  | EmptyString => if prev then Some (acc, n) else None
  | String c s' =>
      if is_decimal c then digitpart_from (acc * 10 + digit_value c) (S n) true s'
      else if (ord c =? 95)%N && prev then digitpart_from acc n false s'
      else None
  end.

Definition digitpart (s : string) : option (Z * nat) :=
  digitpart_from 0 0%nat false s.

(** An optional sign: [true] for a minus. *)
Definition split_sign (s : string) : bool * string :=
  match s with
  | String c s' =>
      if (ord c =? 45)%N then (true, s')
      else if (ord c =? 43)%N then (false, s')
      else (false, s)
  | EmptyString => (false, s)
  end.

(** The most digits [int()] reads from a text, as the interpreter is
    started by default. *)
Definition int_max_str_digits : Z := 4300.

(** [int(s)] for a string. *)
Definition py_int (s : string) : result Z :=
  let (neg, body) := split_sign (strip s) in
  match digitpart body with
  | Some (v, n) =>
      if (Z.of_nat n <=? int_max_str_digits)%Z then Ok (if neg then - v else v)%Z
      else Raise (ValueError_digits n)
  | None => Raise (ValueError_int s)
  end.

(** The text up to the first character that satisfies [p], and the text
    after that character when there is one. *)
Fixpoint split_at (p : ascii -> bool) (s : string) : string * option string :=
  match s with
  | EmptyString => (EmptyString, None)
  | String c s' =>
      if p c then (EmptyString, Some s')
      else let (a, b) := split_at p s' in (String c a, b)
  end.

Definition is_dot (c : ascii) : bool := (ord c =? 46)%N.
Definition is_exp (c : ascii) : bool := (ord c =? 101)%N || (ord c =? 69)%N.

Definition pow10 (e : Z) : Q :=
  if (0 <=? e)%Z then inject_Z (10 ^ e) else (/ inject_Z (10 ^ (- e)))%Q.

(** [number] of the grammar: [digitpart "." [digitpart]], ["." digitpart] or
    [digitpart]. *)
Definition mantissa (s : string) : option Q :=
  match split_at is_dot s with
  | (ip, None) =>
      match digitpart ip with
      | Some (iv, _) => Some (inject_Z iv)
      | None => None
      end
  | (ip, Some fp) =>
      match ip, fp with
      | EmptyString, _ =>
          match digitpart fp with
          | Some (fv, nf) => Some (inject_Z fv * pow10 (- Z.of_nat nf))%Q
          | None => None
          end
      | _, EmptyString =>
          match digitpart ip with
          | Some (iv, _) => Some (inject_Z iv)
          | None => None
          end
      | _, _ =>
          match digitpart ip, digitpart fp with
          | Some (iv, _), Some (fv, nf) =>
              Some (inject_Z iv + inject_Z fv * pow10 (- Z.of_nat nf))%Q
          | _, _ => None
          end
      end
  end.

(** [exponent] of the grammar, after its letter: an optional sign and a
    [digitpart]. *)
Definition exponent (s : string) : option Z :=
  let (neg, body) := split_sign s in
  match digitpart body with
  | Some (v, _) => Some (if neg then - v else v)%Z
  | None => None
  end.

Definition floatnumber (s : string) : option Q :=
  match split_at is_exp s with
  | (m, None) => mantissa m
  | (m, Some e) =>
      match mantissa m, exponent e with
      | Some q, Some k => Some (q * pow10 k)%Q
      | _, _ => None
      end
  end.

(** [float(s)] for a string: surrounding white space is dropped, then an
    optional sign and a number, an infinity or a NaN in any case of letters.
    The number is the binary64 number nearest to the decimal one. *)
Definition py_float (s : string) : result pyfloat :=
  let (neg, body) := split_sign (strip s) in
  let word := lower body in
  if String.eqb word "inf" || String.eqb word "infinity"
  then Ok (if neg then NInf else PInf)
  else if String.eqb word "nan" then Ok NaN
  else match floatnumber body with
       | Some q => Ok (round64 (if neg then - q else q)%Q)
       | None => Raise (ValueError_float (strip s))
       end.

(** [x > 0] *)
Definition gt0 (x : pyfloat) : bool :=
  match x with
  | Fin q => if Qlt_le_dec 0 q then true else false
  | PInf => true
  | NInf | NaN => false
  end.

(** An [int] as a [float], as an operation of a [float] with an [int]
    takes it. *)
Definition float_of_int (n : Z) : result pyfloat :=
  match round64 (inject_Z n) with
  | Fin q => Ok (Fin q)
  | _ => Raise OverflowError_int
  end.

(** [x + y] *)
Definition fadd (x y : pyfloat) : pyfloat :=
  match x, y with
  | Fin a, Fin b => round64 (a + b)
  | NaN, _ | _, NaN => NaN
  | PInf, NInf | NInf, PInf => NaN
  | PInf, _ | _, PInf => PInf
  | NInf, _ | _, NInf => NInf
  end.

(** [n + x] for an [int] [n] and a [float] [x]. *)
Definition add_int (n : Z) (x : pyfloat) : result pyfloat :=
  f ← float_of_int n; Ok (fadd f x).

(** [t / d] *)
Definition truediv (t d : pyfloat) : result pyfloat :=
  match d with
  | Fin b =>
      if Qeq_bool b 0 then Raise ZeroDivisionError
      else match t with
           | Fin a => Ok (round64 (a / b))
           | PInf => Ok (if Qlt_le_dec 0 b then PInf else NInf)
           | NInf => Ok (if Qlt_le_dec 0 b then NInf else PInf)
           | NaN => Ok NaN
           end
  | PInf | NInf =>
      match t with
      | Fin _ => Ok (Fin 0)
      | _ => Ok NaN
      end
  | NaN => Ok NaN
  end.

(** [x * 100] *)
Definition times100 (x : pyfloat) : pyfloat :=
  match x with
  | Fin q => round64 (q * 100)
  | other => other
  end.

(** [min(100, x)]: [x] when [x < 100], else the first argument. *)
Definition min100 (x : pyfloat) : pyfloat :=
  match x with
  | Fin q => if Qlt_le_dec q 100 then Fin q else Fin 100
  | NInf => NInf
  | PInf | NaN => Fin 100
  end.

(** Rounding towards zero. *)
Definition Qtrunc (q : Q) : Z :=
  if Qlt_le_dec q 0 then (- Qfloor (- q))%Z else Qfloor q.

(** [int(x)] for a float. *)
Definition int_of_float (x : pyfloat) : result Z :=
  match x with
  | Fin q => Ok (Qtrunc q)
  | PInf | NInf => Raise OverflowError_inf
  | NaN => Raise ValueError_nan
  end.

End PyNum.

(** ** The timestamp pattern [time=(\d+):(\d+):(\d+\.\d+)]

    A run of [\d+] is followed in the pattern by a character that is not a
    digit, or by the end of the pattern, so the only way to match is to take
    the longest run of digits: no other split can succeed. *)

Module Re.
Import PyStr.

Record time_match : Type := { group1 : string; group2 : string; group3 : string }.

(** The longest run of decimal digits at the start, and the rest. *)
Fixpoint span_decimal (s : string) : string * string :=
  match s with
  | EmptyString => (EmptyString, EmptyString)
  | String c s' =>
      if is_decimal c then let (d, r) := span_decimal s' in (String c d, r)
      else (EmptyString, s)
  end.

(** [\d+] *)
Definition digits1 (s : string) : option (string * string) :=
  match span_decimal s with
  | (EmptyString, _) => None
  | (d, r) => Some (d, r)
  end.

(** One literal character. *)
Definition lit (c : ascii) (s : string) : option string :=
  match s with
  | String c' s' => if Ascii.eqb c c' then Some s' else None
  | EmptyString => None
  end.

(** A literal word. *)
Fixpoint word (w s : string) : option string :=
  match w with
  | EmptyString => Some s
  | String c w' => s' ← lit c s; word w' s'
  end.

(** The pattern, anchored at the start of [s]. *)
Definition match_here (s : string) : option time_match :=
  s ← word "time=" s;
  '(g1, s) ← digits1 s;
  s ← lit ":" s;
  '(g2, s) ← digits1 s;
  s ← lit ":" s;
  '(si, s) ← digits1 s;
  s ← lit "." s;
  '(sf, _) ← digits1 s;
  Some {| group1 := g1; group2 := g2; group3 := si +:+ "." +:+ sf |}.

(** [time_re.search(s)]: the match that starts leftmost. *)
Fixpoint search (s : string) : option time_match :=
  match match_here s with
  | Some m => Some m
  | None =>
      match s with
      | EmptyString => None
      | String _ s' => search s'
      end
  end.

End Re.

(** ** What the program takes from its host *)

(** Paths of the tools as [shutil.which] and [find_tool] resolve them, the
    text of a float in an f-string, and the path and digest functions of the
    standard library. *)
Record Runtime : Type := {
  ffmpeg : string;
  ffprobe : string;
  float_str : Q -> string;            (* f"{x}" *)
  float_3f : Q -> string;             (* f"{x:.3f}" *)
  path_stem : string -> string;       (* Path(f).stem *)
  path_name : string -> string;       (* Path(f).name *)
  path_join : string -> string -> string;  (* str(Path(d) / name) *)
  resolve_posix : string -> string;   (* Path(f).resolve().as_posix() *)
  gettempdir : string;                (* tempfile.gettempdir() *)
  md5_hexdigest : string -> string    (* hashlib.md5(key).hexdigest() *)
}.

(** What the external tools do for one job: the text the prober prints for
    the two queries, the diagnostic lines of the encoder and its exit status. *)
Record External : Type := {
  duration_stdout : string;
  bitrate_stdout : string;
  stderr_lines : list string;
  returncode : Z
}.

(** Whether the tools could be started.  [subprocess.run] and [Popen] raise
    when the program is missing or cannot be run; the worker catches the
    exception and emits its text. *)
Inductive launch : Type :=
| Starts (io : External)                   (* the tools start and do [io] *)
| ProberFails (e : exn)                    (* the first call of the prober raises *)
| EncoderFails (io : External) (e : exn).  (* the prober prints as [io], [Popen] raises *)

(** The text of an error signal: a literal text, or [str(e)] of the exception
    that was caught. *)
Inductive message : Type :=
| Text (s : string)
| StrOf (e : exn).

(** Message boxes the application opens, in the order it opens them. *)
Inductive dialog : Type :=
| information (title text : string)
| warning (title text : string)
| critical (title : string) (text : message).

(** [l.remove(x)] where [x in l]: the first occurrence goes. *)
Fixpoint remove_first (x : string) (l : list string) : list string :=
  match l with
  | [] => []
  | y :: l' => if String.eqb x y then l' else y :: remove_first x l'
  end.

(** The extensions a dropped file may have. *)
Definition video_suffixes : list string :=
  [".mp4"; ".mov"; ".mkv"; ".avi"; ".webm"].

(** ** video_color_converter_bundled_final.py *)

Module Bundled.
Import PyStr PyNum.

(** *** FFmpegWorker *)

Record FFmpegWorker : Type := {
  input_path : string;
  output_path : string;
  saturation_value : Q
}.

Inductive signal : Type :=
| progress_changed (pct : Z)
| status_changed (s : string)
| finished_ok
| error_occurred (msg : message).

(** [duration = float(p.stdout.strip()) if p.stdout.strip() else 0.0] *)
Definition probe_duration (io : External) : result pyfloat :=
  if truthy (strip (duration_stdout io))
  then py_float (strip (duration_stdout io))
  else Ok (Fin 0).

(** [orig_bitrate], [None] unless the prober printed digits only. *)
Definition probe_bitrate (io : External) : option string :=
  let orig_bitrate := strip (bitrate_stdout io) in
  if negb (truthy orig_bitrate) || negb (isdigit orig_bitrate)
  then None
  else Some orig_bitrate.

Definition vf (rt : Runtime) (w : FFmpegWorker) : string :=
  let vf := "eq=saturation=" +:+ float_str rt (saturation_value w) in
  if Qle_bool (saturation_value w) 0 then vf +:+ ",format=yuv420p" else vf.

Definition cmd (rt : Runtime) (w : FFmpegWorker) (orig_bitrate : option string)
  : list string :=
  let cmd := [ffmpeg rt; "-y"; "-i"; input_path w; "-vf"; vf rt w; "-c:v"; "libx264"] in
  let cmd :=
    match orig_bitrate with
    | Some b => if truthy b then cmd ++ ["-b:v"; b] else cmd ++ ["-b:v"; "12M"]
    | None => cmd ++ ["-b:v"; "12M"]
    end in
  cmd ++ ["-maxrate"; "12M"; "-bufsize"; "24M"; "-c:a"; "copy"; output_path w].

(** [pct] of one matching line: [int(min(100, (t / duration) * 100))]. *)
Definition pct (duration : pyfloat) (m : Re.time_match) : result Z :=
  h ← py_int (Re.group1 m);
  mm ← py_int (Re.group2 m);
  s ← py_float (Re.group3 m);
  t ← add_int (h * 3600 + mm * 60) s;
  x ← truediv t duration;
  int_of_float (min100 (times100 x)).

(** The loop over the diagnostic lines: the values emitted, in order, and the
    exception that ended the loop early, if any. *)
Fixpoint read_stderr (duration : pyfloat) (last : Z) (lines : list string)
  : list Z * option exn :=
  match lines with
  | [] => ([], None)
  | L :: rest =>
      match Re.search L with
      | Some m =>
          if gt0 duration then
            match pct duration m with
            | Raise e => ([], Some e)
            | Ok p =>
                if (p =? last)%Z then read_stderr duration last rest
                else let (out, r) := read_stderr duration p rest in (p :: out, r)
            end
          else read_stderr duration last rest
      | None => read_stderr duration last rest
      end
  end.

(** What one run does when the tools start: the signals it emits, in order,
    and the encoder command it launched, if it came that far. *)
Record outcome : Type := { signals : list signal; launched : option (list string) }.

Definition run (rt : Runtime) (w : FFmpegWorker) (io : External) : outcome :=
  if negb (truthy (ffmpeg rt)) || negb (truthy (ffprobe rt))
  then {| signals := [error_occurred (Text "ffmpeg/ffprobe not found")];
          launched := None |}
  else
    match probe_duration io with
    | Raise e => {| signals := [error_occurred (StrOf e)]; launched := None |}
    | Ok duration =>
        let cmd := cmd rt w (probe_bitrate io) in
        let (emitted, raised) := read_stderr duration (-1) (stderr_lines io) in
        let tail :=
          match raised with
          | Some e => error_occurred (StrOf e)
          | None =>
              if (returncode io =? 0)%Z then finished_ok
              else error_occurred (Text ("ffmpeg rc=" +:+ str_int (returncode io)))
          end in
        {| signals := map progress_changed emitted ++ [tail]; launched := Some cmd |}
    end.

(** The run on a host that may fail to start a tool. *)
Definition run_on (rt : Runtime) (w : FFmpegWorker) (l : launch) : outcome :=
  let failed msg := {| signals := [error_occurred msg]; launched := None |} in
  if negb (truthy (ffmpeg rt)) || negb (truthy (ffprobe rt))
  then failed (Text "ffmpeg/ffprobe not found")
  else
    match l with
    | Starts io => run rt w io
    | ProberFails e => failed (StrOf e)
    | EncoderFails io e =>
        match probe_duration io with
        | Raise e' => failed (StrOf e')
        | Ok _ => failed (StrOf e)
        end
    end.

(** *** VideoColorConverterApp

    [list_widget] holds the texts of the rows; which rows are selected is
    given to [remove_selected].  [started] is the list of workers on which
    [start()] was called, in that order. *)

Record App : Type := {
  input_files : list string;
  output_folder : string;
  workers : list FFmpegWorker;
  list_widget : list string;
  sat_slider : Z;
  progress : Z;
  status_label : string;
  dialogs : list dialog;
  started : list FFmpegWorker
}.

Definition init : App :=
  {| input_files := []; output_folder := ""; workers := []; list_widget := [];
     sat_slider := 100; progress := 0; status_label := "Status: Ready";
     dialogs := []; started := [] |}.

Definition set_files (fs ws : list string) (st : App) : App :=
  {| input_files := fs; output_folder := output_folder st; workers := workers st;
     list_widget := ws; sat_slider := sat_slider st; progress := progress st;
     status_label := status_label st; dialogs := dialogs st; started := started st |}.

Definition show (d : dialog) (st : App) : App :=
  {| input_files := input_files st; output_folder := output_folder st;
     workers := workers st; list_widget := list_widget st;
     sat_slider := sat_slider st; progress := progress st;
     status_label := status_label st; dialogs := dialogs st ++ [d];
     started := started st |}.

Definition set_status (s : string) (st : App) : App :=
  {| input_files := input_files st; output_folder := output_folder st;
     workers := workers st; list_widget := list_widget st;
     sat_slider := sat_slider st; progress := progress st;
     status_label := s; dialogs := dialogs st; started := started st |}.

Definition set_workers (ws : list FFmpegWorker) (st : App) : App :=
  {| input_files := input_files st; output_folder := output_folder st;
     workers := ws; list_widget := list_widget st;
     sat_slider := sat_slider st; progress := progress st;
     status_label := status_label st; dialogs := dialogs st; started := started st |}.

(** [self.workers.append(worker); worker.start()] *)
Definition spawn (w : FFmpegWorker) (st : App) : App :=
  {| input_files := input_files st; output_folder := output_folder st;
     workers := workers st ++ [w]; list_widget := list_widget st;
     sat_slider := sat_slider st; progress := progress st;
     status_label := status_label st; dialogs := dialogs st;
     started := started st ++ [w] |}.

(** The loop of [add_files] over the files the dialog returned. *)
Fixpoint add_files_loop (files : list string) (st : App) : App :=
  match files with
  | [] => st
  | f :: rest =>
      if (20 <=? length (input_files st))%nat
      then show (information "Limit" "You can only add up to 20 files.") st
      else if contains (input_files st) f then add_files_loop rest st
      else add_files_loop rest
             (set_files (input_files st ++ [f]) (list_widget st ++ [f]) st)
  end.

(** [add_files], given the files the dialog returned. *)
Definition add_files (files : list string) (st : App) : App :=
  match files with
  | [] => st
  | _ => add_files_loop files st
  end.

(** [remove_selected], given the texts of the selected rows. *)
Fixpoint remove_selected (selected : list string) (st : App) : App :=
  match selected with
  | [] => st
  | txt :: rest =>
      let fs := if contains (input_files st) txt
                then remove_first txt (input_files st) else input_files st in
      remove_selected rest (set_files fs (remove_first txt (list_widget st)) st)
  end.

(** [dropEvent], given the local file of each dropped URL. *)
Fixpoint dropEvent (urls : list string) (st : App) : App :=
  match urls with
  | [] => st
  | f :: rest =>
      if endswith_any (lower f) video_suffixes && negb (contains (input_files st) f)
      then
        if (length (input_files st) <? 20)%nat
        then dropEvent rest
               (set_files (input_files st ++ [f]) (list_widget st ++ [f]) st)
        else dropEvent rest st
      else dropEvent rest st
  end.

Definition new_worker (rt : Runtime) (st : App) (f : string) : FFmpegWorker :=
  {| input_path := f;
     output_path := path_join rt (output_folder st) (path_stem rt f +:+ "_converted.mp4");
     saturation_value := (inject_Z (sat_slider st) / 100)%Q |}.

(** The loop of [start_conversion] over [list(self.input_files)]. *)
Fixpoint start_loop (rt : Runtime) (snapshot : list string) (st : App) : App :=
  match snapshot with
  | [] => st
  | f :: rest => start_loop rt rest (spawn (new_worker rt st f) st)
  end.

Definition start_conversion (rt : Runtime) (st : App) : App :=
  match input_files st, output_folder st with
  | [], _ | _, EmptyString =>
      show (warning "Missing info" "Add files and select output folder") st
  | _, _ => set_status "Status: Processing..." (start_loop rt (input_files st) st)
  end.

(** [_on_worker_finished], given which workers are still running. *)
Definition _on_worker_finished (isRunning : FFmpegWorker -> bool) (st : App) : App :=
  let st := set_workers (filter (fun w => isRunning w = true) (workers st)) st in
  match workers st with
  | [] => show (information "Done" "All conversions finished")
            (set_status "Status: All done" st)
  | _ => st
  end.

(** [_on_worker_error] *)
Definition _on_worker_error (isRunning : FFmpegWorker -> bool) (err : message)
  (st : App) : App :=
  let st := show (critical "Error" err) st in
  set_workers (filter (fun w => isRunning w = true) (workers st)) st.

(** [select_output], given the folder the dialog returned. *)
Definition select_output (folder : string) (st : App) : App :=
  match folder with
  | EmptyString => st
  | _ =>
      {| input_files := input_files st; output_folder := folder;
         workers := workers st; list_widget := list_widget st;
         sat_slider := sat_slider st; progress := progress st;
         status_label := "Output: " +:+ folder; dialogs := dialogs st;
         started := started st |}
  end.

(** The slider is moved to [v]. *)
Definition move_slider (v : Z) (st : App) : App :=
  {| input_files := input_files st; output_folder := output_folder st;
     workers := workers st; list_widget := list_widget st;
     sat_slider := v; progress := progress st;
     status_label := status_label st; dialogs := dialogs st;
     started := started st |}.

(** What happens to the application: the user acts, or a signal of a worker
    reaches its slot. *)
Inductive input : Type :=
| Add (files : list string)
| Remove (selected : list string)
| Drop (urls : list string)
| Output (folder : string)
| Slider (v : Z)
| Start
| Finished (isRunning : FFmpegWorker -> bool)
| Failed (isRunning : FFmpegWorker -> bool) (err : message).

Definition handle (rt : Runtime) (st : App) (i : input) : App :=
  match i with
  | Add fs => add_files fs st
  | Remove sel => remove_selected sel st
  | Drop urls => dropEvent urls st
  | Output folder => select_output folder st
  | Slider v => move_slider v st
  | Start => start_conversion rt st
  | Finished r => _on_worker_finished r st
  | Failed r err => _on_worker_error r err st
  end.

(** The states the application can be in. *)
Inductive reachable (rt : Runtime) : App -> Prop :=
| reach_init : reachable rt init
| reach_step st i : reachable rt st -> reachable rt (handle rt st i).

End Bundled.

(** ** video_color_converter_windows.py *)

Module Windows.
Import PyStr PyNum.

(** *** FFmpegWorker *)

Record FFmpegWorker : Type := {
  input_path : string;
  output_path : string;
  saturation : Q
}.

Inductive signal : Type :=
| progress (pct : Z)
| done (out : string)
| error (msg : message).

(** [bitrate = p.stdout.strip() or "12M"] *)
Definition probe_bitrate (io : External) : string :=
  if truthy (strip (bitrate_stdout io)) then strip (bitrate_stdout io) else "12M".

(** [duration], [0.0] when [float] raises. *)
Definition probe_duration (io : External) : pyfloat :=
  match py_float (strip (duration_stdout io)) with
  | Ok d => d
  | Raise _ => Fin 0
  end.

Definition vf (rt : Runtime) (saturation : Q) : string :=
  let vf := "eq=saturation=" +:+ float_str rt saturation in
  if Qle_bool saturation 0 then vf +:+ ",format=yuv420p" else vf.

Definition cmd (rt : Runtime) (w : FFmpegWorker) (bitrate : string) : list string :=
  [ffmpeg rt; "-y"; "-i"; input_path w;
   "-vf"; vf rt (saturation w);
   "-b:v"; bitrate; "-c:a"; "copy";
   output_path w].

(** [pct] of one matching line: [max(0, min(100, int((t/duration)*100)))]. *)
Definition pct (duration : pyfloat) (m : Re.time_match) : result Z :=
  h ← py_int (Re.group1 m);
  mm ← py_int (Re.group2 m);
  s ← py_float (Re.group3 m);
  t ← add_int (h * 3600 + mm * 60) s;
  x ← truediv t duration;
  n ← int_of_float (times100 x);
  Ok (Z.max 0 (Z.min 100 n)).

(** The loop over the diagnostic lines: the values emitted, in order, and the
    exception that ended the loop early, if any. *)
Fixpoint read_stderr (duration : pyfloat) (last : Z) (lines : list string)
  : list Z * option exn :=
  match lines with
  | [] => ([], None)
  | line :: rest =>
      match Re.search line with
      | Some m =>
          if gt0 duration then
            match pct duration m with
            | Raise e => ([], Some e)
            | Ok p =>
                if (p =? last)%Z then read_stderr duration last rest
                else let (out, r) := read_stderr duration p rest in (p :: out, r)
            end
          else read_stderr duration last rest
      | None => read_stderr duration last rest
      end
  end.

(** What one run does when the tools start: the signals it emits, in order,
    and the encoder command it launched. *)
Record outcome : Type := { signals : list signal; launched : option (list string) }.

Definition run (rt : Runtime) (w : FFmpegWorker) (io : External) : outcome :=
  let bitrate := probe_bitrate io in
  let duration := probe_duration io in
  let cmd := cmd rt w bitrate in
  let (emitted, raised) := read_stderr duration (-1) (stderr_lines io) in
  let tail :=
    match raised with
    | Some e => [error (StrOf e)]
    | None =>
        if (returncode io =? 0)%Z then [progress 100; done (output_path w)]
        else [error (Text ("FFmpeg failed (exit code " +:+ str_int (returncode io) +:+ ")"))]
    end in
  {| signals := map progress emitted ++ tail; launched := Some cmd |}.

(** The run on a host that may fail to start a tool: [find_tool] gives the
    bare name of a tool it does not find, and lets the start fail. *)
Definition run_on (rt : Runtime) (w : FFmpegWorker) (l : launch) : outcome :=
  match l with
  | Starts io => run rt w io
  | ProberFails e | EncoderFails _ e =>
      {| signals := [error (StrOf e)]; launched := None |}
  end.

(** *** Previewer

    The files of the host are a map from a path to the size of the file.  The
    encoder is what it does to the files when it is run with a command; the
    call of [subprocess.run] returns or raises (a timeout, a tool that cannot
    be started). *)

Inductive returned : Type := Returned | Raised.

Definition Encoder : Type :=
  list string -> gmap string N -> returned * gmap string N.

(** The name of the preview file of a video and a saturation. *)
Definition outjpg (rt : Runtime) (video_path : string) (saturation : Q) : string :=
  let key := resolve_posix rt video_path +:+ "|" +:+ float_3f rt saturation in
  let fname := "preview_" +:+ md5_hexdigest rt key +:+ ".jpg" in
  path_join rt (gettempdir rt) fname.

Definition preview_cmd (rt : Runtime) (video_path : string) (saturation : Q)
  : list string :=
  [ffmpeg rt; "-y"; "-ss"; "00:00:01"; "-i"; video_path;
   "-frames:v"; "1"; "-vf"; vf rt saturation; outjpg rt video_path saturation].

(** What one preview run does: the path it emits with [ready] (empty on
    failure), the commands it ran, and the files afterwards. *)
Record preview : Type := {
  ready : string;
  invoked : list (list string);
  files_after : gmap string N
}.

Definition Previewer_run (rt : Runtime) (encoder : Encoder)
  (video_path : string) (saturation : Q) (fs : gmap string N) : preview :=
  let out := outjpg rt video_path saturation in
  let cmd := preview_cmd rt video_path saturation in
  match encoder cmd fs with
  | (Raised, fs') => {| ready := ""; invoked := [cmd]; files_after := fs' |}
  | (Returned, fs') =>
      let ok := match fs' !! out with
                | Some size => (500 <? size)%N
                | None => false
                end in
      {| ready := if ok then out else ""; invoked := [cmd]; files_after := fs' |}
  end.

(** *** App

    The lists [self.files] and [self.queue] are objects of a heap, and the
    fields hold their locations: two fields may name one list.  [workers]
    is every worker that was started, in order, since the program never
    removes one.  The four buttons are switched together and are one field.
    [list_items] holds the texts of the rows of the list widget; its current
    row decides nothing below and is left out.  [debounce_armed] tells that
    the timer of the preview was started.  [log] records, in order, the
    workers started, the signals delivered to the slots and the message
    boxes opened. *)

Definition loc : Type := nat.

Inductive event : Type :=
| ev_started (w : FFmpegWorker)
| ev_signal (w : FFmpegWorker) (s : signal)
| ev_dialog (d : dialog).

Record App : Type := {
  heap : gmap loc (list string);
  next : loc;
  files : loc;
  queue : loc;
  output_dir : string;
  workers : list FFmpegWorker;
  current_worker : option FFmpegWorker;
  done_count : Z;
  list_items : list string;
  s_slider : Z;
  progress_bar : Z;
  status : string;
  buttons_enabled : bool;
  debounce_armed : bool;
  log : list event
}.

Definition init : App :=
  {| heap := <[1%nat := []]> (<[0%nat := []]> ∅); next := 2; files := 0; queue := 1;
     output_dir := ""; workers := []; current_worker := None; done_count := 0;
     list_items := []; s_slider := 100; progress_bar := 0;
     status := "Status: Ready"; buttons_enabled := true; debounce_armed := false;
     log := [] |}.

(** The list a location holds. *)
Definition deref (st : App) (l : loc) : list string := default [] (heap st !! l).

(** Writing the list at a location: [append], [remove] and [pop] do this. *)
Definition store (l : loc) (v : list string) (st : App) : App :=
  {| heap := <[l := v]> (heap st); next := next st; files := files st;
     queue := queue st; output_dir := output_dir st; workers := workers st;
     current_worker := current_worker st; done_count := done_count st;
     list_items := list_items st; s_slider := s_slider st;
     progress_bar := progress_bar st; status := status st;
     buttons_enabled := buttons_enabled st; debounce_armed := debounce_armed st;
     log := log st |}.

(** [self.queue = list(self.files)]: a new list with the same elements. *)
Definition queue_copy_of_files (st : App) : App :=
  {| heap := <[next st := deref st (files st)]> (heap st); next := S (next st);
     files := files st; queue := next st; output_dir := output_dir st;
     workers := workers st; current_worker := current_worker st;
     done_count := done_count st; list_items := list_items st;
     s_slider := s_slider st; progress_bar := progress_bar st; status := status st;
     buttons_enabled := buttons_enabled st; debounce_armed := debounce_armed st;
     log := log st |}.

Definition set_items (items : list string) (st : App) : App :=
  {| heap := heap st; next := next st; files := files st; queue := queue st;
     output_dir := output_dir st; workers := workers st;
     current_worker := current_worker st; done_count := done_count st;
     list_items := items; s_slider := s_slider st;
     progress_bar := progress_bar st; status := status st;
     buttons_enabled := buttons_enabled st; debounce_armed := debounce_armed st;
     log := log st |}.

(** [update_preview_debounced]: the timer is started again. *)
Definition update_preview_debounced (st : App) : App :=
  {| heap := heap st; next := next st; files := files st; queue := queue st;
     output_dir := output_dir st; workers := workers st;
     current_worker := current_worker st; done_count := done_count st;
     list_items := list_items st; s_slider := s_slider st;
     progress_bar := progress_bar st; status := status st;
     buttons_enabled := buttons_enabled st; debounce_armed := true;
     log := log st |}.

(** The progress bar, the status line, the buttons and the counter. *)
Definition set_view (p : Z) (s : string) (enabled : bool) (n : Z) (st : App) : App :=
  {| heap := heap st; next := next st; files := files st; queue := queue st;
     output_dir := output_dir st; workers := workers st;
     current_worker := current_worker st; done_count := n;
     list_items := list_items st; s_slider := s_slider st;
     progress_bar := p; status := s;
     buttons_enabled := enabled; debounce_armed := debounce_armed st;
     log := log st |}.

Definition note (e : event) (st : App) : App :=
  {| heap := heap st; next := next st; files := files st; queue := queue st;
     output_dir := output_dir st; workers := workers st;
     current_worker := current_worker st; done_count := done_count st;
     list_items := list_items st; s_slider := s_slider st;
     progress_bar := progress_bar st; status := status st;
     buttons_enabled := buttons_enabled st; debounce_armed := debounce_armed st;
     log := log st ++ [e] |}.

(** [self.workers.append(worker); self.current_worker = worker; worker.start()] *)
Definition spawn (w : FFmpegWorker) (st : App) : App :=
  {| heap := heap st; next := next st; files := files st; queue := queue st;
     output_dir := output_dir st; workers := workers st ++ [w];
     current_worker := Some w; done_count := done_count st;
     list_items := list_items st; s_slider := s_slider st;
     progress_bar := progress_bar st; status := status st;
     buttons_enabled := buttons_enabled st; debounce_armed := debounce_armed st;
     log := log st ++ [ev_started w] |}.

(** [self.files.append(f); self.list.addItem(f)] *)
Definition append_file (f : string) (st : App) : App :=
  set_items (list_items st ++ [f]) (store (files st) (deref st (files st) ++ [f]) st).

(** The loop of [dropEvent], given the local file of each dropped URL, and
    whether a file was added. *)
Fixpoint drop_loop (urls : list string) (added : bool) (st : App) : bool * App :=
  match urls with
  | [] => (added, st)
  | f :: rest =>
      if endswith_any (lower f) video_suffixes
         && negb (contains (deref st (files st)) f)
      then drop_loop rest true (append_file f st)
      else drop_loop rest added st
  end.

Definition dropEvent (urls : list string) (st : App) : App :=
  match drop_loop urls false st with
  | (true, st') => update_preview_debounced st'
  | (false, st') => st'
  end.

(** The loop of [add_files] over the files the dialog returned. *)
Fixpoint add_files_loop (files : list string) (st : App) : App :=
  match files with
  | [] => st
  | f :: rest =>
      if contains (deref st (Windows.files st)) f then add_files_loop rest st
      else add_files_loop rest (append_file f st)
  end.

Definition add_files (files : list string) (st : App) : App :=
  match files with
  | [] => st
  | _ => update_preview_debounced (add_files_loop files st)
  end.

(** The loop of [remove_selected], given the texts of the selected rows. *)
Fixpoint remove_loop (selected : list string) (st : App) : App :=
  match selected with
  | [] => st
  | txt :: rest =>
      let st := if contains (deref st (files st)) txt
                then store (files st) (remove_first txt (deref st (files st))) st
                else st in
      remove_loop rest (set_items (remove_first txt (list_items st)) st)
  end.

Definition remove_selected (selected : list string) (st : App) : App :=
  update_preview_debounced (remove_loop selected st).

Definition new_worker (rt : Runtime) (st : App) (f : string) : FFmpegWorker :=
  {| input_path := f;
     output_path := path_join rt (output_dir st) (path_stem rt f +:+ "_converted.mp4");
     saturation := (inject_Z (s_slider st) / 100)%Q |}.

Definition _run_next (rt : Runtime) (st : App) : App :=
  match deref st (queue st) with
  | [] =>
      note (ev_dialog (information "Done" "✅ All files converted."))
        (set_view (progress_bar st) "Completed" true (done_count st) st)
  | f :: rest =>
      let st := store (queue st) rest st in
      let st := spawn (new_worker rt st f) st in
      set_view (progress_bar st) ("Processing: " +:+ path_name rt f)
        (buttons_enabled st) (done_count st) st
  end.

Definition start_queue (rt : Runtime) (st : App) : App :=
  match deref st (files st), output_dir st with
  | [], _ | _, EmptyString =>
      note (ev_dialog (warning "Missing info" "Add files + select output folder")) st
  | _, _ =>
      let st := queue_copy_of_files st in
      let st := set_view 0 "Processing…" false 0 st in
      _run_next rt st
  end.

Definition _worker_done (rt : Runtime) (_out : string) (st : App) : App :=
  _run_next rt
    (set_view (progress_bar st) (status st) (buttons_enabled st) (done_count st + 1) st).

Definition _worker_error (rt : Runtime) (msg : message) (st : App) : App :=
  _run_next rt (note (ev_dialog (critical "Error" msg)) st).

(** *** The event loop

    A started worker runs on a thread of its own and its signals are queued
    for the thread of the application, which delivers them one at a time to
    the slots they are connected to.  [script i] is what the external tools
    do for the [i]-th worker that is started.  [inbox] holds the signals
    emitted and not yet delivered; [absorbed] is the number of workers whose
    signals have been put there. *)

Record Sys : Type := {
  app : App;
  inbox : list (FFmpegWorker * signal);
  absorbed : nat
}.

(** The signals of the workers started since the last look. *)
Fixpoint emitted_by (rt : Runtime) (script : nat -> External) (i : nat)
  (ws : list FFmpegWorker) : list (FFmpegWorker * signal) :=
  match ws with
  | [] => []
  | w :: ws' =>
      map (pair w) (signals (run rt w (script i))) ++ emitted_by rt script (S i) ws'
  end.

Definition absorb (rt : Runtime) (script : nat -> External) (s : Sys) : Sys :=
  {| app := app s;
     inbox := inbox s ++ emitted_by rt script (absorbed s)
                           (drop (absorbed s) (workers (app s)));
     absorbed := length (workers (app s)) |}.

(** The slot a signal is connected to. *)
Definition slot (rt : Runtime) (sg : signal) (st : App) : App :=
  match sg with
  | progress p => set_view p (status st) (buttons_enabled st) (done_count st) st
  | done out => _worker_done rt out st
  | error msg => _worker_error rt msg st
  end.

(** [choose_output], given the folder the dialog returned. *)
Definition choose_output (folder : string) (st : App) : App :=
  match folder with
  | EmptyString => st
  | _ =>
      {| heap := heap st; next := next st; files := files st; queue := queue st;
         output_dir := folder; workers := workers st;
         current_worker := current_worker st; done_count := done_count st;
         list_items := list_items st; s_slider := s_slider st;
         progress_bar := progress_bar st; status := "Output: " +:+ folder;
         buttons_enabled := buttons_enabled st; debounce_armed := debounce_armed st;
         log := log st |}
  end.

(** The slider is moved to [v], which also starts the preview timer. *)
Definition move_slider (v : Z) (st : App) : App :=
  {| heap := heap st; next := next st; files := files st; queue := queue st;
     output_dir := output_dir st; workers := workers st;
     current_worker := current_worker st; done_count := done_count st;
     list_items := list_items st; s_slider := v;
     progress_bar := progress_bar st; status := status st;
     buttons_enabled := buttons_enabled st; debounce_armed := true;
     log := log st |}.

(** What happens to the application.  A button that is disabled does not
    call its slot; files can be dropped at any time. *)
Inductive input : Type :=
| Deliver                      (* the next queued signal reaches its slot *)
| Drop (urls : list string)
| Add (files : list string)
| Remove (selected : list string)
| Output (folder : string)
| Slider (v : Z)
| Start.

Definition handle (rt : Runtime) (script : nat -> External) (s : Sys) (i : input)
  : Sys :=
  match i with
  | Deliver =>
      match inbox s with
      | [] => s
      | (w, sg) :: rest =>
          absorb rt script
            {| app := slot rt sg (note (ev_signal w sg) (app s));
               inbox := rest; absorbed := absorbed s |}
      end
  | Drop urls =>
      {| app := dropEvent urls (app s); inbox := inbox s; absorbed := absorbed s |}
  | Add fs =>
      if buttons_enabled (app s)
      then {| app := add_files fs (app s); inbox := inbox s; absorbed := absorbed s |}
      else s
  | Remove sel =>
      if buttons_enabled (app s)
      then {| app := remove_selected sel (app s); inbox := inbox s;
              absorbed := absorbed s |}
      else s
  | Output folder =>
      if buttons_enabled (app s)
      then {| app := choose_output folder (app s); inbox := inbox s;
              absorbed := absorbed s |}
      else s
  | Slider v =>
      {| app := move_slider v (app s); inbox := inbox s; absorbed := absorbed s |}
  | Start =>
      if buttons_enabled (app s)
      then absorb rt script
             {| app := start_queue rt (app s); inbox := inbox s;
                absorbed := absorbed s |}
      else s
  end.

(** The states the application can be in. *)
Definition boot : Sys := {| app := init; inbox := []; absorbed := 0 |}.

Inductive reachable (rt : Runtime) (script : nat -> External) : Sys -> Prop :=
| reach_boot : reachable rt script boot
| reach_step s i : reachable rt script s -> reachable rt script (handle rt script s i).

(** Delivering queued signals until none is left, at most [fuel] of them. *)
Fixpoint drain (rt : Runtime) (script : nat -> External) (fuel : nat) (s : Sys) : Sys :=
  match fuel with
  | O => s
  | S fuel' =>
      match inbox s with
      | [] => s
      | _ => drain rt script fuel' (handle rt script s Deliver)
      end
  end.

End Windows.

(** ** A host to run the examples on

    POSIX paths; the saturation is a whole number of hundredths, as the
    slider gives it, and is printed as Python prints such a float.  The
    digest is MD5 in the program; any function of the key gives the same
    file for the same key, and this host takes the key itself. *)

Module Host.
Import PyStr PyNum.

Definition two_digits (n : Z) : string :=
  if (n <? 10)%Z then "0" +:+ str_int n else str_int n.

Definition three_digits (n : Z) : string :=
  if (n <? 100)%Z then "0" +:+ two_digits n else str_int n.

(** [f"{x}"] when [x] is a whole number of hundredths. *)
Definition hundredths_str (q : Q) : string :=
  let n := Qfloor (q * 100) in
  let a := Z.abs n in
  let body := str_int (a / 100) +:+ "."
              +:+ (if (a mod 10 =? 0)%Z then str_int (a mod 100 / 10)
                   else two_digits (a mod 100)) in
  if (n <? 0)%Z then "-" +:+ body else body.

(** [f"{x:.3f}"] when [x] is a whole number of hundredths. *)
Definition hundredths_3f (q : Q) : string :=
  let n := Qfloor (q * 1000) in
  let a := Z.abs n in
  let body := str_int (a / 1000) +:+ "." +:+ three_digits (a mod 1000) in
  if (n <? 0)%Z then "-" +:+ body else body.

Definition is_slash (c : ascii) : bool := (ord c =? 47)%N.

Definition basename (p : string) : string :=
  String.rev (fst (split_at is_slash (String.rev p))).

Definition stem (p : string) : string :=
  let name := basename p in
  match split_at is_dot (String.rev name) with
  | (_, Some EmptyString) | (_, None) => name
  | (_, Some base) => String.rev base
  end.

Definition posix : Runtime :=
  {| ffmpeg := "/usr/bin/ffmpeg";
     ffprobe := "/usr/bin/ffprobe";
     float_str := hundredths_str;
     float_3f := hundredths_3f;
     path_stem := stem;
     path_name := basename;
     path_join := fun d name => d +:+ "/" +:+ name;
     resolve_posix := fun p => p;
     gettempdir := "/tmp";
     md5_hexdigest := fun key => key |}.

(** A clip, and the jobs that convert it. *)
Definition clip : string := "/videos/clip.mp4".

Definition bundled_job : Bundled.FFmpegWorker :=
  {| Bundled.input_path := clip;
     Bundled.output_path := "/out/clip_converted.mp4";
     Bundled.saturation_value := 1 |}.

Definition windows_job : Windows.FFmpegWorker :=
  {| Windows.input_path := clip;
     Windows.output_path := "/out/clip_converted.mp4";
     Windows.saturation := 1 |}.

(** Twenty files, [/videos/0.mp4] to [/videos/19.mp4], and one more. *)
Definition numbered (n : nat) : string :=
  "/videos/" +:+ str_int (Z.of_nat n) +:+ ".mp4".

Definition twenty : list string := map numbered (seq 0 20).

Definition one_more : string := numbered 20.

(** Either variant with the twenty files in its list. *)
Definition twenty_listed : Windows.App := Windows.add_files twenty Windows.init.

Definition bundled_twenty : Bundled.App := Bundled.add_files twenty Bundled.init.

(** The diagnostic lines of the example of the specification. *)
Definition three_lines : list string :=
  ["frame=1 time=00:00:05.00"; "frame=2 time=00:00:05.00"; "frame=3 time=00:00:10.00"].

(** Two files in the list and an output folder chosen, in either variant. *)
Definition bundled_ready : Bundled.App :=
  Bundled.select_output "/out" (Bundled.add_files [clip; numbered 1] Bundled.init).

Definition windows_ready : Windows.Sys :=
  {| Windows.app := Windows.choose_output "/out"
                      (Windows.add_files [clip; numbered 1] Windows.init);
     Windows.inbox := []; Windows.absorbed := 0 |}.

(** The tools succeed for every job but the second one started, for which
    the encoder exits with status 1. *)
Definition second_fails (i : nat) : External :=
  {| duration_stdout := "20.000000
"; bitrate_stdout := "800000
"; stderr_lines := ["frame=1 time=00:00:05.00"];
     returncode := if Nat.eqb i 1 then 1 else 0 |}.

(** Three files in the list of the sequential variant and an output folder
    chosen. *)
Definition three_ready : Windows.Sys :=
  {| Windows.app := Windows.choose_output "/out"
                      (Windows.add_files [numbered 1; numbered 2; numbered 3]
                         Windows.init);
     Windows.inbox := []; Windows.absorbed := 0 |}.

(** The preview of the clip at half saturation is in the cache, 9000 bytes
    long. *)
Definition cached : gmap string N :=
  <[Windows.outjpg posix clip 0.5 := 9000%N]> ∅.

(** An encoder that writes nothing and returns. *)
Definition idle_encoder : Windows.Encoder := fun _ fs => (Windows.Returned, fs).

(** The prober reports twenty seconds and 800 kbit/s; the encoder prints no
    diagnostic line and exits with [rc]. *)
Definition quiet (rc : Z) : External :=
  {| duration_stdout := "20.000000
"; bitrate_stdout := "800000
"; stderr_lines := []; returncode := rc |}.

End Host.

(** ** The words of the specification *)

Module Spec.
Import PyStr PyNum.

(** A well-formed positive integer: decimal digits, at least one, and the
    number they denote is positive. *)
Definition well_formed_positive_integer (s : string) : Prop :=
  s <> EmptyString /\ forallb_str is_decimal s = true /\ (0 < digits_value s)%Z.

(** The word that follows the first [flag] of a command. *)
Fixpoint option_value (flag : string) (cmd : list string) : option string :=
  match cmd with
  | a :: (b :: _) as rest =>
      if String.eqb a flag then Some b else option_value flag rest
  | _ => None
  end.

(** [clamp(0, 100, floor(x))] *)
Definition clamp_percent (x : Q) : Z := Z.max 0 (Z.min 100 (Qfloor x)).

(** The seconds a text [digits.digits] denotes. *)
Definition seconds_value (g : string) : Q :=
  match split_at is_dot g with
  | (a, Some b) =>
      (inject_Z (digits_value a)
       + inject_Z (digits_value b) / inject_Z (10 ^ Z.of_nat (String.length b)))%Q
  | (a, None) => inject_Z (digits_value a)
  end.

(** The elapsed time of a timestamp [hours:minutes:seconds.fraction]. *)
Definition elapsed (m : Re.time_match) : Q :=
  (inject_Z (digits_value (Re.group1 m)) * 3600
   + inject_Z (digits_value (Re.group2 m)) * 60
   + seconds_value (Re.group3 m))%Q.

(** A number beyond every number is clamped to 100; what is not a number
    has no percent, and does not arise from a duration that is finite. *)
Definition clamp_float (x : pyfloat) : Z :=
  match x with
  | Fin q => clamp_percent q
  | PInf => 100
  | NInf | NaN => 0
  end.

(** The elapsed time in binary64: the seconds are the number nearest to
    their text, and the hours and minutes are added to them. *)
Definition elapsed64 (m : Re.time_match) : pyfloat :=
  fadd (round64 (inject_Z (digits_value (Re.group1 m) * 3600
                           + digits_value (Re.group2 m) * 60)))
       (round64 (seconds_value (Re.group3 m))).

(** [t / d] in binary64 for a [d] that is positive. *)
Definition over (t : pyfloat) (d : Q) : pyfloat :=
  match t with
  | Fin a => round64 (a / d)
  | other => other
  end.

(** [clamp(0, 100, floor(elapsed / duration * 100))] in binary64, for a
    duration that is positive. *)
Definition percent (d : Q) (m : Re.time_match) : Z :=
  clamp_float (times100 (over (elapsed64 m) d)).



(** The hours and minutes of a timestamp in seconds, as the float that the
    sum with the seconds makes of them. *)
Definition clock_float (m : Re.time_match) : result pyfloat :=
  h ← py_int (Re.group1 m);
  mm ← py_int (Re.group2 m);
  float_of_int (h * 3600 + mm * 60).

(** A timestamp as a clock shows it: the seconds are below 60, and the
    hours and minutes have no more digits than [int()] reads and make a
    number of seconds below 2^53. *)
Definition clocklike (m : Re.time_match) : Prop :=
  (Z.of_nat (String.length (Re.group1 m)) <= int_max_str_digits)%Z
  /\ (Z.of_nat (String.length (Re.group2 m)) <= int_max_str_digits)%Z
  /\ (digits_value (Re.group1 m) * 3600 + digits_value (Re.group2 m) * 60 < 2 ^ 53)%Z
  /\ (seconds_value (Re.group3 m) < 60)%Q.


(** [x <= y] for floats. *)
Definition fle (x y : pyfloat) : Prop :=
  match x, y with
  | Fin a, Fin b => (a <= b)%Q
  | NaN, _ | _, NaN => False
  | NInf, _ | _, PInf => True
  | _, _ => False
  end.

(** A float that is zero or more. *)
Definition nonneg (x : pyfloat) : Prop := fle (Fin 0) x.

(** The loop of either variant over the lines, for a duration that is
    positive, given how the percent of a timestamp is computed. *)
Fixpoint loop (pct : Re.time_match -> result Z) (last : Z) (lines : list string)
  : list Z * option exn :=
  match lines with
  | [] => ([], None)
  | line :: rest =>
      match Re.search line with
      | Some m =>
          match pct m with
          | Raise e => ([], Some e)
          | Ok p =>
              if (p =? last)%Z then loop pct last rest
              else let (out, r) := loop pct p rest in (p :: out, r)
          end
      | None => loop pct last rest
      end
  end.

(** An update is emitted only when the percent differs from the last one
    emitted. *)
Fixpoint emit_changes (last : Z) (ps : list Z) : list Z :=
  match ps with
  | [] => []
  | p :: ps' =>
      if (p =? last)%Z then emit_changes last ps' else p :: emit_changes p ps'
  end.

(** No value is followed by itself. *)
Fixpoint no_repeat_in_a_row (l : list Z) : Prop :=
  match l with
  | x :: (y :: _) as l' => x <> y /\ no_repeat_in_a_row l'
  | _ => True
  end.




(** A cached preview is valid when the file exists and has more than 500
    bytes. *)
Definition valid_preview (fs : gmap string N) (path : string) : Prop :=
  exists size, fs !! path = Some size /\ (500 < size)%N.

(** A signal that ends a job. *)
Definition terminal (sg : Windows.signal) : bool :=
  match sg with
  | Windows.progress _ => false
  | Windows.done _ | Windows.error _ => true
  end.

(** The number of jobs running after the events of a log: a job runs from
    its start to the delivery of the signal that ends it. *)
Fixpoint running (n : Z) (l : list Windows.event) : Z :=
  match l with
  | [] => n
  | Windows.ev_started _ :: l' => running (n + 1) l'
  | Windows.ev_signal _ sg :: l' => running (if terminal sg then n - 1 else n) l'
  | Windows.ev_dialog _ :: l' => running n l'
  end.

(** At no point of the log does more than one job run. *)
Definition one_at_a_time (l : list Windows.event) : Prop :=
  forall k, (running 0 (take k l) <= 1)%Z.

(** What the delivery of the signals of a job writes to the log: each signal,
    and after the signal of a failure the message box that shows it. *)
Definition delivered (w : Windows.FFmpegWorker) (sigs : list Windows.signal)
  : list Windows.event :=
  flat_map (fun sg =>
              Windows.ev_signal w sg ::
              match sg with
              | Windows.error msg => [Windows.ev_dialog (critical "Error" msg)]
              | _ => []
              end) sigs.

(** The part of the log one job writes: its start, then its signals as they
    are delivered. *)
Definition job_log (w : Windows.FFmpegWorker) (sigs : list Windows.signal)
  : list Windows.event :=
  Windows.ev_started w :: delivered w sigs.

(** An event in a few words, to read a log by. *)
Definition outline (e : Windows.event) : string :=
  match e with
  | Windows.ev_started w => "start " +:+ Windows.input_path w
  | Windows.ev_signal _ (Windows.progress p) => "progress " +:+ str_int p
  | Windows.ev_signal _ (Windows.done _) => "done"
  | Windows.ev_signal _ (Windows.error _) => "error"
  | Windows.ev_dialog (information title _) => "information: " +:+ title
  | Windows.ev_dialog (warning title _) => "warning: " +:+ title
  | Windows.ev_dialog (critical title _) => "critical: " +:+ title
  end.

(** The message box that ends a batch. *)
Definition batch_complete : Windows.event :=
  Windows.ev_dialog (information "Done" "✅ All files converted.").

(** The log of a batch over [fs] whose first worker is the [i]-th one
    started: the jobs one after the other, in the order of [fs]. *)
Fixpoint batch_log (rt : Runtime) (script : nat -> External) (st : Windows.App)
  (i : nat) (fs : list string) : list Windows.event :=
  match fs with
  | [] => []
  | f :: fs' =>
      let w := Windows.new_worker rt st f in
      job_log w (Windows.signals (Windows.run rt w (script i)))
      ++ batch_log rt script st (S i) fs'
  end.

End Spec.

(** ** Texts of digits *)

Module Digits.
Import PyStr PyNum.

(** A text of decimal digits and dots. *)
Definition plain (s : string) : Prop :=
  forallb_str (fun c => is_decimal c || is_dot c) s = true.

(** A text of decimal digits, at least one. *)
Definition decimals (s : string) : Prop :=
  forallb_str is_decimal s = true /\ s <> EmptyString.

(** The groups of a timestamp: digits, digits, and digits with a dot
    between them. *)
Definition timestamp (m : Re.time_match) : Prop :=
  decimals (Re.group1 m) /\ decimals (Re.group2 m)
  /\ exists a b, decimals a /\ decimals b /\ Re.group3 m = a +:+ String "." b.



End Digits.

(** ** Relations between states of the sequential variant *)

Module Shape.
Import Windows.

(** The two lists are two objects, and both are allocated. *)
Definition well_formed (st : App) : Prop :=
  files st <> queue st /\ (files st < next st)%nat /\ (queue st < next st)%nat.

(** [st'] differs from [st] at most in the list of files, the rows of the
    list widget, the preview timer, the slider, the status line and the
    output folder. *)
Definition same_batch (st st' : App) : Prop :=
  next st' = next st /\ files st' = files st /\ queue st' = queue st
  /\ workers st' = workers st /\ buttons_enabled st' = buttons_enabled st
  /\ log st' = log st
  /\ forall l, l <> files st -> heap st' !! l = heap st !! l.

(** [st'] differs from [st] at most in what it shows: the log, the progress
    bar, the status line and the counter. *)
Definition same_run (st st' : App) : Prop :=
  heap st' = heap st /\ next st' = next st /\ files st' = files st
  /\ queue st' = queue st /\ output_dir st' = output_dir st
  /\ s_slider st' = s_slider st /\ workers st' = workers st
  /\ buttons_enabled st' = buttons_enabled st.

(** From [n] jobs running, no event of the log brings the number of jobs
    running above one. *)
Fixpoint within_one (n : Z) (l : list event) : Prop :=
  match l with
  | [] => True
  | e :: l' =>
      let n' := Spec.running n [e] in (n' <= 1)%Z /\ within_one n' l'
  end.

(** The files for which a worker was started, in the order of the starts. *)
Definition converted (st : App) : list string := map input_path (workers st).

End Shape.

(** ** The preview of the sequential variant

    [update_preview_debounced] starts a single-shot timer again; when the
    timer runs out, [update_preview_now] starts a [Previewer] for the current
    item of the list and the saturation of the slider, and the signal of the
    [Previewer] reaches [_on_preview_ready].  The label of the preview is the
    list of the calls made on it.  The current item of the list and whether
    the thread of the last preview still runs are given with the event. *)

Module PreviewUi.
Import PyStr Windows.

Inductive label_call : Type :=
| setText (s : string)
| setPixmap (image : option string).   (* [None] for the empty [QPixmap()] *)

Record Ui : Type := {
  sys : Sys;
  preview_label : list label_call;
  preview_thread : option (string * Q);   (* the video and the saturation *)
  terminated : list (string * Q);
  previews : list (string * Q)            (* the previewers started, in order *)
}.

Definition boot : Ui :=
  {| sys := Windows.boot; preview_label := [setText "Preview"];
     preview_thread := None; terminated := []; previews := [] |}.

(** Something happens to the application that is not about the preview. *)
Definition on_sys (f : Sys -> Sys) (ui : Ui) : Ui :=
  {| sys := f (sys ui); preview_label := preview_label ui;
     preview_thread := preview_thread ui; terminated := terminated ui;
     previews := previews ui |}.

(** The timer has run out: it is not started any more. *)
Definition disarm (st : App) : App :=
  {| heap := heap st; next := next st; files := files st; queue := queue st;
     output_dir := output_dir st; workers := workers st;
     current_worker := current_worker st; done_count := done_count st;
     list_items := list_items st; s_slider := s_slider st;
     progress_bar := progress_bar st; status := status st;
     buttons_enabled := buttons_enabled st; debounce_armed := false;
     log := log st |}.

Definition update_preview_now (current : option string) (isRunning : bool)
  (ui : Ui) : Ui :=
  match current with
  | None =>
      {| sys := sys ui;
         preview_label := preview_label ui
                          ++ [setText "Select a file to preview"; setPixmap None];
         preview_thread := preview_thread ui; terminated := terminated ui;
         previews := previews ui |}
  | Some video =>
      let sat := (inject_Z (s_slider (app (sys ui))) / 100)%Q in
      {| sys := sys ui;
         preview_label := preview_label ui
                          ++ [setText "Generating preview…"; setPixmap None];
         preview_thread := Some (video, sat);
         terminated := match preview_thread ui with
                       | Some old => if isRunning then terminated ui ++ [old]
                                     else terminated ui
                       | None => terminated ui
                       end;
         previews := previews ui ++ [(video, sat)] |}
  end.

(** The timer runs out, if it was started. *)
Definition timeout (current : option string) (isRunning : bool) (ui : Ui) : Ui :=
  if debounce_armed (app (sys ui))
  then update_preview_now current isRunning
         (on_sys (fun s => {| app := disarm (app s); inbox := inbox s;
                              absorbed := absorbed s |}) ui)
  else ui.

(** [_on_preview_ready], given whether the image at the path can be
    loaded. *)
Definition _on_preview_ready (jpg_path : string) (loads : bool) (ui : Ui) : Ui :=
  let show c :=
    {| sys := sys ui; preview_label := preview_label ui ++ [c];
       preview_thread := preview_thread ui; terminated := terminated ui;
       previews := previews ui |} in
  if truthy jpg_path && loads then show (setPixmap (Some jpg_path))
  else show (setText "Preview unavailable").

End PreviewUi.

(** ** More words to state what the code does *)

Module More.
Import PyStr Windows.

(** The paths of [fs] that are not in [seen], each one once, in the order
    of their first occurrence. *)
Fixpoint fresh (seen fs : list string) : list string :=
  match fs with
  | [] => []
  | f :: fs' =>
      if contains seen f then fresh seen fs' else f :: fresh (seen ++ [f]) fs'
  end.

(** The path ends with one of the extensions of a video, in small or capital
    letters. *)
Definition is_video (f : string) : bool :=
  endswith_any (lower f) video_suffixes.

(** The text does not start with a decimal digit. *)
Definition no_digit_ahead (s : string) : Prop :=
  match s with
  | EmptyString => True
  | String c _ => is_decimal c = false
  end.

(** The text has no letter t. *)
Definition no_t (s : string) : Prop :=
  forallb_str (fun c => negb (Ascii.eqb c "t")) s = true.

(** The exception the run of the bundled worker catches, if any: of a
    duration that is no number, or of the loop over the diagnostic lines. *)
Definition bundled_caught (io : External) : option exn :=
  match Bundled.probe_duration io with
  | Raise e => Some e
  | Ok duration => (Bundled.read_stderr duration (-1) (stderr_lines io)).2
  end.

(** The exception the loop of the sequential worker raises, if any. *)
Definition windows_caught (io : External) : option exn :=
  (Windows.read_stderr (Windows.probe_duration io) (-1) (stderr_lines io)).2.

(** The number of jobs running, by the log of the application. *)
Definition jobs_running (s : Sys) : Z := Spec.running 0 (log (app s)).

(** No job is in flight: the buttons are enabled, no signal waits and no job
    runs. *)
Definition at_rest (s : Sys) : Prop :=
  buttons_enabled (app s) = true /\ inbox s = [] /\ jobs_running s = 0%Z.

(** One job is in flight: the buttons are disabled, one job runs, and the
    signals that wait are those of the worker started last, percents and
    then the one signal that ends the job. *)
Definition one_in_flight (s : Sys) : Prop :=
  buttons_enabled (app s) = false
  /\ jobs_running s = 1%Z
  /\ exists w ps t,
       last (workers (app s)) = Some w
       /\ inbox s = map (pair w) (map progress ps ++ [t])
       /\ Spec.terminal t = true.

Definition settled (s : Sys) : Prop :=
  absorbed s = length (workers (app s)) /\ (at_rest s \/ one_in_flight s).

(** What happens to the application without a change of the list or of the
    slider: a signal of a worker is delivered, the start button or the
    button of the output folder is clicked. *)
Definition apart_from_the_preview (i : input) : bool :=
  match i with
  | Deliver | Start | Output _ => true
  | _ => false
  end.

End More.

(** * Proofs *)

(** ** Text *)

Section TextFacts.
Import PyStr.

Lemma contains_spec (l : list string) (x : string) :
  contains l x = true <-> x ∈ l.
Proof.
  unfold contains. rewrite existsb_exists. split.
  - intros (y & Hy & Heq). apply String.eqb_eq in Heq. subst y.
    by apply list_elem_of_In.
  - intros Hx. exists x. split; [by apply list_elem_of_In | apply String.eqb_refl].
Qed.

Lemma contains_false (l : list string) (x : string) :
  contains l x = false <-> x ∉ l.
Proof.
  rewrite <- contains_spec. destruct (contains l x); split; congruence.
Qed.

Lemma truthy_false (s : string) : truthy s = false <-> s = EmptyString.
Proof. destruct s; simpl; split; congruence. Qed.

Lemma isdigit_nonempty (s : string) : isdigit s = true -> truthy s = true.
Proof. by destruct s. Qed.

End TextFacts.

(** ** The target bitrate *)

Section Bitrate.
Import PyStr.

Lemma bundled_probe_bitrate (io : External) :
  Bundled.probe_bitrate io =
  if isdigit (strip (bitrate_stdout io)) then Some (strip (bitrate_stdout io)) else None.
Proof.
  unfold Bundled.probe_bitrate.
  destruct (isdigit (strip (bitrate_stdout io))) eqn:Hd.
  - by rewrite (isdigit_nonempty _ Hd).
  - by rewrite orb_true_r.
Qed.

(** C1, as the code has it: the bundled variant passes the trimmed output of
    the prober to [-b:v] when it is made of digits only, and [12M] otherwise;
    the other variant does the same when the trimmed output is made of digits
    only or is empty. *)
Theorem target_bitrate_policy (rt : Runtime) (b : Bundled.FFmpegWorker)
  (w : Windows.FFmpegWorker) (io : External) :
  let out := strip (bitrate_stdout io) in
  let target := if isdigit out then out else "12M" in
  Bundled.cmd rt b (Bundled.probe_bitrate io) =
    [ffmpeg rt; "-y"; "-i"; Bundled.input_path b; "-vf"; Bundled.vf rt b;
     "-c:v"; "libx264"; "-b:v"; target;
     "-maxrate"; "12M"; "-bufsize"; "24M"; "-c:a"; "copy"; Bundled.output_path b]
  /\ (isdigit out = true \/ out = EmptyString ->
      Windows.cmd rt w (Windows.probe_bitrate io) =
        [ffmpeg rt; "-y"; "-i"; Windows.input_path w; "-vf";
         Windows.vf rt (Windows.saturation w);
         "-b:v"; target; "-c:a"; "copy"; Windows.output_path w]).
Proof.
  intros out target. split.
  - rewrite bundled_probe_bitrate. fold out. subst target.
    unfold Bundled.cmd. destruct (isdigit out) eqn:Hd; [|done].
    by rewrite (isdigit_nonempty _ Hd).
  - intros H. unfold Windows.cmd, Windows.probe_bitrate. fold out. subst target.
    destruct H as [Hd | He].
    + by rewrite Hd, (isdigit_nonempty _ Hd).
    + by rewrite He.
Qed.

Lemma target_bitrate_policy_witness :
  Windows.cmd Host.posix Host.windows_job (Windows.probe_bitrate (Host.quiet 0)) =
    ["/usr/bin/ffmpeg"; "-y"; "-i"; "/videos/clip.mp4"; "-vf"; "eq=saturation=1.0";
     "-b:v"; "800000"; "-c:a"; "copy"; "/out/clip_converted.mp4"].
Proof.
  apply (proj2 (target_bitrate_policy Host.posix Host.bundled_job Host.windows_job
                  (Host.quiet 0))).
  left. reflexivity.
Defined.

End Bitrate.

(** ** The encoder command *)

Section Command.
Import PyStr.

(** C6, as the code has it: in the bundled variant the command ends with the
    ceiling of 12M and the buffer of 24M, whatever the input, the saturation
    and the bitrate the prober reported, and it is the command the run
    launches.  The command of the sequential variant has the input, the
    filter, the bitrate and the copy of the audio, and no such option. *)
Theorem bundled_rate_ceiling (rt : Runtime) (b : Bundled.FFmpegWorker)
  (w : Windows.FFmpegWorker) (orig_bitrate : option string) (bitrate : string) :
  (exists front,
     Bundled.cmd rt b orig_bitrate =
     front ++ ["-maxrate"; "12M"; "-bufsize"; "24M"; "-c:a"; "copy";
               Bundled.output_path b])
  /\ (forall io, Bundled.launched (Bundled.run rt b io) = None
                 \/ Bundled.launched (Bundled.run rt b io)
                    = Some (Bundled.cmd rt b (Bundled.probe_bitrate io)))
  /\ Windows.cmd rt w bitrate
     = [ffmpeg rt; "-y"; "-i"; Windows.input_path w;
        "-vf"; Windows.vf rt (Windows.saturation w);
        "-b:v"; bitrate; "-c:a"; "copy"; Windows.output_path w]
  /\ (forall io, Windows.launched (Windows.run rt w io)
                 = Some (Windows.cmd rt w (Windows.probe_bitrate io))).
Proof.
  split; [unfold Bundled.cmd; eexists; reflexivity|]. split; [|split; [done|]].
  - intros io. unfold Bundled.run.
    destruct (negb _ || negb _); [by left|].
    destruct (Bundled.probe_duration io) as [duration|e]; [|by left].
    right. by destruct (Bundled.read_stderr _ _ _).
  - intros io. unfold Windows.run. by destruct (Windows.read_stderr _ _ _).
Qed.

(** The command of the sequential variant has neither. *)
Lemma windows_command_has_no_ceiling :
  let cmd := Windows.cmd Host.posix Host.windows_job
               (Windows.probe_bitrate (Host.quiet 0)) in
  Windows.launched (Windows.run Host.posix Host.windows_job (Host.quiet 0)) = Some cmd
  /\ Spec.option_value "-maxrate" cmd = None
  /\ Spec.option_value "-bufsize" cmd = None
  /\ ("12M" ∉ cmd) /\ ("24M" ∉ cmd).
Proof.
  vm_compute. repeat split; intros H; repeat (apply elem_of_cons in H as [H|H]; [discriminate|]);
    by apply elem_of_nil in H.
Qed.

(** The bundled variant passes a bitrate of zero on, although zero is not a
    positive integer. *)
Lemma bundled_passes_zero_on :
  let io := {| duration_stdout := "20.0"; bitrate_stdout := "0
"; stderr_lines := []; returncode := 0 |} in
  let cmd := Bundled.cmd Host.posix Host.bundled_job (Bundled.probe_bitrate io) in
  ~ Spec.well_formed_positive_integer (strip (bitrate_stdout io))
  /\ Bundled.launched (Bundled.run Host.posix Host.bundled_job io) = Some cmd
  /\ Spec.option_value "-b:v" cmd = Some "0"
  /\ Spec.option_value "-b:v" cmd <> Some "12M".
Proof.
  cbv zeta. split; [|by vm_compute].
  intros (_ & _ & H). vm_compute in H. discriminate.
Qed.

End Command.

(** ** The working set *)

Section WorkingSet.
Import PyStr.

Lemma remove_first_subset (x y : string) (l : list string) :
  y ∈ remove_first x l -> y ∈ l.
Proof.
  induction l as [|z l IH]; simpl; [done|].
  destruct (String.eqb x z); [by apply list_elem_of_further|].
  rewrite !elem_of_cons. intros [->|H]; [by left | right; by apply IH].
Qed.

Lemma remove_first_NoDup (x : string) (l : list string) :
  NoDup l -> NoDup (remove_first x l).
Proof.
  induction 1 as [|z l Hz Hl IH]; simpl; [constructor|].
  destruct (String.eqb x z); [done|].
  constructor; [|done]. intros H. by apply Hz, (remove_first_subset x).
Qed.

Lemma NoDup_snoc (l : list string) (x : string) :
  NoDup l -> x ∉ l -> NoDup (l ++ [x]).
Proof.
  intros Hl Hx. apply NoDup_app. split; [done|]. split.
  - intros y Hy ->%list_elem_of_singleton. done.
  - apply NoDup_singleton.
Qed.

(** *** The bundled variant *)

(** What holds of the working set before [add_files] and is kept by adding
    a new path below the cap, holds after it. *)
Lemma bundled_add_files_loop_inv (P : list string -> Prop) (fs : list string) :
  (forall l x, P l -> x ∈ fs -> x ∉ l -> (length l < 20)%nat -> P (l ++ [x])) ->
  forall st, P (Bundled.input_files st) ->
             P (Bundled.input_files (Bundled.add_files_loop fs st)).
Proof.
  induction fs as [|f fs IH]; intros Hstep st HP; cbn [Bundled.add_files_loop]; [done|].
  destruct (20 <=? length (Bundled.input_files st))%nat eqn:Hcap; [done|].
  apply Nat.leb_gt in Hcap.
  assert (Hrest : forall l x, P l -> x ∈ fs -> x ∉ l -> (length l < 20)%nat -> P (l ++ [x])).
  { intros l x Hl Hx. apply Hstep; [done | by apply list_elem_of_further]. }
  destruct (contains (Bundled.input_files st) f) eqn:Hin.
  - by apply IH.
  - apply IH; [done|]. simpl. apply Hstep; [done | by left | | done].
    by apply contains_false.
Qed.

Lemma bundled_add_files_inv (P : list string -> Prop) (fs : list string) :
  (forall l x, P l -> x ∈ fs -> x ∉ l -> (length l < 20)%nat -> P (l ++ [x])) ->
  forall st, P (Bundled.input_files st) ->
             P (Bundled.input_files (Bundled.add_files fs st)).
Proof.
  intros Hstep st HP. destruct fs as [|f fs]; [done|].
  by apply (bundled_add_files_loop_inv P (f :: fs)).
Qed.

Lemma bundled_dropEvent_inv (P : list string -> Prop) (urls : list string) :
  (forall l x, P l -> x ∈ urls -> x ∉ l -> (length l < 20)%nat -> P (l ++ [x])) ->
  forall st, P (Bundled.input_files st) ->
             P (Bundled.input_files (Bundled.dropEvent urls st)).
Proof.
  induction urls as [|f urls IH]; intros Hstep st HP; cbn [Bundled.dropEvent]; [done|].
  assert (Hrest : forall l x, P l -> x ∈ urls -> x ∉ l -> (length l < 20)%nat -> P (l ++ [x])).
  { intros l x Hl Hx. apply Hstep; [done | by apply list_elem_of_further]. }
  destruct (endswith_any (lower f) video_suffixes); simpl; [|by apply IH].
  destruct (contains (Bundled.input_files st) f) eqn:Hin; simpl; [by apply IH|].
  destruct (length (Bundled.input_files st) <? 20)%nat eqn:Hcap; [|by apply IH].
  apply IH; [done|]. simpl. apply Hstep; [done | by left | | ].
  - by apply contains_false.
  - by apply Nat.ltb_lt.
Qed.

Lemma bundled_remove_selected_NoDup (sel : list string) (st : Bundled.App) :
  NoDup (Bundled.input_files st) ->
  NoDup (Bundled.input_files (Bundled.remove_selected sel st)).
Proof.
  revert st. induction sel as [|txt sel IH]; intros st H; simpl; [done|].
  apply IH. simpl. destruct (contains (Bundled.input_files st) txt); [|done].
  by apply remove_first_NoDup.
Qed.

Lemma bundled_start_loop_files (rt : Runtime) (snapshot : list string) (st : Bundled.App) :
  Bundled.input_files (Bundled.start_loop rt snapshot st) = Bundled.input_files st.
Proof.
  revert st. induction snapshot as [|f fs IH]; intros st; simpl; [done|].
  by rewrite IH.
Qed.

Lemma bundled_handle_NoDup (rt : Runtime) (st : Bundled.App) (i : Bundled.input) :
  NoDup (Bundled.input_files st) -> NoDup (Bundled.input_files (Bundled.handle rt st i)).
Proof.
  intros H. destruct i as [fs|sel|urls|folder|v| |r|r err]; simpl.
  - apply bundled_add_files_inv; [|done]. intros l x Hl _ Hx _. by apply NoDup_snoc.
  - by apply bundled_remove_selected_NoDup.
  - apply bundled_dropEvent_inv; [|done]. intros l x Hl _ Hx _. by apply NoDup_snoc.
  - unfold Bundled.select_output. by destruct folder.
  - done.
  - unfold Bundled.start_conversion.
    destruct (Bundled.input_files st) eqn:Hf; [by simpl; rewrite Hf|].
    destruct (Bundled.output_folder st); simpl; [by rewrite Hf|].
    rewrite bundled_start_loop_files. simpl. by rewrite Hf.
  - unfold Bundled._on_worker_finished. simpl.
    by destruct (filter _ (Bundled.workers st)).
  - done.
Qed.

Lemma bundled_reachable_NoDup (rt : Runtime) (st : Bundled.App) :
  Bundled.reachable rt st -> NoDup (Bundled.input_files st).
Proof.
  induction 1 as [|st i _ IH]; [constructor | by apply bundled_handle_NoDup].
Qed.

End WorkingSet.

(** *** The sequential variant *)

Section WindowsWorkingSet.
Import PyStr Windows Shape.

Lemma deref_store_eq (l : loc) (v : list string) (st : App) :
  deref (store l v st) l = v.
Proof. unfold deref, store. simpl. by rewrite lookup_insert_eq. Qed.

Lemma deref_store_ne (l l' : loc) (v : list string) (st : App) :
  l <> l' -> deref (store l v st) l' = deref st l'.
Proof. intros H. unfold deref, store. simpl. by rewrite lookup_insert_ne. Qed.

Lemma same_batch_refl (st : App) : same_batch st st.
Proof. by repeat split. Qed.

Lemma same_batch_trans (a b c : App) :
  same_batch a b -> same_batch b c -> same_batch a c.
Proof.
  intros (Hn & Hf & Hq & Hw & Hb & Hl & Hh) (Hn' & Hf' & Hq' & Hw' & Hb' & Hl' & Hh').
  repeat split; try congruence.
  intros l Hne. rewrite Hh'; [by apply Hh | congruence].
Qed.

Lemma same_batch_deref (st st' : App) (l : loc) :
  same_batch st st' -> l <> files st -> deref st' l = deref st l.
Proof. intros (_ & _ & _ & _ & _ & _ & Hh) Hne. unfold deref. by rewrite Hh. Qed.

Lemma same_batch_well_formed (st st' : App) :
  same_batch st st' -> well_formed st -> well_formed st'.
Proof.
  intros (Hn & Hf & Hq & _) (H1 & H2 & H3). unfold well_formed.
  rewrite Hn, Hf, Hq. done.
Qed.

Lemma append_file_same_batch (f : string) (st : App) :
  same_batch st (append_file f st).
Proof.
  repeat split; try done. intros l Hne. simpl. by rewrite lookup_insert_ne.
Qed.

Lemma append_file_deref (f : string) (st : App) :
  deref (append_file f st) (files (append_file f st)) = deref st (files st) ++ [f].
Proof. unfold append_file. simpl. apply deref_store_eq. Qed.

Lemma drop_loop_same_batch (urls : list string) (added : bool) (st : App) :
  same_batch st (drop_loop urls added st).2.
Proof.
  revert added st. induction urls as [|f urls IH]; intros added st;
    cbn [drop_loop]; [apply same_batch_refl|].
  destruct (_ && _); [|apply IH].
  eapply same_batch_trans; [apply (append_file_same_batch f) | apply IH].
Qed.

Lemma update_preview_same_batch (st : App) : same_batch st (update_preview_debounced st).
Proof. by repeat split. Qed.

Lemma dropEvent_same_batch (urls : list string) (st : App) :
  same_batch st (dropEvent urls st).
Proof.
  unfold dropEvent. pose proof (drop_loop_same_batch urls false st) as H.
  destruct (drop_loop urls false st) as [[] st']; simpl in H; [|done].
  eapply same_batch_trans; [done | apply update_preview_same_batch].
Qed.

Lemma add_files_loop_same_batch (fs : list string) (st : App) :
  same_batch st (add_files_loop fs st).
Proof.
  revert st. induction fs as [|f fs IH]; intros st;
    cbn [add_files_loop]; [apply same_batch_refl|].
  destruct (contains _ f); [apply IH|].
  eapply same_batch_trans; [apply (append_file_same_batch f) | apply IH].
Qed.

Lemma add_files_same_batch (fs : list string) (st : App) :
  same_batch st (add_files fs st).
Proof.
  destruct fs as [|f fs]; [apply same_batch_refl|]. unfold add_files.
  eapply same_batch_trans; [apply add_files_loop_same_batch
                           | apply update_preview_same_batch].
Qed.

Lemma remove_loop_same_batch (sel : list string) (st : App) :
  same_batch st (remove_loop sel st).
Proof.
  revert st. induction sel as [|txt sel IH]; intros st;
    cbn [remove_loop]; [apply same_batch_refl|].
  eapply same_batch_trans; [|apply IH].
  destruct (contains _ txt); [|by repeat split].
  repeat split; try done. intros l Hne. simpl. by rewrite lookup_insert_ne.
Qed.

Lemma remove_selected_same_batch (sel : list string) (st : App) :
  same_batch st (remove_selected sel st).
Proof.
  unfold remove_selected.
  eapply same_batch_trans; [apply remove_loop_same_batch
                           | apply update_preview_same_batch].
Qed.

Lemma choose_output_same_batch (folder : string) (st : App) :
  same_batch st (choose_output folder st).
Proof. destruct folder; by repeat split. Qed.

Lemma move_slider_same_batch (v : Z) (st : App) : same_batch st (move_slider v st).
Proof. by repeat split. Qed.

(** What holds of the list of files and is kept by adding a new path, holds
    after the loops that add files. *)
Lemma drop_loop_inv (P : list string -> Prop) (urls : list string) :
  (forall l x, P l -> x ∈ urls -> x ∉ l -> P (l ++ [x])) ->
  forall added st, P (deref st (files st)) ->
    let st' := (drop_loop urls added st).2 in P (deref st' (files st')).
Proof.
  induction urls as [|f urls IH]; intros Hstep added st HP;
    cbn [drop_loop]; [done|].
  assert (Hrest : forall l x, P l -> x ∈ urls -> x ∉ l -> P (l ++ [x])).
  { intros l x Hl Hx. apply Hstep; [done | by apply list_elem_of_further]. }
  destruct (endswith_any (lower f) video_suffixes); simpl; [|by apply IH].
  destruct (contains (deref st (files st)) f) eqn:Hin; simpl; [by apply IH|].
  apply IH; [done|]. rewrite append_file_deref.
  apply Hstep; [done | by left | by apply contains_false].
Qed.

Lemma dropEvent_inv (P : list string -> Prop) (urls : list string) :
  (forall l x, P l -> x ∈ urls -> x ∉ l -> P (l ++ [x])) ->
  forall st, P (deref st (files st)) ->
    P (deref (dropEvent urls st) (files (dropEvent urls st))).
Proof.
  intros Hstep st HP. unfold dropEvent.
  pose proof (drop_loop_inv P urls Hstep false st HP) as H.
  by destruct (drop_loop urls false st) as [[] st'].
Qed.

Lemma add_files_loop_inv (P : list string -> Prop) (fs : list string) :
  (forall l x, P l -> x ∈ fs -> x ∉ l -> P (l ++ [x])) ->
  forall st, P (deref st (files st)) ->
    P (deref (add_files_loop fs st) (files (add_files_loop fs st))).
Proof.
  induction fs as [|f fs IH]; intros Hstep st HP; cbn [add_files_loop]; [done|].
  assert (Hrest : forall l x, P l -> x ∈ fs -> x ∉ l -> P (l ++ [x])).
  { intros l x Hl Hx. apply Hstep; [done | by apply list_elem_of_further]. }
  destruct (contains (deref st (files st)) f) eqn:Hin; [by apply IH|].
  apply IH; [done|]. rewrite append_file_deref.
  apply Hstep; [done | by left | by apply contains_false].
Qed.

Lemma add_files_inv (P : list string -> Prop) (fs : list string) :
  (forall l x, P l -> x ∈ fs -> x ∉ l -> P (l ++ [x])) ->
  forall st, P (deref st (files st)) ->
    P (deref (add_files fs st) (files (add_files fs st))).
Proof.
  intros Hstep st HP. destruct fs as [|f fs]; [done|].
  by apply (add_files_loop_inv P (f :: fs)).
Qed.

Lemma remove_loop_NoDup (sel : list string) (st : App) :
  NoDup (deref st (files st)) ->
  NoDup (deref (remove_loop sel st) (files (remove_loop sel st))).
Proof.
  revert st. induction sel as [|txt sel IH]; intros st H; cbn [remove_loop]; [done|].
  apply IH. destruct (contains (deref st (files st)) txt); [|done].
  simpl. change (NoDup (deref (store (files st) (remove_first txt (deref st (files st))) st) (files st))).
  rewrite deref_store_eq. by apply remove_first_NoDup.
Qed.

End WindowsWorkingSet.

(** *** What the scheduler does to the lists *)

Section Scheduler.
Import PyStr Windows Shape.

Lemma run_next_effect (rt : Runtime) (st : App) :
  well_formed st ->
  let st' := _run_next rt st in
  well_formed st'
  /\ files st' = files st /\ queue st' = queue st /\ next st' = next st
  /\ deref st' (files st') = deref st (files st)
  /\ converted st' ++ deref st' (queue st') = converted st ++ deref st (queue st).
Proof.
  intros (Hne & Hf & Hq). unfold _run_next.
  destruct (deref st (queue st)) as [|f rest] eqn:Hqueue; simpl.
  - repeat split; try done. unfold deref in *. simpl. by rewrite Hqueue.
  - repeat split; try done.
    + unfold deref. simpl. by rewrite lookup_insert_ne.
    + unfold converted, deref. simpl. rewrite lookup_insert_eq. simpl.
      rewrite map_app. simpl. by rewrite <- app_assoc.
Qed.

Lemma start_queue_effect (rt : Runtime) (st : App) :
  well_formed st ->
  let st' := start_queue rt st in
  well_formed st' /\ files st' = files st
  /\ deref st' (files st') = deref st (files st).
Proof.
  intros Hwf. pose proof Hwf as (Hne & Hf & Hq). unfold start_queue.
  destruct (deref st (files st)) as [|f fs] eqn:Hfiles.
  { simpl. repeat split; try done; unfold deref in *; simpl; by rewrite Hfiles. }
  destruct (output_dir st) eqn:Hout.
  { simpl. repeat split; try done; unfold deref in *; simpl; by rewrite Hfiles. }
  set (st1 := set_view 0 "Processing…" false 0 (queue_copy_of_files st)).
  assert (Hwf1 : well_formed st1).
  { unfold well_formed. simpl. lia. }
  destruct (run_next_effect rt st1 Hwf1) as (Hwf' & Hf' & _ & _ & Hd' & _).
  cbv zeta in *. split; [done|]. split; [done|].
  rewrite Hd'. unfold deref. simpl. rewrite lookup_insert_ne; [|lia].
  unfold deref in Hfiles. by rewrite Hfiles.
Qed.

(** A batch starts with a copy of the list of files in the queue, and its
    first worker. *)
Lemma start_queue_snapshot (rt : Runtime) (st : App) :
  well_formed st ->
  deref st (files st) <> [] -> output_dir st <> EmptyString ->
  let st' := start_queue rt st in
  converted st' ++ deref st' (queue st') = converted st ++ deref st (files st).
Proof.
  intros Hwf Hfiles Hout. pose proof Hwf as (Hne & Hf & Hq). unfold start_queue.
  destruct (deref st (files st)) as [|f fs] eqn:Hd; [done|].
  destruct (output_dir st) eqn:Ho; [done|].
  set (st1 := set_view 0 "Processing…" false 0 (queue_copy_of_files st)).
  assert (Hwf1 : well_formed st1).
  { unfold well_formed. simpl. lia. }
  destruct (run_next_effect rt st1 Hwf1) as (_ & _ & _ & _ & _ & HJ).
  cbv zeta in *. rewrite HJ. unfold converted, deref. simpl.
  rewrite lookup_insert_eq. simpl. by rewrite Hd.
Qed.

Lemma slot_effect (rt : Runtime) (sg : signal) (st : App) :
  well_formed st ->
  let st' := slot rt sg st in
  well_formed st'
  /\ deref st' (files st') = deref st (files st)
  /\ converted st' ++ deref st' (queue st') = converted st ++ deref st (queue st).
Proof.
  intros Hwf. destruct sg as [p|out|msg]; simpl.
  - done.
  - unfold _worker_done.
    set (st1 := set_view _ _ _ _ st).
    destruct (run_next_effect rt st1 Hwf) as (H1 & _ & _ & _ & H2 & H3). done.
  - unfold _worker_error.
    set (st1 := note _ st).
    destruct (run_next_effect rt st1 Hwf) as (H1 & _ & _ & _ & H2 & H3). done.
Qed.

(** Every state the application reaches keeps its two lists apart and has no
    path twice in the list of files. *)
Lemma handle_invariant (rt : Runtime) (script : nat -> External) (s : Sys) (i : input) :
  well_formed (app s) /\ NoDup (deref (app s) (files (app s))) ->
  well_formed (app (handle rt script s i))
  /\ NoDup (deref (app (handle rt script s i)) (files (app (handle rt script s i)))).
Proof.
  intros [Hwf Hnd].
  destruct i as [|urls|fs|sel|folder|v|]; cbn [handle].
  - destruct (inbox s) as [|[w sg] rest]; [done|]. cbn [absorb app].
    destruct (slot_effect rt sg (note (ev_signal w sg) (app s)) Hwf) as (H1 & H2 & _).
    split; [done|]. by rewrite H2.
  - cbn [app]. split.
    + eapply same_batch_well_formed; [apply dropEvent_same_batch | done].
    + apply dropEvent_inv; [|done]. intros l x Hl _ Hx. by apply NoDup_snoc.
  - destruct (buttons_enabled (app s)); [|done]. cbn [app]. split.
    + eapply same_batch_well_formed; [apply add_files_same_batch | done].
    + apply add_files_inv; [|done]. intros l x Hl _ Hx. by apply NoDup_snoc.
  - destruct (buttons_enabled (app s)); [|done]. cbn [app]. split.
    + eapply same_batch_well_formed; [apply remove_selected_same_batch | done].
    + unfold remove_selected. by apply (remove_loop_NoDup sel).
  - destruct (buttons_enabled (app s)); [|done]. cbn [app]. split.
    + eapply same_batch_well_formed; [apply choose_output_same_batch | done].
    + by destruct folder.
  - done.
  - destruct (buttons_enabled (app s)); [|done]. cbn [absorb app].
    destruct (start_queue_effect rt (app s) Hwf) as (H1 & _ & H2).
    split; [done|]. by rewrite H2.
Qed.

Lemma reachable_invariant (rt : Runtime) (script : nat -> External) (s : Sys) :
  reachable rt script s ->
  well_formed (app s) /\ NoDup (deref (app s) (files (app s))).
Proof.
  induction 1 as [|s i _ IH]; [|by apply handle_invariant].
  split; [unfold well_formed; simpl; lia | constructor].
Qed.

(** The files converted so far, followed by the files that wait in the
    queue, are the same list after anything that is not a new start. *)
Lemma handle_keeps_batch (rt : Runtime) (script : nat -> External) (s : Sys) (i : input) :
  well_formed (app s) -> i <> Start ->
  let s' := handle rt script s i in
  well_formed (app s')
  /\ converted (app s') ++ deref (app s') (queue (app s'))
     = converted (app s) ++ deref (app s) (queue (app s)).
Proof.
  intros Hwf Hi.
  assert (Hsame : forall st', same_batch (app s) st' ->
            well_formed st'
            /\ converted st' ++ deref st' (queue st')
               = converted (app s) ++ deref (app s) (queue (app s))).
  { intros st' Hs. split; [by eapply same_batch_well_formed|].
    pose proof Hs as (_ & _ & Hq & Hw & _). unfold converted. rewrite Hw, Hq.
    f_equal. apply same_batch_deref; [done|]. destruct Hwf as [Hne _]. congruence. }
  destruct i as [|urls|fs|sel|folder|v|]; cbn [handle]; [| | | | | |done].
  - destruct (inbox s) as [|[w sg] rest]; [done|]. cbn [absorb app].
    destruct (slot_effect rt sg (note (ev_signal w sg) (app s)) Hwf) as (H1 & _ & H3).
    done.
  - cbn [app]. apply Hsame, dropEvent_same_batch.
  - destruct (buttons_enabled (app s)); [|done]. apply Hsame, add_files_same_batch.
  - destruct (buttons_enabled (app s)); [|done].
    apply Hsame, remove_selected_same_batch.
  - destruct (buttons_enabled (app s)); [|done].
    apply Hsame, choose_output_same_batch.
  - apply Hsame, move_slider_same_batch.
Qed.

End Scheduler.

(** ** The claims about the working set *)

Section WorkingSetClaims.
Import PyStr.

Lemma remove_first_length (x : string) (l : list string) :
  (length (remove_first x l) <= length l)%nat.
Proof.
  induction l as [|y l IH]; simpl; [done|].
  destruct (String.eqb x y); simpl; lia.
Qed.

Lemma bundled_remove_selected_length (sel : list string) (st : Bundled.App) :
  (length (Bundled.input_files (Bundled.remove_selected sel st))
   <= length (Bundled.input_files st))%nat.
Proof.
  revert st. induction sel as [|txt sel IH]; intros st; simpl; [done|].
  etrans; [apply IH|]. simpl.
  destruct (contains (Bundled.input_files st) txt); [apply remove_first_length | done].
Qed.

Lemma snoc_below_cap (l : list string) (x : string) :
  (length l <= 20)%nat -> (length l < 20)%nat -> (length (l ++ [x]) <= 20)%nat.
Proof. rewrite length_app. simpl. lia. Qed.

Lemma bundled_handle_cap (rt : Runtime) (st : Bundled.App) (i : Bundled.input) :
  (length (Bundled.input_files st) <= 20)%nat ->
  (length (Bundled.input_files (Bundled.handle rt st i)) <= 20)%nat.
Proof.
  intros H. destruct i as [fs|sel|urls|folder|v| |r|r err]; simpl.
  - apply (bundled_add_files_inv (fun l => length l <= 20)%nat); [|done].
    intros l x Hl _ _. by apply snoc_below_cap.
  - etrans; [apply bundled_remove_selected_length | done].
  - apply (bundled_dropEvent_inv (fun l => length l <= 20)%nat); [|done].
    intros l x Hl _ _. by apply snoc_below_cap.
  - unfold Bundled.select_output. by destruct folder.
  - done.
  - unfold Bundled.start_conversion.
    destruct (Bundled.input_files st) eqn:Hf; [by simpl; rewrite Hf|].
    destruct (Bundled.output_folder st); simpl; [by rewrite Hf|].
    rewrite bundled_start_loop_files. simpl. by rewrite Hf.
  - unfold Bundled._on_worker_finished. simpl.
    by destruct (filter _ (Bundled.workers st)).
  - done.
Qed.

(** C5, as the code has it: in the bundled variant every working set the
    application reaches has at most 20 files, and on a set of 20 files
    [add_files] and [dropEvent] change nothing; [add_files] then opens the
    message box that tells of the limit. *)
Theorem bundled_cap_of_twenty (rt : Runtime) :
  (forall st, Bundled.reachable rt st -> (length (Bundled.input_files st) <= 20)%nat)
  /\ (forall st fs, length (Bundled.input_files st) = 20%nat ->
        Bundled.input_files (Bundled.add_files fs st) = Bundled.input_files st
        /\ Bundled.input_files (Bundled.dropEvent fs st) = Bundled.input_files st
        /\ (fs <> [] ->
            Bundled.dialogs (Bundled.add_files fs st) =
            Bundled.dialogs st
            ++ [information "Limit" "You can only add up to 20 files."])).
Proof.
  split.
  - induction 1 as [|st i _ IH]; [simpl; lia | by apply bundled_handle_cap].
  - intros st fs Hlen. split; [|split].
    + apply (bundled_add_files_inv (fun l => l = Bundled.input_files st)); [|done].
      intros l x -> _ _ Hlt. lia.
    + apply (bundled_dropEvent_inv (fun l => l = Bundled.input_files st)); [|done].
      intros l x -> _ _ Hlt. lia.
    + intros Hfs. destruct fs as [|f fs]; [done|].
      unfold Bundled.add_files. cbn [Bundled.add_files_loop].
      by rewrite Hlen.
Qed.

Lemma bundled_cap_of_twenty_witness :
  length (Bundled.input_files Host.bundled_twenty) = 20%nat
  /\ Bundled.input_files (Bundled.add_files [Host.one_more] Host.bundled_twenty)
     = Bundled.input_files Host.bundled_twenty.
Proof.
  assert (H : length (Bundled.input_files Host.bundled_twenty) = 20%nat)
    by (vm_compute; reflexivity).
  split; [exact H|].
  exact (proj1 (proj2 (bundled_cap_of_twenty Host.posix) Host.bundled_twenty
                  [Host.one_more] H)).
Defined.

(** The sequential variant takes a twenty-first file. *)
Lemma windows_takes_a_twenty_first_file :
  let st := Host.twenty_listed in
  let st' := Windows.add_files [Host.one_more] st in
  length (Windows.deref st (Windows.files st)) = 20%nat
  /\ length (Windows.deref st' (Windows.files st')) = 21%nat.
Proof. vm_compute. done. Qed.

(** C9: no path is twice in the working set of a state the application
    reaches, in either variant, and adding paths that are all in the working
    set already, with the button or by dropping them, leaves it as it is. *)
Theorem no_path_twice (rt : Runtime) (script : nat -> External) :
  (forall st, Bundled.reachable rt st -> NoDup (Bundled.input_files st))
  /\ (forall s, Windows.reachable rt script s ->
        NoDup (Windows.deref (Windows.app s) (Windows.files (Windows.app s))))
  /\ (forall st fs, Forall (fun f => f ∈ Bundled.input_files st) fs ->
        Bundled.input_files (Bundled.add_files fs st) = Bundled.input_files st
        /\ Bundled.input_files (Bundled.dropEvent fs st) = Bundled.input_files st)
  /\ (forall st fs,
        Forall (fun f => f ∈ Windows.deref st (Windows.files st)) fs ->
        Windows.deref (Windows.add_files fs st) (Windows.files (Windows.add_files fs st))
        = Windows.deref st (Windows.files st)
        /\ Windows.deref (Windows.dropEvent fs st) (Windows.files (Windows.dropEvent fs st))
           = Windows.deref st (Windows.files st)).
Proof.
  split; [apply bundled_reachable_NoDup|].
  split; [intros s Hs; by apply (reachable_invariant rt script)|].
  split.
  - intros st fs Hall. rewrite Forall_forall in Hall. split.
    + apply (bundled_add_files_inv (fun l => l = Bundled.input_files st)); [|done].
      intros l x -> Hx Hnot _. destruct Hnot. by apply Hall.
    + apply (bundled_dropEvent_inv (fun l => l = Bundled.input_files st)); [|done].
      intros l x -> Hx Hnot _. destruct Hnot. by apply Hall.
  - intros st fs Hall. rewrite Forall_forall in Hall. split.
    + apply (add_files_inv (fun l => l = Windows.deref st (Windows.files st))); [|done].
      intros l x -> Hx Hnot. destruct Hnot. by apply Hall.
    + apply (dropEvent_inv (fun l => l = Windows.deref st (Windows.files st))); [|done].
      intros l x -> Hx Hnot. destruct Hnot. by apply Hall.
Qed.

Lemma no_path_twice_witness :
  NoDup (Bundled.input_files
           (Bundled.handle Host.posix Bundled.init (Bundled.Add [Host.clip; Host.clip])))
  /\ Windows.deref (Windows.add_files [Host.numbered 3] Host.twenty_listed)
       (Windows.files (Windows.add_files [Host.numbered 3] Host.twenty_listed))
     = Windows.deref Host.twenty_listed (Windows.files Host.twenty_listed).
Proof.
  pose proof (no_path_twice Host.posix (fun _ => Host.quiet 0)) as (Hb & _ & _ & Hw).
  split.
  - exact (Hb _ (Bundled.reach_step _ _ (Bundled.Add [Host.clip; Host.clip])
                   (Bundled.reach_init _))).
  - refine (proj1 (Hw Host.twenty_listed [Host.numbered 3] _)).
    constructor; [|constructor].
    apply contains_spec. vm_compute. reflexivity.
Defined.

End WorkingSetClaims.

(** ** The files of a batch *)

Section Snapshot.
Import PyStr.

Lemma bundled_add_files_loop_started (fs : list string) (st : Bundled.App) :
  Bundled.started (Bundled.add_files_loop fs st) = Bundled.started st.
Proof.
  revert st. induction fs as [|f fs IH]; intros st; cbn [Bundled.add_files_loop]; [done|].
  destruct (20 <=? _)%nat; [done|].
  destruct (contains _ f); by rewrite IH.
Qed.

Lemma bundled_dropEvent_started (urls : list string) (st : Bundled.App) :
  Bundled.started (Bundled.dropEvent urls st) = Bundled.started st.
Proof.
  revert st. induction urls as [|f urls IH]; intros st; cbn [Bundled.dropEvent]; [done|].
  destruct (_ && _); [|by rewrite IH].
  destruct (_ <? 20)%nat; by rewrite IH.
Qed.

Lemma bundled_remove_selected_started (sel : list string) (st : Bundled.App) :
  Bundled.started (Bundled.remove_selected sel st) = Bundled.started st.
Proof.
  revert st. induction sel as [|txt sel IH]; intros st; simpl; [done|].
  by rewrite IH.
Qed.

Lemma bundled_handle_started (rt : Runtime) (st : Bundled.App) (i : Bundled.input) :
  i <> Bundled.Start -> Bundled.started (Bundled.handle rt st i) = Bundled.started st.
Proof.
  intros Hi. destruct i as [fs|sel|urls|folder|v| |r|r err]; simpl; try done.
  - destruct fs; [done|]. apply bundled_add_files_loop_started.
  - apply bundled_remove_selected_started.
  - apply bundled_dropEvent_started.
  - by destruct folder.
  - unfold Bundled._on_worker_finished. simpl.
    by destruct (filter _ (Bundled.workers st)).
Qed.

Lemma bundled_start_loop_started (rt : Runtime) (snapshot : list string) (st : Bundled.App) :
  map Bundled.input_path (Bundled.started (Bundled.start_loop rt snapshot st))
  = map Bundled.input_path (Bundled.started st) ++ snapshot.
Proof.
  revert st. induction snapshot as [|f fs IH]; intros st; simpl.
  - by rewrite app_nil_r.
  - rewrite IH. simpl. rewrite map_app. simpl. by rewrite <- app_assoc.
Qed.

(** C10: the files a batch converts are the files of the list when the batch
    is started, in the order of the list.  In the bundled variant the workers
    started are those of the list, whatever is done to the list afterwards.
    In the sequential variant the files converted so far followed by the
    files that wait in the queue are those of the list at the start, after
    any number of signals delivered and of files dropped, added or removed. *)
Theorem batch_is_a_snapshot (rt : Runtime) (script : nat -> External) :
  (forall st inputs,
     Bundled.input_files st <> [] -> Bundled.output_folder st <> EmptyString ->
     Forall (fun i => i <> Bundled.Start) inputs ->
     map Bundled.input_path
       (Bundled.started (foldl (Bundled.handle rt) (Bundled.start_conversion rt st) inputs))
     = map Bundled.input_path (Bundled.started st) ++ Bundled.input_files st)
  /\ (forall s inputs,
        Shape.well_formed (Windows.app s) ->
        Windows.buttons_enabled (Windows.app s) = true ->
        Windows.deref (Windows.app s) (Windows.files (Windows.app s)) <> [] ->
        Windows.output_dir (Windows.app s) <> EmptyString ->
        Forall (fun i => i <> Windows.Start) inputs ->
        let s' := foldl (Windows.handle rt script)
                    (Windows.handle rt script s Windows.Start) inputs in
        Shape.converted (Windows.app s')
        ++ Windows.deref (Windows.app s') (Windows.queue (Windows.app s'))
        = Shape.converted (Windows.app s)
          ++ Windows.deref (Windows.app s) (Windows.files (Windows.app s))).
Proof.
  split.
  - intros st inputs Hfiles Hout Hin.
    assert (Hstart : map Bundled.input_path (Bundled.started (Bundled.start_conversion rt st))
                     = map Bundled.input_path (Bundled.started st) ++ Bundled.input_files st).
    { unfold Bundled.start_conversion.
      destruct (Bundled.input_files st) as [|f fs] eqn:Hf; [done|].
      destruct (Bundled.output_folder st); [done|].
      cbn [Bundled.set_status Bundled.started]. apply bundled_start_loop_started. }
    revert Hstart. generalize (Bundled.start_conversion rt st) as st1.
    induction Hin as [|i inputs Hi _ IH]; intros st1 Hstart; simpl; [done|].
    apply IH. by rewrite bundled_handle_started.
  - intros s inputs Hwf Hen Hfiles Hout Hin. cbv zeta.
    assert (Hstart :
      Shape.well_formed (Windows.app (Windows.handle rt script s Windows.Start))
      /\ Shape.converted (Windows.app (Windows.handle rt script s Windows.Start))
         ++ Windows.deref (Windows.app (Windows.handle rt script s Windows.Start))
              (Windows.queue (Windows.app (Windows.handle rt script s Windows.Start)))
         = Shape.converted (Windows.app s)
           ++ Windows.deref (Windows.app s) (Windows.files (Windows.app s))).
    { cbn [Windows.handle]. rewrite Hen. cbn [Windows.absorb Windows.app]. split.
      - by apply start_queue_effect.
      - by apply start_queue_snapshot. }
    revert Hstart. generalize (Windows.handle rt script s Windows.Start) as s1.
    induction Hin as [|i inputs Hi _ IH]; intros s1 [Hwf1 HJ]; simpl; [done|].
    apply IH.
    destruct (handle_keeps_batch rt script s1 i Hwf1 Hi) as [H1 H2].
    split; [done|]. by rewrite H2.
Qed.

Lemma batch_is_a_snapshot_witness :
  map Bundled.input_path
    (Bundled.started
       (foldl (Bundled.handle Host.posix)
          (Bundled.start_conversion Host.posix Host.bundled_ready)
          [Bundled.Drop [Host.one_more]; Bundled.Remove [Host.clip]]))
  = map Bundled.input_path (Bundled.started Host.bundled_ready)
    ++ Bundled.input_files Host.bundled_ready
  /\ (let s' := foldl (Windows.handle Host.posix Host.second_fails)
                  (Windows.handle Host.posix Host.second_fails Host.windows_ready
                     Windows.Start)
                  [Windows.Drop [Host.one_more]; Windows.Deliver; Windows.Deliver;
                   Windows.Remove [Host.clip]; Windows.Deliver] in
      Shape.converted (Windows.app s')
      ++ Windows.deref (Windows.app s') (Windows.queue (Windows.app s'))
      = Shape.converted (Windows.app Host.windows_ready)
        ++ Windows.deref (Windows.app Host.windows_ready)
             (Windows.files (Windows.app Host.windows_ready))).
Proof.
  pose proof (batch_is_a_snapshot Host.posix Host.second_fails) as [Hb Hw].
  split.
  - refine (Hb Host.bundled_ready _ _ _ _).
    + vm_compute. discriminate.
    + vm_compute. discriminate.
    + repeat constructor; discriminate.
  - refine (Hw Host.windows_ready _ _ _ _ _ _).
    + vm_compute. repeat split; (discriminate || lia).
    + reflexivity.
    + vm_compute. discriminate.
    + vm_compute. discriminate.
    + repeat constructor; discriminate.
Defined.

End Snapshot.

(** ** The preview *)

Section Preview.
Import PyStr Windows.

(** C4, as the code has it: every request of a preview runs the encoder
    once, on the file whose name the path and the saturation printed with
    three decimals determine; the request answers with that file when the
    encoder returned and the file then has more than 500 bytes, and with
    the empty path otherwise. *)
Theorem preview_runs_the_encoder (rt : Runtime) (encoder : Encoder)
  (video_path : string) (saturation : Q) (fs : gmap string N) :
  let r := Previewer_run rt encoder video_path saturation fs in
  let out := outjpg rt video_path saturation in
  let cmd := preview_cmd rt video_path saturation in
  invoked r = [cmd]
  /\ last cmd = Some out
  /\ files_after r = (encoder cmd fs).2
  /\ ((encoder cmd fs).1 = Returned -> Spec.valid_preview (files_after r) out ->
      ready r = out)
  /\ ((encoder cmd fs).1 = Raised -> ready r = EmptyString)
  /\ (~ Spec.valid_preview (files_after r) out -> ready r = EmptyString)
  /\ (forall saturation', float_3f rt saturation' = float_3f rt saturation ->
        outjpg rt video_path saturation' = out).
Proof.
  cbv zeta. unfold Previewer_run.
  destruct (encoder _ fs) as [[] fs'] eqn:Henc; cbn [invoked files_after ready fst snd].
  - split; [done|]. split; [done|]. split; [done|]. split; [|split; [done|split]].
    + intros _ (size & Hsize & Hbig). rewrite Hsize.
      apply N.ltb_lt in Hbig. by rewrite Hbig.
    + intros Hnot. destruct (fs' !! _) as [size|] eqn:Hsize; [|done].
      destruct (N.ltb_spec 500 size) as [Hbig|_]; [|done].
      destruct Hnot. by exists size.
    + intros saturation' H. unfold outjpg. by rewrite H.
  - split; [done|]. split; [done|]. split; [done|].
    split; [done|]. split; [done|]. split; [done|].
    intros saturation' H. unfold outjpg. by rewrite H.
Qed.

Lemma preview_runs_the_encoder_witness :
  ready (Previewer_run Host.posix Host.idle_encoder Host.clip 0.5 Host.cached)
  = outjpg Host.posix Host.clip 0.5.
Proof.
  apply (proj1 (proj2 (proj2 (proj2
           (preview_runs_the_encoder Host.posix Host.idle_encoder Host.clip 0.5
              Host.cached))))).
  - reflexivity.
  - exists 9000%N. split; reflexivity.
Defined.

(** A preview that is in the cache and valid is generated again. *)
Lemma cached_preview_is_generated_again :
  let out := outjpg Host.posix Host.clip 0.5 in
  Spec.valid_preview Host.cached out
  /\ invoked (Previewer_run Host.posix Host.idle_encoder Host.clip 0.5 Host.cached)
     = [preview_cmd Host.posix Host.clip 0.5]
  /\ invoked (Previewer_run Host.posix Host.idle_encoder Host.clip 0.5 Host.cached) <> [].
Proof.
  cbv zeta. split; [|split; [reflexivity | discriminate]].
  exists 9000%N. split; reflexivity.
Qed.

End Preview.

(** ** Binary64 *)

Section Float.
Import PyNum.

(** *** Powers of two *)

Lemma pow2_pos (e : Z) : (0 < pow2 e)%Q.
Proof. apply Qpower_0_lt. reflexivity. Qed.

Lemma pow2_add (a b : Z) : (pow2 (a + b) == pow2 a * pow2 b)%Q.
Proof. apply Qpower_plus. discriminate. Qed.

Lemma pow2_le (a b : Z) : (a <= b)%Z -> (pow2 a <= pow2 b)%Q.
Proof. intros H. apply Qpower_le_compat_l; [done | discriminate]. Qed.

Lemma pow2_lt (a b : Z) : (a < b)%Z -> (pow2 a < pow2 b)%Q.
Proof. intros H. apply Qpower_lt_compat_l; [done | reflexivity]. Qed.

Lemma pow2_le_inv (a b : Z) : (pow2 a <= pow2 b)%Q -> (a <= b)%Z.
Proof. intros H. apply (Qpower_le_compat_l_inv 2); [done | reflexivity]. Qed.

Lemma pow2_lt_inv (a b : Z) : (pow2 a < pow2 b)%Q -> (a < b)%Z.
Proof. intros H. apply (Qpower_lt_compat_l_inv 2); [done | reflexivity]. Qed.

Lemma pow2_Z (k : Z) : (0 <= k)%Z -> (pow2 k == inject_Z (2 ^ k))%Q.
Proof. intros H. unfold pow2. by rewrite Zpower_Qpower. Qed.

Lemma pow2_0 : (pow2 0 == 1)%Q.
Proof. reflexivity. Qed.

Lemma pow2_split (a b : Z) : (pow2 a == pow2 (a - b) * pow2 b)%Q.
Proof. rewrite <- pow2_add. by replace (a - b + b)%Z with a by lia. Qed.

Lemma ilog2_spec (q : Q) :
  (0 < q)%Q -> (pow2 (ilog2 q) <= q)%Q /\ (q < pow2 (ilog2 q + 1))%Q.
Proof.
  destruct q as [n d]. intros Hq.
  assert (Hn : (0 < n)%Z).
  { unfold Qlt in Hq. simpl in Hq. lia. }
  pose proof (Z.log2_spec n Hn) as [Hn1 Hn2].
  pose proof (Z.log2_spec (Zpos d) ltac:(lia)) as [Hd1 Hd2].
  pose proof (Z.log2_nonneg n) as Ha. pose proof (Z.log2_nonneg (Zpos d)) as Hb.
  unfold ilog2. cbn [Qnum Qden].
  set (a := Z.log2 n) in *. set (b := Z.log2 (Zpos d)) in *.
  assert (Hq' : (n # d == inject_Z n / inject_Z (Zpos d))%Q) by apply Qmake_Qdiv.
  assert (Hdpos : (0 < inject_Z (Zpos d))%Q) by (rewrite <- (Zlt_Qlt 0); lia).
  assert (Hna : (pow2 a <= inject_Z n)%Q) by (rewrite pow2_Z by lia; by rewrite <- Zle_Qle).
  assert (Hna' : (inject_Z n < pow2 (a + 1))%Q).
  { rewrite pow2_Z by lia. rewrite <- Zlt_Qlt. by rewrite <- Z.add_1_r in Hn2. }
  assert (Hdb : (pow2 b <= inject_Z (Zpos d))%Q) by (rewrite pow2_Z by lia; by rewrite <- Zle_Qle).
  assert (Hdb' : (inject_Z (Zpos d) < pow2 (b + 1))%Q).
  { rewrite pow2_Z by lia. rewrite <- Zlt_Qlt. by rewrite <- Z.add_1_r in Hd2. }
  assert (Hup : (n # d < pow2 (a - b + 1))%Q).
  { rewrite Hq'. apply Qlt_shift_div_r; [done|].
    pose proof (pow2_split (a + 1) b) as Hs. replace (a + 1 - b)%Z with (a - b + 1)%Z in Hs by lia.
    pose proof (pow2_pos (a - b + 1)) as Hp.
    apply Qlt_le_trans with (pow2 (a + 1)); [done|]. rewrite Hs.
    apply Qmult_le_l; done. }
  assert (Hlow : (pow2 (a - b - 1) <= n # d)%Q).
  { rewrite Hq'. apply Qle_shift_div_l; [done|].
    pose proof (pow2_split a (b + 1)) as Hs. replace (a - (b + 1))%Z with (a - b - 1)%Z in Hs by lia.
    pose proof (pow2_pos (a - b - 1)) as Hp.
    apply Qle_trans with (pow2 a); [|done]. rewrite Hs.
    apply Qmult_le_l; [done|]. by apply Qlt_le_weak. }
  destruct (Qle_bool (pow2 (a - b)) (n # d)) eqn:Hk.
  - apply Qle_bool_iff in Hk. done.
  - split; [done|]. replace (a - b - 1 + 1)%Z with (a - b)%Z by lia.
    apply Qnot_le_lt. intros H. apply Qle_bool_iff in H. congruence.
Qed.

Lemma ilog2_unique (q : Q) (k : Z) :
  (pow2 k <= q)%Q -> (q < pow2 (k + 1))%Q -> ilog2 q = k.
Proof.
  intros H1 H2.
  assert (Hq : (0 < q)%Q) by (eapply Qlt_le_trans; [apply (pow2_pos k) | done]).
  destruct (ilog2_spec q Hq) as [H3 H4].
  assert (ilog2 q < k + 1)%Z by (apply pow2_lt_inv; eapply Qle_lt_trans; done).
  assert (k < ilog2 q + 1)%Z by (apply pow2_lt_inv; eapply Qle_lt_trans; done).
  lia.
Qed.

Lemma ilog2_mono (a b : Q) : (0 < a)%Q -> (a <= b)%Q -> (ilog2 a <= ilog2 b)%Z.
Proof.
  intros Ha Hab.
  assert (Hb : (0 < b)%Q) by (eapply Qlt_le_trans; done).
  destruct (ilog2_spec a Ha) as [H1 _]. destruct (ilog2_spec b Hb) as [_ H2].
  assert (ilog2 a < ilog2 b + 1)%Z; [|lia].
  apply pow2_lt_inv. eapply Qle_lt_trans; [done|]. eapply Qle_lt_trans; done.
Qed.

(** *** The nearest integer *)

Lemma rhe_cases (x : Q) :
  let f := Qfloor x in
  (round_half_even x = f /\ (x - inject_Z f <= 1 # 2)%Q)
  \/ (round_half_even x = (f + 1)%Z /\ (1 # 2 <= x - inject_Z f)%Q).
Proof.
  cbv zeta. unfold round_half_even.
  destruct (Qcompare_spec (x - inject_Z (Qfloor x)) (1 # 2)) as [H|H|H].
  - destruct (Z.even (Qfloor x)); [left | right]; split; try done; rewrite H; apply Qle_refl.
  - left. split; [done | by apply Qlt_le_weak].
  - right. split; [done | by apply Qlt_le_weak].
Qed.

Lemma rhe_near (x : Q) :
  (inject_Z (round_half_even x) - (1 # 2) <= x)%Q
  /\ (x <= inject_Z (round_half_even x) + (1 # 2))%Q.
Proof.
  pose proof (Qfloor_le x) as H1. pose proof (Qlt_floor x) as H2.
  rewrite inject_Z_plus in H2. change (inject_Z 1) with 1%Q in H2.
  destruct (rhe_cases x) as [[-> H]|[-> H]]; rewrite ?inject_Z_plus;
    change (inject_Z 1) with 1%Q; split; lra.
Qed.

Lemma rhe_mono (x y : Q) : (x <= y)%Q -> (round_half_even x <= round_half_even y)%Z.
Proof.
  intros Hxy. pose proof (Qfloor_resp_le x y Hxy) as Hf.
  destruct (Z.eq_dec (Qfloor x) (Qfloor y)) as [Heq|Hne].
  - unfold round_half_even. rewrite <- Heq.
    destruct (Qcompare_spec (x - inject_Z (Qfloor x)) (1 # 2)) as [H|H|H];
      destruct (Qcompare_spec (y - inject_Z (Qfloor x)) (1 # 2)) as [H'|H'|H'];
      try lia; try (exfalso; lra); destruct (Z.even (Qfloor x)); lia.
  - destruct (rhe_cases x) as [[-> _]|[-> _]]; destruct (rhe_cases y) as [[-> _]|[-> _]]; lia.
Qed.

Lemma rhe_int (k : Z) : round_half_even (inject_Z k) = k.
Proof.
  unfold round_half_even. rewrite Qfloor_Z.
  destruct (Qcompare_spec (inject_Z k - inject_Z k) (1 # 2)) as [H|H|H];
    [exfalso; lra | done | exfalso; lra].
Qed.

Lemma rhe_comp (x y : Q) : (x == y)%Q -> round_half_even x = round_half_even y.
Proof.
  intros H. apply Z.le_antisymm; apply rhe_mono; rewrite H; apply Qle_refl.
Qed.

Lemma rhe_ge (x : Q) (k : Z) : (inject_Z k <= x)%Q -> (k <= round_half_even x)%Z.
Proof. intros H. rewrite <- (rhe_int k). by apply rhe_mono. Qed.

Lemma rhe_le (x : Q) (k : Z) : (x <= inject_Z k)%Q -> (round_half_even x <= k)%Z.
Proof. intros H. rewrite <- (rhe_int k). by apply rhe_mono. Qed.

(** *** The nearest binary64 number *)

Lemma last_place_min (a : Q) : (-1074 <= last_place a)%Z.
Proof. unfold last_place. lia. Qed.

Lemma last_place_mono (a b : Q) :
  (0 < a)%Q -> (a <= b)%Q -> (last_place a <= last_place b)%Z.
Proof.
  intros Ha Hab. pose proof (ilog2_mono a b Ha Hab). unfold last_place. lia.
Qed.

Lemma Qdiv_pow2_le (a b : Q) (e : Z) : (a <= b)%Q -> (a / pow2 e <= b / pow2 e)%Q.
Proof.
  intros H. apply Qmult_le_compat_r; [done|].
  apply Qlt_le_weak, Qinv_lt_0_compat, pow2_pos.
Qed.

Lemma Qdiv_pow2 (a : Q) (e : Z) : (a / pow2 e == a * pow2 (- e))%Q.
Proof. unfold Qdiv, pow2. by rewrite Qpower_opp. Qed.

Lemma Qdiv_mul_pow2 (a : Q) (e : Z) : (a / pow2 e * pow2 e == a)%Q.
Proof.
  unfold Qdiv. rewrite <- Qmult_assoc, (Qmult_comm (/ pow2 e)), Qmult_inv_r, Qmult_1_r;
    [done|].
  intros H. pose proof (pow2_pos e) as Hp. rewrite H in Hp. by apply Qlt_irrefl in Hp.
Qed.

Lemma scaled_lt (a : Q) : (0 < a)%Q -> (a / pow2 (last_place a) < pow2 53)%Q.
Proof.
  intros Ha. destruct (ilog2_spec a Ha) as [_ H].
  apply Qlt_shift_div_r; [apply pow2_pos|].
  rewrite <- pow2_add. eapply Qlt_le_trans; [done|].
  apply pow2_le. unfold last_place. lia.
Qed.

Lemma scaled_ge (a : Q) :
  (0 < a)%Q -> (-1074 < last_place a)%Z -> (pow2 52 <= a / pow2 (last_place a))%Q.
Proof.
  intros Ha Hl. destruct (ilog2_spec a Ha) as [H _].
  apply Qle_shift_div_l; [apply pow2_pos|].
  rewrite <- pow2_add. eapply Qle_trans; [|done].
  apply pow2_le. unfold last_place in *. lia.
Qed.

Lemma nearest_nonneg (a : Q) : (0 <= a)%Q -> (0 <= nearest a)%Q.
Proof.
  intros Ha. unfold nearest.
  apply Qmult_le_0_compat; [|apply Qlt_le_weak, pow2_pos].
  change 0%Q with (inject_Z 0). rewrite <- Zle_Qle. apply rhe_ge.
  change (inject_Z 0) with 0%Q.
  apply Qle_shift_div_l; [apply pow2_pos|]. by rewrite Qmult_0_l.
Qed.

Lemma nearest_zero (a : Q) : (a == 0)%Q -> (nearest a == 0)%Q.
Proof.
  intros Ha. unfold nearest.
  assert (H : (a / pow2 (last_place a) == inject_Z 0)%Q).
  { unfold Qdiv. transitivity (0 * / pow2 (last_place a))%Q;
      [apply Qmult_comp; [exact Ha | reflexivity] | apply Qmult_0_l]. }
  rewrite (rhe_comp _ _ H), rhe_int. apply Qmult_0_l.
Qed.

Lemma ilog2_comp (a b : Q) : (0 < a)%Q -> (a == b)%Q -> ilog2 a = ilog2 b.
Proof.
  intros Ha Hab. destruct (ilog2_spec a Ha) as [H1 H2].
  symmetry. apply ilog2_unique; by rewrite <- Hab.
Qed.

Lemma nearest_comp (a b : Q) : (0 < a)%Q -> (a == b)%Q -> (nearest a == nearest b)%Q.
Proof.
  intros Ha Hab. unfold nearest, last_place. rewrite (ilog2_comp a b Ha Hab).
  set (e := Z.max _ _).
  assert (H : (a / pow2 e == b / pow2 e)%Q).
  { unfold Qdiv. apply Qmult_comp; [exact Hab | reflexivity]. }
  by rewrite (rhe_comp _ _ H).
Qed.

Lemma nearest_pos_mono (a b : Q) :
  (0 < a)%Q -> (a <= b)%Q -> (nearest a <= nearest b)%Q.
Proof.
  intros Ha Hab.
  assert (Hb : (0 < b)%Q) by (eapply Qlt_le_trans; done).
  pose proof (last_place_mono a b Ha Hab) as He.
  destruct (Z.eq_dec (last_place a) (last_place b)) as [Heq|Hne].
  - unfold nearest. rewrite Heq.
    apply Qmult_le_compat_r; [|apply Qlt_le_weak, pow2_pos].
    rewrite <- Zle_Qle. apply rhe_mono. by apply Qdiv_pow2_le.
  - apply Qle_trans with (pow2 (last_place a + 53)).
    + unfold nearest. rewrite (Z.add_comm _ 53), pow2_add.
      apply Qmult_le_compat_r; [|apply Qlt_le_weak, pow2_pos].
      rewrite (pow2_Z 53) by lia. rewrite <- Zle_Qle. apply rhe_le.
      rewrite <- (pow2_Z 53) by lia. apply Qlt_le_weak. by apply scaled_lt.
    + apply Qle_trans with (pow2 (last_place b + 52)); [apply pow2_le; lia|].
      unfold nearest. rewrite (Z.add_comm _ 52), pow2_add.
      apply Qmult_le_compat_r; [|apply Qlt_le_weak, pow2_pos].
      rewrite (pow2_Z 52) by lia. rewrite <- Zle_Qle. apply rhe_ge.
      rewrite <- (pow2_Z 52) by lia. apply scaled_ge; [done|].
      pose proof (last_place_min a). lia.
Qed.

Lemma nearest_mono (a b : Q) :
  (0 <= a)%Q -> (a <= b)%Q -> (nearest a <= nearest b)%Q.
Proof.
  intros Ha Hab. destruct (Qlt_le_dec 0 a) as [Hpos|Hle].
  - by apply nearest_pos_mono.
  - assert (H0 : (a == 0)%Q) by (by apply Qle_antisym).
    rewrite (nearest_zero a H0). apply nearest_nonneg. by rewrite <- H0.
Qed.

(** A number that has no bit below its last place is its own nearest
    number. *)
Lemma nearest_exact (a : Q) (k : Z) :
  (a / pow2 (last_place a) == inject_Z k)%Q -> (nearest a == a)%Q.
Proof.
  intros H. unfold nearest. rewrite (rhe_comp _ _ H), rhe_int, <- H.
  apply Qdiv_mul_pow2.
Qed.

Lemma nearest_pow2 (k : Z) : (-1074 <= k)%Z -> (nearest (pow2 k) == pow2 k)%Q.
Proof.
  intros Hk.
  assert (Hl : ilog2 (pow2 k) = k).
  { apply ilog2_unique; [apply Qle_refl | apply pow2_lt; lia]. }
  apply (nearest_exact _ (2 ^ (k - last_place (pow2 k)))).
  unfold last_place. rewrite Hl. set (e := Z.max _ _).
  rewrite <- pow2_Z by lia. rewrite (pow2_split k e).
  unfold Qdiv. rewrite <- Qmult_assoc, Qmult_inv_r, Qmult_1_r; [done|].
  intros H. pose proof (pow2_pos e) as Hp. rewrite H in Hp. by apply Qlt_irrefl in Hp.
Qed.

Lemma nearest_int (n : Z) :
  (0 <= n < 2 ^ 53)%Z -> (nearest (inject_Z n) == inject_Z n)%Q.
Proof.
  intros [Hn Hlt]. destruct (Z.eq_dec n 0%Z) as [->|Hne]; [by apply nearest_zero|].
  assert (Hpos : (0 < inject_Z n)%Q) by (rewrite <- (Zlt_Qlt 0); lia).
  destruct (ilog2_spec _ Hpos) as [H1 _].
  assert (Hl : (ilog2 (inject_Z n) < 53)%Z).
  { apply pow2_lt_inv. eapply Qle_lt_trans; [done|].
    rewrite (pow2_Z 53) by lia. by rewrite <- Zlt_Qlt. }
  assert (He : (-1074 <= last_place (inject_Z n) <= 0)%Z) by (unfold last_place; lia).
  apply (nearest_exact _ (n * 2 ^ (- last_place (inject_Z n)))).
  rewrite Qdiv_pow2, inject_Z_mult. by rewrite pow2_Z by lia.
Qed.

(** *** Rounding *)

Lemma round64_cases (q : Q) :
  (0 <= q)%Q ->
  (round64 q = PInf /\ (pow2 1024 <= nearest q)%Q)
  \/ (exists r, round64 q = Fin r /\ (r == nearest q)%Q /\ (nearest q < pow2 1024)%Q).
Proof.
  intros Hq. unfold round64. destruct (Qcompare_spec q 0) as [H|H|H].
  - right. exists 0%Q. split; [done|]. rewrite (nearest_zero q H).
    split; [reflexivity | apply pow2_pos].
  - exfalso. lra.
  - unfold round_pos. destruct (Qle_bool (pow2 1024) (nearest q)) eqn:E.
    + left. split; [done | by apply Qle_bool_iff].
    + right. exists (Qred (nearest q)). split; [done|]. split; [apply Qred_correct|].
      apply Qnot_le_lt. intros Hle. apply Qle_bool_iff in Hle. congruence.
Qed.

Lemma round64_nonneg (q : Q) : (0 <= q)%Q -> Spec.nonneg (round64 q).
Proof.
  intros Hq. destruct (round64_cases q Hq) as [[-> _]|(r & -> & Hr & _)]; [done|].
  unfold Spec.nonneg, Spec.fle. rewrite Hr. by apply nearest_nonneg.
Qed.

Lemma round64_mono (a b : Q) :
  (0 <= a)%Q -> (a <= b)%Q -> Spec.fle (round64 a) (round64 b).
Proof.
  intros Ha Hab. assert (Hb : (0 <= b)%Q) by lra.
  pose proof (nearest_mono a b Ha Hab) as Hn.
  destruct (round64_cases a Ha) as [[-> H1]|(r & -> & Hr & H1)];
    destruct (round64_cases b Hb) as [[-> H2]|(r' & -> & Hr' & H2)]; simpl; try done.
  - lra.
  - by rewrite Hr, Hr'.
Qed.

(** What is at most a power of two stays at most that power. *)
Lemma round64_bounded (a : Q) (k : Z) :
  (0 <= a)%Q -> (a <= pow2 k)%Q -> (-1074 <= k <= 1023)%Z ->
  exists r, round64 a = Fin r /\ (0 <= r)%Q /\ (r <= pow2 k)%Q.
Proof.
  intros Ha Hk Hrange.
  pose proof (nearest_mono a (pow2 k) Ha Hk) as Hn.
  rewrite nearest_pow2 in Hn by lia.
  pose proof (pow2_lt k 1024 ltac:(lia)) as Hlt.
  pose proof (nearest_nonneg a Ha) as H0.
  destruct (round64_cases a Ha) as [[_ H1]|(r & -> & Hr & _)]; [exfalso; lra|].
  exists r. split; [done|]. split; lra.
Qed.

(** A whole number below 2^53 is a binary64 number. *)
Lemma round64_int (n : Z) :
  (0 <= n < 2 ^ 53)%Z -> exists r, round64 (inject_Z n) = Fin r /\ (r == inject_Z n)%Q.
Proof.
  intros Hn. pose proof (nearest_int n Hn) as He.
  assert (H0 : (0 <= inject_Z n)%Q) by (rewrite <- (Zle_Qle 0); lia).
  assert (Hlt : (inject_Z n < pow2 1024)%Q).
  { apply Qlt_trans with (pow2 53); [|by apply pow2_lt].
    rewrite (pow2_Z 53) by lia. rewrite <- Zlt_Qlt. lia. }
  destruct (round64_cases _ H0) as [[_ H1]|(r & -> & Hr & _)]; [exfalso; lra|].
  exists r. split; [done | lra].
Qed.

End Float.

(** ** Digits, numbers and timestamps *)

Section Parsing.
Import PyStr PyNum Digits.

Lemma decimal_range (c : ascii) :
  is_decimal c = true <-> (48 <= ord c <= 57)%N.
Proof.
  unfold is_decimal. rewrite andb_true_iff, !N.leb_le. tauto.
Qed.

Lemma decimal_not_space (c : ascii) : is_decimal c = true -> isspace_char c = false.
Proof.
  intros H%decimal_range. unfold isspace_char.
  repeat (apply orb_false_iff; split); try apply andb_false_iff;
    rewrite ?N.leb_gt, ?N.eqb_neq; lia.
Qed.

Lemma decimal_not_dot (c : ascii) : is_decimal c = true -> is_dot c = false.
Proof. intros H%decimal_range. unfold is_dot. rewrite N.eqb_neq. lia. Qed.

Lemma decimal_not_exp (c : ascii) : is_decimal c = true -> is_exp c = false.
Proof.
  intros H%decimal_range. unfold is_exp.
  apply orb_false_iff; rewrite !N.eqb_neq. lia.
Qed.

Lemma decimal_not_sign (c : ascii) (s : string) :
  is_decimal c = true -> split_sign (String c s) = (false, String c s).
Proof.
  intros H%decimal_range. unfold split_sign.
  destruct (N.eqb_spec (ord c) 45); [lia|]. destruct (N.eqb_spec (ord c) 43); [lia|].
  done.
Qed.

Lemma decimal_lower (c : ascii) : is_decimal c = true -> lower_char c = c.
Proof.
  intros H%decimal_range. unfold lower_char.
  destruct (N.leb_spec 65 (ord c)); [lia|]. simpl.
  destruct (N.leb_spec 192 (ord c)); [lia|]. done.
Qed.

Lemma digit_value_nonneg (c : ascii) : is_decimal c = true -> (0 <= digit_value c)%Z.
Proof. intros H%decimal_range. unfold digit_value. lia. Qed.

Lemma decimals_plain (s : string) : forallb_str is_decimal s = true -> plain s.
Proof.
  unfold plain. induction s as [|c s IH]; simpl; [done|].
  intros [Hc Hs]%andb_true_iff. rewrite Hc. simpl. by apply IH.
Qed.

Lemma plain_app (a b : string) : plain a -> plain b -> plain (a +:+ b).
Proof.
  unfold plain. induction a as [|c a IH]; simpl; [done|].
  intros [Hc Ha]%andb_true_iff Hb. rewrite Hc. simpl. by apply IH.
Qed.

Lemma plain_char_not_space (c : ascii) :
  is_decimal c || is_dot c = true -> isspace_char c = false.
Proof.
  intros [H|H]%orb_true_iff; [by apply decimal_not_space|].
  unfold is_dot in H. apply N.eqb_eq in H. unfold isspace_char. rewrite H. done.
Qed.

Lemma plain_char_not_exp (c : ascii) :
  is_decimal c || is_dot c = true -> is_exp c = false.
Proof.
  intros [H|H]%orb_true_iff; [by apply decimal_not_exp|].
  unfold is_dot in H. apply N.eqb_eq in H. unfold is_exp. rewrite H. done.
Qed.

Lemma plain_rstrip (s : string) : plain s -> rstrip s = s.
Proof.
  unfold plain. induction s as [|c s IH]; simpl; [done|].
  intros [Hc Hs]%andb_true_iff. rewrite (IH Hs).
  destruct s; [|done]. by rewrite (plain_char_not_space c Hc).
Qed.

Lemma plain_strip (s : string) : plain s -> strip s = s.
Proof.
  intros H. unfold strip.
  assert (Hl : lstrip s = s).
  { destruct s as [|c s]; [done|]. simpl.
    unfold plain in H. simpl in H. apply andb_true_iff in H as [Hc _].
    by rewrite (plain_char_not_space c Hc). }
  rewrite Hl. by apply plain_rstrip.
Qed.

Lemma plain_no_exp (s : string) : plain s -> split_at is_exp s = (s, None).
Proof.
  unfold plain. induction s as [|c s IH]; simpl; [done|].
  intros [Hc Hs]%andb_true_iff. rewrite (plain_char_not_exp c Hc), (IH Hs). done.
Qed.

Lemma decimals_then_dot (a b : string) :
  forallb_str is_decimal a = true ->
  split_at is_dot (a +:+ String "." b) = (a, Some b).
Proof.
  induction a as [|c a IH]; simpl; [done|].
  intros [Hc Ha]%andb_true_iff. rewrite (decimal_not_dot c Hc), (IH Ha). done.
Qed.

Lemma digitpart_from_decimals (s : string) (acc : Z) (n : nat) (prev : bool) :
  forallb_str is_decimal s = true -> (prev = true \/ s <> EmptyString) ->
  digitpart_from acc n prev s
  = Some (digits_value_from acc s, (n + String.length s)%nat).
Proof.
  revert acc n prev. induction s as [|c s IH]; intros acc n prev Hs Hne; simpl.
  - destruct Hne as [->|Hne]; [|done]. by rewrite Nat.add_0_r.
  - simpl in Hs. apply andb_true_iff in Hs as [Hc Hs]. rewrite Hc.
    rewrite IH; [|done|by left]. f_equal. f_equal. lia.
Qed.

Lemma digitpart_decimals (s : string) :
  forallb_str is_decimal s = true -> s <> EmptyString ->
  digitpart s = Some (digits_value s, String.length s).
Proof.
  intros Hs Hne. unfold digitpart. rewrite digitpart_from_decimals; auto.
Qed.

Lemma digits_value_from_nonneg (s : string) (acc : Z) :
  forallb_str is_decimal s = true -> (0 <= acc)%Z -> (0 <= digits_value_from acc s)%Z.
Proof.
  revert acc. induction s as [|c s IH]; intros acc Hs Hacc; simpl; [done|].
  simpl in Hs. apply andb_true_iff in Hs as [Hc Hs]. apply IH; [done|].
  pose proof (digit_value_nonneg c Hc). lia.
Qed.

Lemma digits_value_nonneg (s : string) :
  forallb_str is_decimal s = true -> (0 <= digits_value s)%Z.
Proof. intros H. by apply digits_value_from_nonneg. Qed.

(** [int] of a text of decimal digits. *)
Lemma py_int_decimals (s : string) :
  forallb_str is_decimal s = true -> s <> EmptyString ->
  py_int s = if (Z.of_nat (String.length s) <=? int_max_str_digits)%Z
             then Ok (digits_value s)
             else Raise (ValueError_digits (String.length s)).
Proof.
  intros Hs Hne. unfold py_int. rewrite (plain_strip s (decimals_plain s Hs)).
  destruct s as [|c s]; [done|].
  pose proof Hs as Hs'. simpl in Hs'. apply andb_true_iff in Hs' as [Hc _].
  rewrite (decimal_not_sign c s Hc). by rewrite digitpart_decimals.
Qed.

(** [float] of a text [digits.digits]. *)
Lemma py_float_seconds (a b : string) :
  forallb_str is_decimal a = true -> a <> EmptyString ->
  forallb_str is_decimal b = true -> b <> EmptyString ->
  py_float (a +:+ String "." b) = Ok (round64 (Spec.seconds_value (a +:+ String "." b)))
  /\ (0 <= Spec.seconds_value (a +:+ String "." b))%Q.
Proof.
  intros Ha Hane Hb Hbne.
  assert (Hplain : plain (a +:+ String "." b)).
  { apply plain_app; [by apply decimals_plain|].
    unfold plain. simpl. by apply decimals_plain. }
  unfold py_float, Spec.seconds_value. rewrite (plain_strip _ Hplain).
  rewrite (decimals_then_dot a b Ha).
  destruct a as [|c a]; [done|]. simpl in Ha. apply andb_true_iff in Ha as [Hc Ha].
  change (String c a +:+ String "." b) with (String c (a +:+ String "." b)) in *.
  rewrite (decimal_not_sign c _ Hc).
  cbn [lower]. rewrite (decimal_lower c Hc).
  assert (Hi : String.eqb (String c (lower (a +:+ String "." b))) "inf" = false).
  { simpl. destruct (Ascii.eqb_spec c "i"); [by subst|done]. }
  assert (Hy : String.eqb (String c (lower (a +:+ String "." b))) "infinity" = false).
  { simpl. destruct (Ascii.eqb_spec c "i"); [by subst|done]. }
  assert (Hn : String.eqb (String c (lower (a +:+ String "." b))) "nan" = false).
  { simpl. destruct (Ascii.eqb_spec c "n"); [by subst|done]. }
  rewrite Hi, Hy, Hn. cbn [orb].
  unfold floatnumber. rewrite (plain_no_exp _ Hplain).
  unfold mantissa.
  change (String c (a +:+ String "." b)) with (String c a +:+ String "." b).
  rewrite decimals_then_dot; [|by simpl; rewrite Hc].
  destruct b as [|d b]; [done|].
  rewrite !digitpart_decimals; try done; [|by simpl; rewrite Hc].
  unfold pow10.
  assert (Hneg : (0 <=? - Z.of_nat (String.length (String d b)))%Z = false).
  { apply Z.leb_gt. simpl. lia. }
  rewrite Hneg, Z.opp_involutive. split; [reflexivity|].
  assert (H1 : (0 <= digits_value (String c a))%Z).
  { apply digits_value_nonneg. by simpl; rewrite Hc. }
  assert (H2 : (0 <= digits_value (String d b))%Z) by by apply digits_value_nonneg.
  assert (H3 : (0 < 10 ^ Z.of_nat (String.length (String d b)))%Z) by (apply Z.pow_pos_nonneg; lia).
  apply Qle_trans with (inject_Z (digits_value (String c a)) + 0)%Q.
  - rewrite Qplus_0_r. change 0%Q with (inject_Z 0). by rewrite <- Zle_Qle.
  - apply Qplus_le_r. apply Qle_shift_div_l.
    + change 0%Q with (inject_Z 0). by rewrite <- Zlt_Qlt.
    + rewrite Qmult_0_l. change 0%Q with (inject_Z 0). by rewrite <- Zle_Qle.
Qed.

(** *** The pattern *)

Lemma span_decimal_decimals (s d r : string) :
  Re.span_decimal s = (d, r) -> forallb_str is_decimal d = true.
Proof.
  revert d r. induction s as [|c s IH]; intros d r; simpl.
  - by intros [= <- <-].
  - destruct (is_decimal c) eqn:Hc; [|by intros [= <- <-]].
    destruct (Re.span_decimal s) as [d' r'] eqn:Hs. intros [= <- <-].
    simpl. rewrite Hc. by eapply IH.
Qed.

Lemma digits1_decimals (s d r : string) :
  Re.digits1 s = Some (d, r) -> decimals d.
Proof.
  unfold Re.digits1. destruct (Re.span_decimal s) as [d' r'] eqn:Hs.
  destruct d' as [|c d']; [done|]. intros [= <- <-].
  split; [by eapply span_decimal_decimals | done].
Qed.

Lemma match_here_timestamp (s : string) (m : Re.time_match) :
  Re.match_here s = Some m -> timestamp m.
Proof.
  unfold Re.match_here. intros H.
  destruct (Re.word "time=" s) as [s1|]; [|done]. cbn [mbind option_bind] in H.
  destruct (Re.digits1 s1) as [[g1 s2]|] eqn:H1; [|done]. cbn [mbind option_bind] in H.
  destruct (Re.lit ":" s2) as [s3|]; [|done]. cbn [mbind option_bind] in H.
  destruct (Re.digits1 s3) as [[g2 s4]|] eqn:H2; [|done]. cbn [mbind option_bind] in H.
  destruct (Re.lit ":" s4) as [s5|]; [|done]. cbn [mbind option_bind] in H.
  destruct (Re.digits1 s5) as [[si s6]|] eqn:H3; [|done]. cbn [mbind option_bind] in H.
  destruct (Re.lit "." s6) as [s7|]; [|done]. cbn [mbind option_bind] in H.
  destruct (Re.digits1 s7) as [[sf s8]|] eqn:H4; [|done]. cbn [mbind option_bind] in H.
  injection H as <-. unfold timestamp. cbn [Re.group1 Re.group2 Re.group3].
  split; [by eapply digits1_decimals|]. split; [by eapply digits1_decimals|].
  exists si, sf. split; [by eapply digits1_decimals|].
  split; [by eapply digits1_decimals | done].
Qed.

Lemma search_timestamp (s : string) (m : Re.time_match) :
  Re.search s = Some m -> timestamp m.
Proof.
  induction s as [|c s IH]; cbn [Re.search].
  - destruct (Re.match_here "") eqn:H; [|done]. intros [= <-].
    by eapply match_here_timestamp.
  - destruct (Re.match_here (String c s)) eqn:H; [|done].
    intros [= <-]. by eapply match_here_timestamp.
Qed.

End Parsing.

(** ** The percent of a line *)

Section Percent.
Import PyStr PyNum Digits.

Lemma Qtrunc_nonneg (x : Q) : (0 <= x)%Q -> Qtrunc x = Qfloor x.
Proof.
  intros H. unfold Qtrunc. destruct (Qlt_le_dec x 0) as [Hlt|_]; [|done].
  by apply Qlt_not_le in Hlt.
Qed.

Lemma Qfloor_nonneg (x : Q) : (0 <= x)%Q -> (0 <= Qfloor x)%Z.
Proof. intros H. rewrite <- (Qfloor_Z 0). by apply Qfloor_resp_le. Qed.

Lemma clamp_percent_bounds (x : Q) : (0 <= Spec.clamp_percent x <= 100)%Z.
Proof. unfold Spec.clamp_percent. lia. Qed.


Lemma clamp_float_bounds (x : pyfloat) : (0 <= Spec.clamp_float x <= 100)%Z.
Proof. destruct x; simpl; try lia. apply clamp_percent_bounds. Qed.


Lemma percent_bounds (d : Q) (m : Re.time_match) :
  (0 <= Spec.percent d m <= 100)%Z.
Proof. apply clamp_float_bounds. Qed.

Lemma Qadd_nonneg (x y : Q) : (0 <= x)%Q -> (0 <= y)%Q -> (0 <= x + y)%Q.
Proof. intros Hx Hy. lra. Qed.

Lemma gt0_Fin (d : Q) : gt0 (Fin d) = true -> (0 < d)%Q.
Proof. unfold gt0. by destruct (Qlt_le_dec 0 d). Qed.


Lemma Qeq_bool_pos (d : Q) : (0 < d)%Q -> Qeq_bool d 0 = false.
Proof.
  intros Hd. destruct (Qeq_bool d 0) eqn:H; [|done].
  apply Qeq_bool_eq in H. rewrite H in Hd. by apply Qlt_irrefl in Hd.
Qed.

Lemma Qdiv_nonneg (t d : Q) : (0 <= t)%Q -> (0 < d)%Q -> (0 <= t / d)%Q.
Proof.
  intros Ht Hd. apply Qle_shift_div_l; [done|]. by rewrite Qmult_0_l.
Qed.


(** *** The operations on floats that are zero or more *)

Lemma fadd_nonneg (x y : pyfloat) :
  Spec.nonneg x -> Spec.nonneg y -> Spec.nonneg (fadd x y).
Proof.
  destruct x as [a| | |], y as [b| | |]; unfold Spec.nonneg; cbn [Spec.fle fadd Spec.over times100]; try done.
  intros Ha Hb. apply round64_nonneg. lra.
Qed.

Lemma over_nonneg (t : pyfloat) (d : Q) :
  (0 < d)%Q -> Spec.nonneg t -> Spec.nonneg (Spec.over t d).
Proof.
  intros Hd. destruct t as [a| | |]; unfold Spec.nonneg; cbn [Spec.fle fadd Spec.over times100]; try done.
  intros Ha. apply round64_nonneg. by apply Qdiv_nonneg.
Qed.


Lemma times100_nonneg (x : pyfloat) : Spec.nonneg x -> Spec.nonneg (times100 x).
Proof.
  destruct x as [a| | |]; unfold Spec.nonneg; cbn [Spec.fle fadd Spec.over times100]; try done.
  intros Ha. apply round64_nonneg. lra.
Qed.

Lemma times100_mono (x y : pyfloat) :
  Spec.nonneg x -> Spec.fle x y -> Spec.fle (times100 x) (times100 y).
Proof.
  destruct x as [a| | |], y as [b| | |]; unfold Spec.nonneg; cbn [Spec.fle fadd Spec.over times100]; try done.
  - intros Ha Hab. apply round64_mono; lra.
  - intros Ha _. assert (H0 : (0 <= a * 100)%Q) by lra.
    pose proof (round64_nonneg (a * 100) H0) as H.
    by destruct (round64 (a * 100)).
Qed.

Lemma truediv_over (t : pyfloat) (d : Q) :
  (0 < d)%Q -> truediv t (Fin d) = Ok (Spec.over t d).
Proof.
  intros Hd. unfold truediv. rewrite (Qeq_bool_pos d Hd).
  destruct t; simpl; try done; destruct (Qlt_le_dec 0 d) as [_|Hle]; try done;
    by apply Qle_not_lt in Hle.
Qed.

(** [int(min(100, x))] is the clamped floor. *)
Lemma int_min100 (x : pyfloat) :
  Spec.nonneg x -> int_of_float (min100 x) = Ok (Spec.clamp_float x).
Proof.
  destruct x as [q| | |]; simpl; try done. intros Hq.
  pose proof (Qfloor_nonneg q Hq) as Hf. unfold Spec.clamp_percent.
  destruct (Qlt_le_dec q 100) as [Hlt|Hge]; cbn [int_of_float].
  - rewrite (Qtrunc_nonneg q Hq). f_equal.
    assert (Qfloor q < 100)%Z; [|lia].
    rewrite Zlt_Qlt. eapply Qle_lt_trans; [apply Qfloor_le | exact Hlt].
  - f_equal. apply Qfloor_resp_le in Hge. change (Qfloor 100) with 100%Z in Hge.
    change (Qtrunc 100) with 100%Z. lia.
Qed.

(** [max(0, min(100, int(x)))] is the clamped floor, when [x] is finite. *)
Lemma int_clamped (x : pyfloat) :
  Spec.nonneg x ->
  (n ← int_of_float x; Ok (Z.max 0 (Z.min 100 n)))
  = match x with
    | PInf => Raise OverflowError_inf
    | _ => Ok (Spec.clamp_float x)
    end.
Proof.
  destruct x as [q| | |]; simpl; try done. intros Hq.
  by rewrite (Qtrunc_nonneg q Hq).
Qed.

(** *** The groups of a timestamp, as the code reads them *)

Lemma timestamp_read (m : Re.time_match) :
  timestamp m ->
  py_int (Re.group1 m)
  = (if (Z.of_nat (String.length (Re.group1 m)) <=? int_max_str_digits)%Z
     then Ok (digits_value (Re.group1 m))
     else Raise (ValueError_digits (String.length (Re.group1 m))))
  /\ py_int (Re.group2 m)
     = (if (Z.of_nat (String.length (Re.group2 m)) <=? int_max_str_digits)%Z
        then Ok (digits_value (Re.group2 m))
        else Raise (ValueError_digits (String.length (Re.group2 m))))
  /\ py_float (Re.group3 m) = Ok (round64 (Spec.seconds_value (Re.group3 m)))
  /\ (0 <= digits_value (Re.group1 m))%Z
  /\ (0 <= digits_value (Re.group2 m))%Z
  /\ (0 <= Spec.seconds_value (Re.group3 m))%Q.
Proof.
  intros ([H1 H1'] & [H2 H2'] & a & b & [Ha Ha'] & [Hb Hb'] & H3).
  destruct (py_float_seconds a b Ha Ha' Hb Hb') as [Hf Hs]. rewrite H3.
  split; [by apply py_int_decimals|]. split; [by apply py_int_decimals|].
  split; [done|]. split; [by apply digits_value_nonneg|].
  split; [by apply digits_value_nonneg | done].
Qed.

Lemma inject_Z_nonneg (z : Z) : (0 <= z)%Z -> (0 <= inject_Z z)%Q.
Proof. intros Hz. change 0%Q with (inject_Z 0). by rewrite <- Zle_Qle. Qed.


Lemma elapsed64_nonneg (m : Re.time_match) :
  timestamp m -> Spec.nonneg (Spec.elapsed64 m).
Proof.
  intros Hm. destruct (timestamp_read m Hm) as (_ & _ & _ & Hh & Hmm & Hs).
  unfold Spec.elapsed64. apply fadd_nonneg; apply round64_nonneg; [|done].
  apply inject_Z_nonneg. lia.
Qed.

Lemma ratio_nonneg (d : Q) (m : Re.time_match) :
  timestamp m -> (0 < d)%Q ->
  Spec.nonneg (times100 (Spec.over (Spec.elapsed64 m) d)).
Proof.
  intros Hm Hd. apply times100_nonneg, over_nonneg; [done|].
  by apply elapsed64_nonneg.
Qed.

Lemma float_of_int_cases (n : Z) :
  (exists r, float_of_int n = Ok (Fin r) /\ round64 (inject_Z n) = Fin r)
  \/ float_of_int n = Raise OverflowError_int.
Proof.
  unfold float_of_int. destruct (round64 (inject_Z n)) as [r| | |]; eauto.
Qed.

(** The hours and minutes of a timestamp are read, unless they have too
    many digits or make too large a number. *)
Lemma clock_float_cases (m : Re.time_match) :
  timestamp m ->
  (exists r, Spec.clock_float m = Ok (Fin r)
             /\ py_int (Re.group1 m) = Ok (digits_value (Re.group1 m))
             /\ py_int (Re.group2 m) = Ok (digits_value (Re.group2 m))
             /\ float_of_int (digits_value (Re.group1 m) * 3600
                              + digits_value (Re.group2 m) * 60) = Ok (Fin r)
             /\ round64 (inject_Z (digits_value (Re.group1 m) * 3600
                                   + digits_value (Re.group2 m) * 60)) = Fin r)
  \/ (exists e, Spec.clock_float m = Raise e
                /\ (e = OverflowError_int \/ exists k, e = ValueError_digits k)
                /\ ((exists v, py_int (Re.group1 m) = Ok v /\ py_int (Re.group2 m) = Raise e)
                    \/ py_int (Re.group1 m) = Raise e
                    \/ (exists h mm, py_int (Re.group1 m) = Ok h
                                     /\ py_int (Re.group2 m) = Ok mm
                                     /\ float_of_int (h * 3600 + mm * 60) = Raise e))).
Proof.
  intros Hm. destruct (timestamp_read m Hm) as (Hh & Hmm & _).
  unfold Spec.clock_float. rewrite Hh, Hmm.
  destruct (Z.of_nat (String.length (Re.group1 m)) <=? int_max_str_digits)%Z;
    cbn [mbind result_bind]; [|right; eexists; eauto 10].
  destruct (Z.of_nat (String.length (Re.group2 m)) <=? int_max_str_digits)%Z;
    cbn [mbind result_bind]; [|right; eexists; eauto 10].
  destruct (float_of_int_cases (digits_value (Re.group1 m) * 3600
                                + digits_value (Re.group2 m) * 60))
    as [(r & Hf & Hr)| Hf]; rewrite Hf.
  - left. by exists r.
  - right. eexists. split; [done|]. split; [by left|]. right. right. by eauto.
Qed.

(** The percent of a line in the bundled variant: the hours and minutes
    must be read, and then it is the clamped percent in binary64. *)
Lemma bundled_pct_spec (d : Q) (m : Re.time_match) :
  timestamp m -> (0 < d)%Q ->
  Bundled.pct (Fin d) m = (_ ← Spec.clock_float m; Ok (Spec.percent d m)).
Proof.
  intros Hm Hd. destruct (timestamp_read m Hm) as (_ & _ & Hs & _).
  unfold Bundled.pct.
  destruct (clock_float_cases m Hm)
    as [(r & -> & -> & -> & Hf & Hr)|(e & -> & _ & [(v & -> & ->)| [->|(h & mm & -> & -> & Hf)]])];
    cbn [mbind result_bind]; try done;
    rewrite Hs; cbn [mbind result_bind]; unfold add_int; rewrite Hf;
    cbn [mbind result_bind]; [|done].
  assert (Ht : fadd (Fin r) (round64 (Spec.seconds_value (Re.group3 m)))
               = Spec.elapsed64 m) by (unfold Spec.elapsed64; by rewrite Hr).
  rewrite Ht, (truediv_over _ d Hd). cbn [mbind result_bind].
  apply int_min100. by apply ratio_nonneg.
Qed.

(** The percent of a line in the sequential variant: the hours and minutes
    must be read and the ratio must be finite, and then it is the clamped
    percent in binary64. *)
Lemma windows_pct_spec (d : Q) (m : Re.time_match) :
  timestamp m -> (0 < d)%Q ->
  Windows.pct (Fin d) m
  = (_ ← Spec.clock_float m;
     match times100 (Spec.over (Spec.elapsed64 m) d) with
     | PInf => Raise OverflowError_inf
     | _ => Ok (Spec.percent d m)
     end).
Proof.
  intros Hm Hd. destruct (timestamp_read m Hm) as (_ & _ & Hs & _).
  unfold Windows.pct.
  destruct (clock_float_cases m Hm)
    as [(r & -> & -> & -> & Hf & Hr)|(e & -> & _ & [(v & -> & ->)| [->|(h & mm & -> & -> & Hf)]])];
    cbn [mbind result_bind]; try done;
    rewrite Hs; cbn [mbind result_bind]; unfold add_int; rewrite Hf;
    cbn [mbind result_bind]; [|done].
  assert (Ht : fadd (Fin r) (round64 (Spec.seconds_value (Re.group3 m)))
               = Spec.elapsed64 m) by (unfold Spec.elapsed64; by rewrite Hr).
  rewrite Ht, (truediv_over _ d Hd). cbn [mbind result_bind].
  rewrite (int_clamped _ (ratio_nonneg d m Hm Hd)). unfold Spec.percent.
  by destruct (times100 _).
Qed.

(** *** Timestamps as a clock shows them *)

Lemma pow2_53 : (pow2 53 == inject_Z (2 ^ 53))%Q.
Proof. by apply pow2_Z. Qed.

Lemma clocklike_read (m : Re.time_match) :
  timestamp m -> Spec.clocklike m ->
  let n := (digits_value (Re.group1 m) * 3600 + digits_value (Re.group2 m) * 60)%Z in
  exists r s,
    float_of_int n = Ok (Fin r) /\ round64 (inject_Z n) = Fin r
    /\ (r == inject_Z n)%Q
    /\ round64 (Spec.seconds_value (Re.group3 m)) = Fin s
    /\ (0 <= s)%Q /\ (s <= 60)%Q
    /\ Spec.elapsed64 m = round64 (r + s).
Proof.
  intros Hm (_ & _ & Hn & Hsec). cbv zeta.
  destruct (timestamp_read m Hm) as (_ & _ & _ & Hh & Hmm & Hs).
  set (n := (digits_value (Re.group1 m) * 3600 + digits_value (Re.group2 m) * 60)%Z) in *.
  destruct (round64_int n ltac:(lia)) as (r & Hr & Hrn).
  pose proof (round64_mono _ 60 Hs (Qlt_le_weak _ _ Hsec)) as Hmono.
  pose proof (round64_nonneg _ Hs) as Hnn.
  destruct (round64_int 60 ltac:(lia)) as (r60 & Hr60 & H60).
  change (inject_Z 60) with 60%Q in Hr60, H60. rewrite Hr60 in Hmono.
  destruct (round64 (Spec.seconds_value (Re.group3 m))) as [s| | |] eqn:Hsv; try done.
  exists r, s. unfold float_of_int. rewrite Hr.
  split; [done|]. split; [done|]. split; [done|]. split; [done|].
  simpl in Hmono, Hnn. split; [done|]. split; [lra|].
  unfold Spec.elapsed64. fold n. by rewrite Hr, Hsv.
Qed.



(** A timestamp as a clock shows it has a percent in either variant, when
    the duration is not of the least numbers. *)
Lemma clocklike_finite (d : Q) (m : Re.time_match) :
  timestamp m -> Spec.clocklike m -> (pow2 (-20) <= d)%Q ->
  exists y, times100 (Spec.over (Spec.elapsed64 m) d) = Fin y.
Proof.
  intros Hm Hc Hd.
  destruct (clocklike_read m Hm Hc) as (r & s & _ & _ & Hr & _ & Hs0 & Hs60 & ->).
  destruct (timestamp_read m Hm) as (_ & _ & _ & Hh & Hmm & _).
  destruct Hc as (_ & _ & Hn & _).
  set (n := (digits_value (Re.group1 m) * 3600 + digits_value (Re.group2 m) * 60)%Z) in *.
  assert (Hn0 : (0 <= inject_Z n)%Q) by (apply inject_Z_nonneg; lia).
  assert (Hn53 : (inject_Z n <= pow2 53)%Q).
  { rewrite pow2_53, <- Zle_Qle. lia. }
  assert (H6 : (60 <= pow2 53)%Q) by (rewrite pow2_53; by vm_compute).
  assert (H54 : (pow2 54 == pow2 53 + pow2 53)%Q).
  { replace 54%Z with (53 + 1)%Z by lia. rewrite pow2_add.
    change (pow2 1) with 2%Q. lra. }
  destruct (round64_bounded (r + s) 54 ltac:(lra) ltac:(lra) ltac:(lia))
    as (t & -> & Ht0 & Ht).
  assert (Hdpos : (0 < d)%Q) by (pose proof (pow2_pos (-20)); lra).
  assert (Hq : (t / d <= pow2 74)%Q).
  { apply Qle_shift_div_r; [done|].
    replace 74%Z with (54 + 20)%Z by lia. rewrite pow2_add.
    assert (H1 : (pow2 20 * pow2 (-20) == 1)%Q) by (rewrite <- pow2_add; reflexivity).
    pose proof (pow2_pos 54) as Hp54. pose proof (pow2_pos 20) as Hp20.
    assert (H2 : (pow2 54 * pow2 20 * pow2 (-20) <= pow2 54 * pow2 20 * d)%Q).
    { apply Qmult_le_l; [|done]. nra. }
    nra. }
  cbn [Spec.over].
  destruct (round64_bounded (t / d) 74 (Qdiv_nonneg t d Ht0 Hdpos) Hq ltac:(lia))
    as (q & -> & Hq0 & Hq74).
  cbn [times100].
  assert (H100 : (q * 100 <= pow2 81)%Q).
  { replace 81%Z with (74 + 7)%Z by lia. rewrite pow2_add.
    change (pow2 7) with 128%Q. pose proof (pow2_pos 74). nra. }
  destruct (round64_bounded (q * 100) 81 ltac:(lra) H100 ltac:(lia)) as (y & -> & _).
  by exists y.
Qed.

Lemma clocklike_clock_float (m : Re.time_match) :
  timestamp m -> Spec.clocklike m -> exists r, Spec.clock_float m = Ok (Fin r).
Proof.
  intros Hm Hc. destruct (clocklike_read m Hm Hc) as (r & s & H & _).
  destruct Hc as (H1%Z.leb_le & H2%Z.leb_le & _).
  destruct (timestamp_read m Hm) as (Hh & Hmm & _).
  rewrite H1 in Hh. rewrite H2 in Hmm.
  exists r. unfold Spec.clock_float. by rewrite Hh, Hmm.
Qed.

End Percent.

(** ** The loop over the diagnostic lines *)

Section Progress.
Import PyStr PyNum Digits.

Lemma bundled_read_stderr_loop (duration : pyfloat) (lines : list string) (last : Z) :
  gt0 duration = true ->
  Bundled.read_stderr duration last lines = Spec.loop (Bundled.pct duration) last lines.
Proof.
  intros Hd. revert last. induction lines as [|L rest IH]; intros last; [done|].
  cbn [Bundled.read_stderr Spec.loop]. rewrite Hd.
  destruct (Re.search L) as [m|]; [|apply IH].
  destruct (Bundled.pct duration m) as [p|e]; [|done].
  destruct (p =? last)%Z; [apply IH | by rewrite IH].
Qed.

Lemma windows_read_stderr_loop (duration : pyfloat) (lines : list string) (last : Z) :
  gt0 duration = true ->
  Windows.read_stderr duration last lines = Spec.loop (Windows.pct duration) last lines.
Proof.
  intros Hd. revert last. induction lines as [|L rest IH]; intros last; [done|].
  cbn [Windows.read_stderr Spec.loop]. rewrite Hd.
  destruct (Re.search L) as [m|]; [|apply IH].
  destruct (Windows.pct duration m) as [p|e]; [|done].
  destruct (p =? last)%Z; [apply IH | by rewrite IH].
Qed.

(** Without a positive duration nothing is emitted. *)
Lemma bundled_read_stderr_unknown (duration : pyfloat) (lines : list string) (last : Z) :
  gt0 duration = false -> Bundled.read_stderr duration last lines = ([], None).
Proof.
  intros Hd. induction lines as [|L rest IH]; [done|].
  cbn [Bundled.read_stderr]. rewrite Hd. by destruct (Re.search L).
Qed.

Lemma windows_read_stderr_unknown (duration : pyfloat) (lines : list string) (last : Z) :
  gt0 duration = false -> Windows.read_stderr duration last lines = ([], None).
Proof.
  intros Hd. induction lines as [|L rest IH]; [done|].
  cbn [Windows.read_stderr]. rewrite Hd. by destruct (Re.search L).
Qed.

(** *** What the loop emits *)





(** What holds of every percent holds of every value that is emitted. *)
Lemma loop_range (pct : Re.time_match -> result Z) (R : Z -> Prop)
  (lines : list string) :
  (forall m p, timestamp m -> pct m = Ok p -> R p) ->
  forall last, Forall R (Spec.loop pct last lines).1.
Proof.
  intros HR. induction lines as [|L rest IH]; intros last; [constructor|].
  cbn [Spec.loop]. destruct (Re.search L) as [m|] eqn:Hm; [|apply IH].
  destruct (pct m) as [p|e] eqn:Hp; [|constructor].
  destruct (p =? last)%Z; [apply IH|].
  pose proof (IH p) as H. destruct (Spec.loop pct p rest) as [out r].
  constructor; [|done]. eapply HR; [|done]. by eapply search_timestamp.
Qed.



Lemma emit_changes_no_repeat (ps : list Z) (last : Z) :
  Spec.no_repeat_in_a_row (last :: Spec.emit_changes last ps).
Proof.
  revert last. induction ps as [|p ps IH]; intros last; [done|].
  cbn [Spec.emit_changes]. destruct (Z.eqb_spec p last) as [->|Hne]; [apply IH|].
  split; [congruence | apply IH].
Qed.










Lemma bundled_pct_cases (d : Q) (m : Re.time_match) :
  timestamp m -> (0 < d)%Q ->
  Bundled.pct (Fin d) m = Ok (Spec.percent d m)
  \/ exists e, Bundled.pct (Fin d) m = Raise e
               /\ (e = OverflowError_int \/ exists k, e = ValueError_digits k).
Proof.
  intros Hm Hd. rewrite (bundled_pct_spec d m Hm Hd).
  destruct (clock_float_cases m Hm) as [(r & -> & _)|(e & -> & He & _)];
    [by left | right; by eexists].
Qed.




(** What the run of the sequential variant emits, by the end of its loop. *)
Lemma windows_run_signals (rt : Runtime) (w : Windows.FFmpegWorker) (io : External) :
  let r := Windows.read_stderr (Windows.probe_duration io) (-1) (stderr_lines io) in
  Windows.signals (Windows.run rt w io)
  = map Windows.progress r.1
    ++ match r.2 with
       | Some e => [Windows.error (StrOf e)]
       | None =>
           if (returncode io =? 0)%Z
           then [Windows.progress 100; Windows.done (Windows.output_path w)]
           else [Windows.error
                   (Text ("FFmpeg failed (exit code " +:+ str_int (returncode io)
                          +:+ ")"))]
       end.
Proof.
  cbv zeta. unfold Windows.run.
  by destruct (Windows.read_stderr _ _ _) as [emitted [e|]].
Qed.



(** The lines of the specification give 25 and 50. *)
Example progress_of_three_lines :
  Bundled.read_stderr (Fin 20) (-1) Host.three_lines = ([25; 50]%Z, None)
  /\ Windows.read_stderr (Fin 20) (-1) Host.three_lines = ([25; 50]%Z, None).
Proof. split; vm_compute; reflexivity. Qed.


(** The percent is computed in binary64: 1.40 seconds of 20 give 6, where
    the quotient of the rationals gives 7. *)
Example percent_is_rounded :
  let m := {| Re.group1 := "00"; Re.group2 := "00"; Re.group3 := "1.40" |} in
  Re.search "time=00:00:1.40" = Some m
  /\ Bundled.pct (Fin 20) m = Ok 6%Z
  /\ Windows.pct (Fin 20) m = Ok 6%Z
  /\ Spec.clamp_percent (Spec.elapsed m / 20 * 100) = 7%Z.
Proof. cbv zeta. repeat split; vm_compute; reflexivity. Qed.

(** The job of the sequential variant emits 100 after the loop, also when
    the loop emitted 100 last. *)
Example windows_job_repeats_100 :
  let io := {| duration_stdout := "20.000000"; bitrate_stdout := "800000";
               stderr_lines := ["time=00:00:10.00"; "time=00:00:20.00"];
               returncode := 0 |} in
  Windows.signals (Windows.run Host.posix Host.windows_job io)
  = [Windows.progress 50; Windows.progress 100; Windows.progress 100;
     Windows.done "/out/clip_converted.mp4"].
Proof. vm_compute. reflexivity. Qed.

(** Hours that are too many for a float, or of too many digits, end the
    loop with an exception, in either variant; so does, in the sequential
    variant, a duration of the least numbers. *)
Example percent_can_raise :
  let long := {| Re.group1 := String.concat "" (repeat "9" 400);
                 Re.group2 := "00"; Re.group3 := "1.0" |} in
  let longer := {| Re.group1 := "00";
                   Re.group2 := String.concat "" (repeat "0" 4301);
                   Re.group3 := "1.0" |} in
  let short := {| Re.group1 := "00"; Re.group2 := "00"; Re.group3 := "1.0" |} in
  Bundled.pct (Fin 20) long = Raise OverflowError_int
  /\ Windows.pct (Fin 20) long = Raise OverflowError_int
  /\ Bundled.pct (Fin 20) longer = Raise (ValueError_digits 4301)
  /\ Windows.pct (Fin 20) longer = Raise (ValueError_digits 4301)
  /\ py_float "5e-324" = Ok (Fin (pow2 (-1074)))
  /\ Bundled.pct (Fin (pow2 (-1074))) short = Ok 100%Z
  /\ Windows.pct (Fin (pow2 (-1074))) short = Raise OverflowError_inf.
Proof. cbv zeta. repeat split; vm_compute; reflexivity. Qed.

End Progress.

(** ** The end of a job *)

Section JobEnd.
Import PyStr PyNum Digits.

Lemma bundled_run_signals (rt : Runtime) (w : Bundled.FFmpegWorker) (io : External)
  (duration : pyfloat) :
  ffmpeg rt <> EmptyString -> ffprobe rt <> EmptyString ->
  Bundled.probe_duration io = Ok duration ->
  let r := Bundled.read_stderr duration (-1) (stderr_lines io) in
  Bundled.run rt w io
  = {| Bundled.signals :=
         map Bundled.progress_changed r.1
         ++ [match r.2 with
             | Some e => Bundled.error_occurred (StrOf e)
             | None =>
                 if (returncode io =? 0)%Z then Bundled.finished_ok
                 else Bundled.error_occurred
                        (Text ("ffmpeg rc=" +:+ str_int (returncode io)))
             end];
       Bundled.launched := Some (Bundled.cmd rt w (Bundled.probe_bitrate io)) |}.
Proof.
  intros Hm Hp Hd. cbv zeta. unfold Bundled.run. rewrite Hd.
  destruct (ffmpeg rt); [done|]. destruct (ffprobe rt); [done|]. cbn [truthy negb orb].
  by destruct (Bundled.read_stderr _ _ _) as [emitted [e|]].
Qed.

(** With a duration that is infinite the bundled variant gives 0 or 100. *)
Lemma bundled_pct_inf (m : Re.time_match) :
  timestamp m ->
  Bundled.pct PInf m = Ok 0%Z \/ Bundled.pct PInf m = Ok 100%Z
  \/ exists e, Spec.clock_float m = Raise e /\ Bundled.pct PInf m = Raise e.
Proof.
  intros Hm. destruct (timestamp_read m Hm) as (_ & _ & Hs & _).
  unfold Bundled.pct.
  destruct (clock_float_cases m Hm)
    as [(r & Hcf & -> & -> & Hf & Hr)
       |(e & Hcf & _ & [(v & -> & ->)| [->|(h & mm & -> & -> & Hf)]])];
    cbn [mbind result_bind]; try (right; right; by eauto);
    rewrite Hs; cbn [mbind result_bind]; unfold add_int; rewrite Hf;
    cbn [mbind result_bind]; [|right; right; by eauto].
  destruct (fadd (Fin r) _); cbn [truediv mbind result_bind]; auto.
Qed.

Lemma bundled_pct_range (duration : pyfloat) (m : Re.time_match) (p : Z) :
  timestamp m -> gt0 duration = true -> Bundled.pct duration m = Ok p ->
  (0 <= p <= 100)%Z.
Proof.
  intros Hm Hd Hp. destruct duration as [d| | |]; try done.
  - destruct (bundled_pct_cases d m Hm (gt0_Fin d Hd)) as [H|(e & H & _)];
      rewrite H in Hp; [|done].
    injection Hp as <-. apply percent_bounds.
  - destruct (bundled_pct_inf m Hm) as [H|[H|(e & _ & H)]]; rewrite H in Hp; [| |done];
      injection Hp as <-; lia.
Qed.

Lemma windows_pct_range (duration : pyfloat) (m : Re.time_match) (p : Z) :
  Windows.pct duration m = Ok p -> (0 <= p <= 100)%Z.
Proof.
  unfold Windows.pct.
  destruct (py_int (Re.group1 m)); [|done]. destruct (py_int (Re.group2 m)); [|done].
  destruct (py_float (Re.group3 m)); [|done]. cbn [mbind result_bind].
  destruct (add_int _ _); [|done]. cbn [mbind result_bind].
  destruct (truediv _ _); [|done]. cbn [mbind result_bind].
  destruct (int_of_float _); [|done]. cbn [mbind result_bind].
  intros [= <-]. lia.
Qed.

(** What the loop emits lies between 0 and 100, whatever the duration. *)
Lemma bundled_read_stderr_range (duration : pyfloat) (lines : list string) :
  Forall (fun p => 0 <= p <= 100)%Z (Bundled.read_stderr duration (-1) lines).1.
Proof.
  destruct (gt0 duration) eqn:Hd.
  - rewrite bundled_read_stderr_loop by done. apply loop_range.
    intros m p Hm Hp. by eapply bundled_pct_range.
  - rewrite bundled_read_stderr_unknown by done. constructor.
Qed.

Lemma windows_read_stderr_range (duration : pyfloat) (lines : list string) :
  Forall (fun p => 0 <= p <= 100)%Z (Windows.read_stderr duration (-1) lines).1.
Proof.
  destruct (gt0 duration) eqn:Hd.
  - rewrite windows_read_stderr_loop by done. apply loop_range.
    intros m p Hm Hp. by eapply windows_pct_range.
  - rewrite windows_read_stderr_unknown by done. constructor.
Qed.






(** A job can fail although its encoder exits with status 0: a timestamp
    whose hours are too many for a float ends the loop with an exception, and
    so does one whose hours have more digits than [int()] reads. *)
Example job_fails_although_the_encoder_succeeds :
  let io := {| duration_stdout := "20.000000"; bitrate_stdout := "800000";
               stderr_lines := ["time=00:00:05.00";
                                "time=" +:+ String.concat "" (repeat "9" 400)
                                +:+ ":00:01.00"];
               returncode := 0 |} in
  Windows.signals (Windows.run Host.posix Host.windows_job io)
  = [Windows.progress 25; Windows.error (StrOf OverflowError_int)]
  /\ Bundled.signals (Bundled.run Host.posix Host.bundled_job io)
     = [Bundled.progress_changed 25; Bundled.error_occurred (StrOf OverflowError_int)]
  /\ Windows.signals
       (Windows.run Host.posix Host.windows_job
          {| duration_stdout := "20.000000"; bitrate_stdout := "800000";
             stderr_lines := ["time=" +:+ String.concat "" (repeat "0" 4301)
                              +:+ ":00:01.00"];
             returncode := 0 |})
     = [Windows.error (StrOf (ValueError_digits 4301))].
Proof. cbv zeta. repeat split; vm_compute; reflexivity. Qed.

(** C2, at an input where the code fails: the prober prints [N/A] for the
    duration.  The bundled variant emits a failure and does not run the
    encoder; the sequential variant takes the duration to be zero and runs
    the encoder. *)
Theorem duration_that_is_not_a_number :
  let io := {| duration_stdout := "N/A
"; bitrate_stdout := "800000
"; stderr_lines := []; returncode := 0 |} in
  Bundled.probe_duration io = Raise (ValueError_float "N/A")
  /\ Bundled.run Host.posix Host.bundled_job io
     = {| Bundled.signals := [Bundled.error_occurred (StrOf (ValueError_float "N/A"))];
          Bundled.launched := None |}
  /\ Windows.probe_duration io = Fin 0
  /\ Windows.signals (Windows.run Host.posix Host.windows_job io)
     = [Windows.progress 100; Windows.done "/out/clip_converted.mp4"].
Proof. cbv zeta. repeat split; reflexivity. Qed.

End JobEnd.

(** ** The sequential scheduler *)

Section Sequential.
Import PyStr PyNum Windows Shape.

Variable rt : Runtime.
Variable script : nat -> External.

(** The signals of a job are percents and then one signal that ends it. *)
Lemma windows_run_shape (w : FFmpegWorker) (io : External) :
  exists ps t, signals (run rt w io) = map progress ps ++ [t]
               /\ Spec.terminal t = true.
Proof.
  rewrite windows_run_signals. cbv zeta.
  destruct (read_stderr _ _ _) as [emitted [e|]]; cbn [fst snd].
  { eexists emitted, _. by split. }
  destruct (returncode io =? 0)%Z.
  - exists (emitted ++ [100%Z]), (done (output_path w)). split; [|done].
    rewrite map_app. simpl. by rewrite <- app_assoc.
  - eexists emitted, _. by split.
Qed.

Lemma drain_idle (fuel : nat) (s : Sys) : inbox s = [] -> drain rt script fuel s = s.
Proof. intros H. destruct fuel; simpl; [done | by rewrite H]. Qed.

Lemma drain_step (fuel : nat) (s : Sys) :
  inbox s <> [] ->
  drain rt script (S fuel) s = drain rt script fuel (handle rt script s Deliver).
Proof. intros H. simpl. by destruct (inbox s). Qed.

Lemma new_worker_ext (st st' : App) (f : string) :
  output_dir st' = output_dir st -> s_slider st' = s_slider st ->
  new_worker rt st' f = new_worker rt st f.
Proof. intros H1 H2. unfold new_worker. by rewrite H1, H2. Qed.

Lemma batch_log_ext (st st' : App) (i : nat) (fs : list string) :
  output_dir st' = output_dir st -> s_slider st' = s_slider st ->
  Spec.batch_log rt script st' i fs = Spec.batch_log rt script st i fs.
Proof.
  intros H1 H2. revert i. induction fs as [|f fs IH]; intros i; simpl; [done|].
  by rewrite IH, (new_worker_ext st st' f H1 H2).
Qed.

Lemma emitted_by_nil (i : nat) : emitted_by rt script i [] = [].
Proof. done. Qed.

Lemma same_run_deref (st st' : App) (l : loc) :
  same_run st st' -> deref st' l = deref st l.
Proof. intros (Hh & _). unfold deref. by rewrite Hh. Qed.

Lemma same_run_well_formed (st st' : App) :
  same_run st st' -> well_formed st -> well_formed st'.
Proof.
  intros (_ & Hn & Hf & Hq & _) H. unfold well_formed. by rewrite Hn, Hf, Hq.
Qed.

(** A percent is delivered: the progress bar moves, nothing else. *)
Lemma deliver_progress (s : Sys) (w : FFmpegWorker) (p : Z)
  (rest : list (FFmpegWorker * signal)) :
  absorbed s = length (workers (app s)) ->
  inbox s = (w, progress p) :: rest ->
  let s' := handle rt script s Deliver in
  inbox s' = rest /\ absorbed s' = absorbed s /\ same_run (app s) (app s')
  /\ log (app s') = log (app s) ++ [ev_signal w (progress p)].
Proof.
  intros Ha Hi. cbn [handle]. rewrite Hi. cbn [absorb app inbox absorbed slot].
  cbn [set_view note workers log]. rewrite Ha, drop_all, emitted_by_nil, app_nil_r.
  repeat split; done.
Qed.

(** The percents at the head of the inbox are delivered one by one. *)
Lemma drain_progress (ps : list Z) (s : Sys) (w : FFmpegWorker)
  (rest : list (FFmpegWorker * signal)) :
  absorbed s = length (workers (app s)) ->
  inbox s = map (pair w) (map progress ps) ++ rest ->
  exists s1,
    (forall fuel, drain rt script (length ps + fuel) s = drain rt script fuel s1)
    /\ inbox s1 = rest /\ absorbed s1 = absorbed s /\ same_run (app s) (app s1)
    /\ log (app s1) = log (app s) ++ Spec.delivered w (map progress ps).
Proof.
  revert s. induction ps as [|p ps IH]; intros s Ha Hi.
  - exists s. simpl. rewrite app_nil_r. by repeat split.
  - simpl in Hi.
    destruct (deliver_progress s w p _ Ha Hi) as (Hi1 & Ha1 & Hsame & Hlog).
    set (s0 := handle rt script s Deliver) in *.
    pose proof Hsame as (_ & _ & _ & _ & _ & _ & Hw & _).
    destruct (IH s0) as (s1 & Hfuel & Hi2 & Ha2 & Hsame2 & Hlog2);
      [congruence | done |].
    exists s1. split; [|split; [done|split; [congruence|split]]].
    + intros fuel. cbn [length Nat.add]. rewrite drain_step; [|by rewrite Hi].
      apply Hfuel.
    + destruct Hsame as (?&?&?&?&?&?&?&?), Hsame2 as (?&?&?&?&?&?&?&?).
      repeat split; congruence.
    + rewrite Hlog2, Hlog. simpl. by rewrite <- app_assoc.
Qed.

(** The signal that ends the last job is delivered: the batch is
    complete. *)
Lemma deliver_last (s : Sys) (w : FFmpegWorker) (t : signal) :
  absorbed s = length (workers (app s)) ->
  inbox s = [(w, t)] -> Spec.terminal t = true ->
  deref (app s) (queue (app s)) = [] ->
  let s' := handle rt script s Deliver in
  inbox s' = [] /\ buttons_enabled (app s') = true
  /\ workers (app s') = workers (app s)
  /\ log (app s') = log (app s) ++ Spec.delivered w [t] ++ [Spec.batch_complete].
Proof.
  intros Ha Hi Ht Hq. cbn [handle]. rewrite Hi. cbn [absorb app inbox absorbed].
  destruct t as [p|out|msg]; [done| |]; cbn [slot].
  - unfold _worker_done, _run_next. cbn [set_view note queue]. 
    change (deref _ (queue (app s))) with (deref (app s) (queue (app s))).
    rewrite Hq. cbn [set_view note workers log buttons_enabled].
    rewrite Ha, drop_all. simpl. rewrite <- app_assoc. done.
  - unfold _worker_error, _run_next. cbn [set_view note queue].
    change (deref _ (queue (app s))) with (deref (app s) (queue (app s))).
    rewrite Hq. cbn [set_view note workers log buttons_enabled].
    rewrite Ha, drop_all. simpl. rewrite <- !app_assoc. done.
Qed.

(** The signal that ends a job is delivered while files wait: the next file
    leaves the queue and its worker is started. *)
Lemma deliver_next (s : Sys) (w : FFmpegWorker) (t : signal) (f : string)
  (fs : list string) :
  well_formed (app s) ->
  absorbed s = length (workers (app s)) ->
  inbox s = [(w, t)] -> Spec.terminal t = true ->
  deref (app s) (queue (app s)) = f :: fs ->
  let s' := handle rt script s Deliver in
  let w' := new_worker rt (app s) f in
  inbox s' = map (pair w') (signals (run rt w' (script (length (workers (app s))))))
  /\ absorbed s' = length (workers (app s'))
  /\ workers (app s') = workers (app s) ++ [w']
  /\ well_formed (app s')
  /\ deref (app s') (queue (app s')) = fs
  /\ output_dir (app s') = output_dir (app s)
  /\ s_slider (app s') = s_slider (app s)
  /\ log (app s') = log (app s) ++ Spec.delivered w [t] ++ [ev_started w'].
Proof.
  intros Hwf Ha Hi Ht Hq. cbn [handle]. rewrite Hi. cbn [absorb app inbox absorbed].
  destruct t as [p|out|msg]; [done| |]; cbn [slot].
  - unfold _worker_done, _run_next. cbn [set_view note queue].
    change (deref _ (queue (app s))) with (deref (app s) (queue (app s))).
    rewrite Hq. cbn [set_view spawn store note workers log queue heap next files
                     output_dir s_slider].
    rewrite Ha, drop_app_length. cbn [emitted_by]. rewrite app_nil_r.
    split; [done|]. split; [done|]. split; [done|]. split; [exact Hwf|].
    split; [unfold deref; simpl; by rewrite lookup_insert_eq|].
    split; [done|]. split; [done|]. simpl. by rewrite <- app_assoc.
  - unfold _worker_error, _run_next. cbn [set_view note queue].
    change (deref _ (queue (app s))) with (deref (app s) (queue (app s))).
    rewrite Hq. cbn [set_view spawn store note workers log queue heap next files
                     output_dir s_slider].
    rewrite Ha, drop_app_length. cbn [emitted_by]. rewrite app_nil_r.
    split; [done|]. split; [done|]. split; [done|]. split; [exact Hwf|].
    split; [unfold deref; simpl; by rewrite lookup_insert_eq|].
    split; [done|]. split; [done|]. simpl. by rewrite <- !app_assoc.
Qed.

Lemma delivered_app (w : FFmpegWorker) (a b : list signal) :
  Spec.delivered w (a ++ b) = Spec.delivered w a ++ Spec.delivered w b.
Proof. unfold Spec.delivered. apply flat_map_app. Qed.

Lemma converted_snoc (st st' : App) (w' : FFmpegWorker) :
  workers st' = workers st ++ [w'] ->
  converted st' = converted st ++ [input_path w'].
Proof. intros H. unfold converted. by rewrite H, map_app. Qed.

(** With the signals of the running job in the inbox and [fs] in the queue,
    delivering signals ends with an empty inbox, a worker started for each
    file of [fs] in turn, and the batch complete. *)
Lemma drain_batch (fs : list string) :
  forall (s : Sys) (w : FFmpegWorker) (ps : list Z) (t : signal),
    well_formed (app s) ->
    deref (app s) (queue (app s)) = fs ->
    absorbed s = length (workers (app s)) ->
    inbox s = map (pair w) (map progress ps ++ [t]) ->
    Spec.terminal t = true ->
    exists n, forall fuel, (n <= fuel)%nat ->
      let s' := drain rt script fuel s in
      inbox s' = [] /\ buttons_enabled (app s') = true
      /\ converted (app s') = converted (app s) ++ fs
      /\ log (app s')
         = log (app s) ++ Spec.delivered w (map progress ps ++ [t])
           ++ Spec.batch_log rt script (app s) (length (workers (app s))) fs
           ++ [Spec.batch_complete].
Proof.
  induction fs as [|f fs IH]; intros s w ps t Hwf Hq Ha Hi Ht.
  - rewrite map_app in Hi.
    destruct (drain_progress ps s w _ Ha Hi) as (s1 & Hfuel & Hi1 & Ha1 & Hsame & Hlog1).
    pose proof Hsame as (_ & _ & _ & Hqueue & _ & _ & Hw & _).
    assert (Ha1' : absorbed s1 = length (workers (app s1))) by congruence.
    assert (Hq1 : deref (app s1) (queue (app s1)) = []).
    { rewrite Hqueue, (same_run_deref _ _ _ Hsame). done. }
    destruct (deliver_last s1 w t Ha1' Hi1 Ht Hq1) as (Hi2 & Hen & Hw2 & Hlog2).
    exists (length ps + 1)%nat. intros fuel Hfuel'.
    replace fuel with (length ps + S (fuel - length ps - 1))%nat by lia.
    cbv zeta. rewrite Hfuel, drain_step; [|by rewrite Hi1].
    rewrite drain_idle; [|done].
    split; [done|]. split; [done|]. split.
    + unfold converted. by rewrite Hw2, Hw, app_nil_r.
    + rewrite Hlog2, Hlog1, delivered_app. cbn [Spec.batch_log app].
      by rewrite <- !app_assoc.
  - rewrite map_app in Hi.
    destruct (drain_progress ps s w _ Ha Hi) as (s1 & Hfuel & Hi1 & Ha1 & Hsame & Hlog1).
    pose proof Hsame as (_ & _ & _ & Hqueue & Hout & Hsl & Hw & _).
    assert (Ha1' : absorbed s1 = length (workers (app s1))) by congruence.
    assert (Hq1 : deref (app s1) (queue (app s1)) = f :: fs).
    { rewrite Hqueue, (same_run_deref _ _ _ Hsame). done. }
    pose proof (same_run_well_formed _ _ Hsame Hwf) as Hwf1.
    destruct (deliver_next s1 w t f fs Hwf1 Ha1' Hi1 Ht Hq1)
      as (Hi2 & Ha2 & Hw2 & Hwf2 & Hq2 & Hout2 & Hsl2 & Hlog2).
    set (s2 := handle rt script s1 Deliver) in *.
    set (w' := new_worker rt (app s1) f) in *.
    destruct (windows_run_shape w' (script (length (workers (app s1)))))
      as (ps' & t' & Hsig & Ht').
    rewrite Hsig in Hi2.
    destruct (IH s2 w' ps' t' Hwf2 Hq2 Ha2 Hi2 Ht') as (n & Hn).
    exists (length ps + S n)%nat. intros fuel Hfuel'.
    replace fuel with (length ps + S (fuel - length ps - 1))%nat by lia.
    cbv zeta. rewrite Hfuel, drain_step; [|by rewrite Hi1]. fold s2.
    destruct (Hn (fuel - length ps - 1)%nat) as (Hi3 & Hen & Hconv & Hlog3); [lia|].
    split; [done|]. split; [done|]. split.
    + rewrite Hconv, (converted_snoc _ _ _ Hw2). unfold converted at 1.
      rewrite Hw. fold (converted (app s)). by rewrite <- app_assoc.
    + rewrite Hlog3, Hlog2, Hlog1, Hw2, length_app. cbn [length].
      rewrite Nat.add_1_r, Hw.
      rewrite (batch_log_ext (app s1) (app s2)) by done.
      rewrite (batch_log_ext (app s) (app s1)) by done.
      cbn [Spec.batch_log]. unfold Spec.job_log.
      assert (Hw' : new_worker rt (app s) f = w')
        by (unfold w'; symmetry; by apply new_worker_ext).
      rewrite Hw'.
      rewrite Hw in Hsig. rewrite Hsig, (delivered_app w).
      rewrite <- !app_assoc. done.
Qed.

(** The start of a batch: the queue takes a copy of the list of files, the
    first file leaves it and its worker is started. *)
Lemma start_effect (s : Sys) (f : string) (fs : list string) :
  well_formed (app s) ->
  buttons_enabled (app s) = true ->
  inbox s = [] -> absorbed s = length (workers (app s)) ->
  deref (app s) (files (app s)) = f :: fs ->
  output_dir (app s) <> EmptyString ->
  let s' := handle rt script s Start in
  let w' := new_worker rt (app s) f in
  inbox s' = map (pair w') (signals (run rt w' (script (length (workers (app s))))))
  /\ absorbed s' = length (workers (app s'))
  /\ workers (app s') = workers (app s) ++ [w']
  /\ well_formed (app s')
  /\ deref (app s') (queue (app s')) = fs
  /\ output_dir (app s') = output_dir (app s)
  /\ s_slider (app s') = s_slider (app s)
  /\ log (app s') = log (app s) ++ [ev_started w'].
Proof.
  intros Hwf Hen Hi Ha Hfiles Hout. pose proof Hwf as (Hne & Hf & Hq).
  cbn [handle]. rewrite Hen. cbn [absorb app inbox absorbed].
  unfold start_queue. rewrite Hfiles.
  destruct (output_dir (app s)) as [|c o] eqn:Ho; [done|].
  set (st1 := set_view 0 "Processing…" false 0 (queue_copy_of_files (app s))).
  assert (Hq1 : deref st1 (queue st1) = f :: fs).
  { unfold deref at 1. unfold st1. simpl. rewrite lookup_insert_eq. exact Hfiles. }
  unfold _run_next. rewrite Hq1.
  cbn [set_view spawn store note workers log queue heap next files
       output_dir s_slider].
  unfold st1 at 1 2 3 4 5 6 7.
  cbn [set_view spawn store note workers log queue heap next files
       output_dir s_slider queue_copy_of_files].
  rewrite Hi, Ha, drop_app_length. cbn [emitted_by app]. rewrite app_nil_r.
  assert (Hw : new_worker rt (store (queue st1) fs st1) f = new_worker rt (app s) f).
  { apply new_worker_ext; done. }
  rewrite Hw.
  split; [done|]. split; [done|]. split; [done|].
  split; [unfold well_formed; simpl; lia|].
  split; [unfold deref; simpl; by rewrite lookup_insert_eq|].
  split; [simpl; by rewrite ?Ho|]. done.
Qed.

End Sequential.

(** ** One job at a time *)

Section OneAtATime.
Import PyStr PyNum Windows Shape.

Lemma running_app (n : Z) (l1 l2 : list event) :
  Spec.running n (l1 ++ l2) = Spec.running (Spec.running n l1) l2.
Proof.
  revert n. induction l1 as [|e l1 IH]; intros n; [done|].
  destruct e as [w|w sg|d]; simpl; apply IH.
Qed.

Lemma within_one_app (n : Z) (l1 l2 : list event) :
  within_one n l1 -> within_one (Spec.running n l1) l2 -> within_one n (l1 ++ l2).
Proof.
  revert n. induction l1 as [|e l1 IH]; intros n; [done|].
  intros [Hle H1] H2. split; [done|]. apply IH; [done|].
  destruct e as [w|w sg|d]; exact H2.
Qed.

Lemma within_one_take (l : list event) (n : Z) (k : nat) :
  (n <= 1)%Z -> within_one n l -> (Spec.running n (take k l) <= 1)%Z.
Proof.
  revert n k. induction l as [|e l IH]; intros n k Hn H.
  - by rewrite take_nil.
  - destruct k as [|k]; [done|]. destruct H as [Hle H].
    change (take (S k) (e :: l)) with ([e] ++ take k l). rewrite running_app.
    by apply IH.
Qed.

Lemma delivered_progress_running (w : FFmpegWorker) (ps : list Z) (n : Z) :
  (n <= 1)%Z ->
  Spec.running n (Spec.delivered w (map progress ps)) = n
  /\ within_one n (Spec.delivered w (map progress ps)).
Proof.
  intros Hn. induction ps as [|p ps [IH1 IH2]]; [done|]. simpl. by repeat split.
Qed.

Lemma delivered_terminal_running (w : FFmpegWorker) (t : signal) (n : Z) :
  (n <= 2)%Z -> Spec.terminal t = true ->
  Spec.running n (Spec.delivered w [t]) = (n - 1)%Z
  /\ within_one n (Spec.delivered w [t]).
Proof.
  intros Hn Ht. destruct t as [p|out|msg]; [done| |]; simpl; repeat split; lia.
Qed.

(** One job writes its start, its percents and its end: one job runs from
    the first to the last of these events, and none after them. *)
Lemma job_log_running (w : FFmpegWorker) (ps : list Z) (t : signal) :
  Spec.terminal t = true ->
  Spec.running 0 (Spec.job_log w (map progress ps ++ [t])) = 0%Z
  /\ within_one 0 (Spec.job_log w (map progress ps ++ [t])).
Proof.
  intros Ht. unfold Spec.job_log. rewrite delivered_app.
  destruct (delivered_progress_running w ps 1 ltac:(lia)) as [H1 H2].
  destruct (delivered_terminal_running w t 1 ltac:(lia) Ht) as [H3 H4].
  split.
  - change (Spec.running 0 (ev_started w :: ?l)) with (Spec.running 1 l).
    by rewrite running_app, H1, H3.
  - split; [simpl; lia|]. change (Spec.running 0 [ev_started w]) with 1%Z.
    apply within_one_app; [done | by rewrite H1].
Qed.

Lemma batch_log_running (rt : Runtime) (script : nat -> External) (st : App)
  (i : nat) (fs : list string) :
  Spec.running 0 (Spec.batch_log rt script st i fs) = 0%Z
  /\ within_one 0 (Spec.batch_log rt script st i fs).
Proof.
  revert i. induction fs as [|f fs IH]; intros i; [done|].
  cbn [Spec.batch_log].
  destruct (windows_run_shape rt (new_worker rt st f) (script i)) as (ps & t & -> & Ht).
  destruct (job_log_running (new_worker rt st f) ps t Ht) as [H1 H2].
  destruct (IH (S i)) as [H3 H4].
  split.
  - by rewrite running_app, H1.
  - apply within_one_app; [done | by rewrite H1].
Qed.

Lemma batch_complete_not_in_job (w : FFmpegWorker) (sigs : list signal) :
  Spec.batch_complete ∉ Spec.job_log w sigs.
Proof.
  unfold Spec.job_log. intros [H|H]%elem_of_cons; [done|].
  induction sigs as [|sg sigs IH]; [by apply elem_of_nil in H|].
  simpl in H. apply elem_of_cons in H as [H|H]; [done|].
  apply elem_of_app in H as [H|H]; [|by apply IH].
  destruct sg; try by apply elem_of_nil in H.
  apply elem_of_cons in H as [H|H]; [done | by apply elem_of_nil in H].
Qed.

Lemma batch_complete_not_in_batch (rt : Runtime) (script : nat -> External)
  (st : App) (i : nat) (fs : list string) :
  Spec.batch_complete ∉ Spec.batch_log rt script st i fs.
Proof.
  revert i. induction fs as [|f fs IH]; intros i; [apply not_elem_of_nil|].
  cbn [Spec.batch_log]. intros [H|H]%elem_of_app; [|by eapply IH].
  by eapply batch_complete_not_in_job.
Qed.

(** C8: from a state at rest with files in the list and an output folder,
    the start of a batch and the delivery of the signals that follow end,
    with enough steps, in a state at rest again.  The log has grown by the
    logs of the jobs, one job for each file of the list in the order of the
    list, each from the start of its worker to the signal that ends it, be
    it a success or a failure, the next worker being started in the slot of
    that signal; then comes the message box of completion, which appears
    nowhere else.  At no point of this log do two jobs run. *)
Theorem sequential_batch (rt : Runtime) (script : nat -> External) (s : Sys) :
  well_formed (app s) -> buttons_enabled (app s) = true ->
  inbox s = [] -> absorbed s = length (workers (app s)) ->
  deref (app s) (files (app s)) <> [] -> output_dir (app s) <> EmptyString ->
  let snapshot := deref (app s) (files (app s)) in
  let batch := Spec.batch_log rt script (app s) (length (workers (app s))) snapshot in
  (exists n, forall fuel, (n <= fuel)%nat ->
     let s' := drain rt script fuel (handle rt script s Start) in
     inbox s' = [] /\ buttons_enabled (app s') = true
     /\ converted (app s') = converted (app s) ++ snapshot
     /\ log (app s') = log (app s) ++ batch ++ [Spec.batch_complete])
  /\ Spec.one_at_a_time (batch ++ [Spec.batch_complete])
  /\ (Spec.batch_complete ∉ batch)
  /\ (forall w io, exists ps t,
        signals (run rt w io) = map progress ps ++ [t] /\ Spec.terminal t = true).
Proof.
  intros Hwf Hen Hi Ha Hfiles Hout snapshot batch.
  split; [|split; [|split]].
  - subst batch snapshot.
    destruct (deref (app s) (files (app s))) as [|f fs] eqn:Hf; [done|].
    destruct (start_effect rt script s f fs Hwf Hen Hi Ha Hf Hout)
      as (Hi1 & Ha1 & Hw1 & Hwf1 & Hq1 & Hout1 & Hsl1 & Hlog1).
    set (s1 := handle rt script s Start) in *.
    set (w' := new_worker rt (app s) f) in *.
    destruct (windows_run_shape rt w' (script (length (workers (app s)))))
      as (ps & t & Hsig & Ht).
    rewrite Hsig in Hi1.
    destruct (drain_batch rt script fs s1 w' ps t Hwf1 Hq1 Ha1 Hi1 Ht) as (n & Hn).
    exists n. intros fuel Hfuel.
    destruct (Hn fuel Hfuel) as (H1 & H2 & H3 & H4). cbv zeta.
    split; [done|]. split; [done|]. split.
    + rewrite H3, (converted_snoc _ _ _ Hw1). by rewrite <- app_assoc.
    + rewrite H4, Hlog1, Hw1, length_app. cbn [length]. rewrite Nat.add_1_r.
      rewrite (batch_log_ext rt script (app s) (app s1)) by done.
      cbn [Spec.batch_log]. fold w'. rewrite Hsig. unfold Spec.job_log.
      rewrite <- !app_assoc. done.
  - intros k.
    destruct (batch_log_running rt script (app s) (length (workers (app s))) snapshot)
      as [H1 H2].
    apply within_one_take; [lia|].
    apply within_one_app; [done|]. fold batch in H1. rewrite H1. simpl. lia.
  - apply batch_complete_not_in_batch.
  - intros w io. apply windows_run_shape.
Qed.

Lemma sequential_batch_witness :
  let s := Host.three_ready in
  let snapshot := deref (app s) (files (app s)) in
  let batch := Spec.batch_log Host.posix Host.second_fails (app s)
                 (length (workers (app s))) snapshot in
  (exists n, forall fuel, (n <= fuel)%nat ->
     let s' := drain Host.posix Host.second_fails fuel
                 (handle Host.posix Host.second_fails s Start) in
     inbox s' = [] /\ buttons_enabled (app s') = true
     /\ converted (app s') = converted (app s) ++ snapshot
     /\ log (app s') = log (app s) ++ batch ++ [Spec.batch_complete])
  /\ Spec.one_at_a_time (batch ++ [Spec.batch_complete])
  /\ (Spec.batch_complete ∉ batch)
  /\ (forall w io, exists ps t,
        signals (run Host.posix w io) = map progress ps ++ [t]
        /\ Spec.terminal t = true).
Proof.
  refine (sequential_batch Host.posix Host.second_fails Host.three_ready _ _ _ _ _ _).
  - vm_compute. repeat split; (discriminate || lia).
  - reflexivity.
  - reflexivity.
  - reflexivity.
  - vm_compute. discriminate.
  - vm_compute. discriminate.
Defined.

(** Three files, the encoder fails on the second: the three jobs run in
    turn, the third after the failure of the second, and the batch is
    complete once, at the end. *)
Example three_jobs_second_fails :
  map Spec.outline
    (log (app (drain Host.posix Host.second_fails 20
                 (handle Host.posix Host.second_fails Host.three_ready Start))))
  = ["start /videos/1.mp4"; "progress 25"; "progress 100"; "done";
     "start /videos/2.mp4"; "progress 25"; "error"; "critical: Error";
     "start /videos/3.mp4"; "progress 25"; "progress 100"; "done";
     "information: Done"].
Proof. vm_compute. reflexivity. Qed.

End OneAtATime.

(** * More of the code *)

(** ** How a run ends *)

Section RunEnds.
Import PyStr PyNum More.

Lemma tools_found (rt : Runtime) :
  negb (truthy (ffmpeg rt)) || negb (truthy (ffprobe rt)) = false
  <-> ffmpeg rt <> EmptyString /\ ffprobe rt <> EmptyString.
Proof. destruct (ffmpeg rt), (ffprobe rt); simpl; split; try done; by intros [? ?]. Qed.

(** X1: A run of the bundled worker, on a host that may fail to start a
    tool, emits percents between 0 and 100 and then one signal, of success
    or of failure, and no other signal.  The signal is the one of success
    exactly when the tools were found and started, no exception was caught
    (of a duration that is no number, or of the loop over the diagnostic
    lines) and the encoder exited with status 0.  A run that has not
    launched the encoder emits no percent. *)
Theorem bundled_run_ends_once (rt : Runtime) (w : Bundled.FFmpegWorker) (l : launch) :
  exists ps t,
    Bundled.signals (Bundled.run_on rt w l) = map Bundled.progress_changed ps ++ [t]
    /\ Forall (fun p => 0 <= p <= 100)%Z ps
    /\ (t = Bundled.finished_ok \/ exists msg, t = Bundled.error_occurred msg)
    /\ (t = Bundled.finished_ok <->
        exists io, l = Starts io
                   /\ ffmpeg rt <> EmptyString /\ ffprobe rt <> EmptyString
                   /\ bundled_caught io = None /\ returncode io = 0%Z)
    /\ (Bundled.launched (Bundled.run_on rt w l) = None -> ps = []).
Proof.
  unfold Bundled.run_on.
  destruct (negb (truthy (ffmpeg rt)) || negb (truthy (ffprobe rt))) eqn:Htools.
  { exists [], (Bundled.error_occurred (Text "ffmpeg/ffprobe not found")).
    split; [done|]. split; [constructor|]. split; [right; by eexists|].
    split; [|done]. split; [done|]. intros (io & _ & Hm & Hp & _).
    pose proof (proj2 (tools_found rt) (conj Hm Hp)). congruence. }
  apply tools_found in Htools as [Hm Hp].
  destruct l as [io|e|io e].
  - destruct (Bundled.probe_duration io) as [duration|e] eqn:Hd.
    + rewrite (bundled_run_signals rt w io duration Hm Hp Hd). cbv zeta.
      pose proof (bundled_read_stderr_range duration (stderr_lines io)) as Hrange.
      assert (Hc : bundled_caught io
                   = (Bundled.read_stderr duration (-1) (stderr_lines io)).2)
        by (unfold bundled_caught; by rewrite Hd).
      destruct (Bundled.read_stderr duration (-1) (stderr_lines io)) as [emitted raised].
      cbn [fst snd Bundled.signals Bundled.launched] in *.
      eexists emitted, _. split; [reflexivity|]. split; [done|].
      destruct raised as [e|].
      * split; [right; by eexists|]. split; [|done]. split; [done|].
        intros (io' & [= <-] & _ & _ & H & _). congruence.
      * destruct (Z.eqb_spec (returncode io) 0) as [Hrc|Hrc].
        -- split; [by left|]. split; [|done]. split; [|done].
           intros _. by exists io.
        -- split; [right; by eexists|]. split; [|done]. split; [done|].
           intros (io' & [= <-] & _ & _ & _ & H). done.
    + unfold Bundled.run. rewrite Hd.
      rewrite (proj2 (tools_found rt) (conj Hm Hp)).
      exists [], (Bundled.error_occurred (StrOf e)).
      split; [done|]. split; [constructor|]. split; [right; by eexists|].
      split; [|done]. split; [done|].
      intros (io' & [= <-] & _ & _ & H & _). unfold bundled_caught in H.
      by rewrite Hd in H.
  - exists [], (Bundled.error_occurred (StrOf e)).
    split; [done|]. split; [constructor|]. split; [right; by eexists|].
    split; [|done]. split; [done|]. by intros (io' & [=] & _).
  - destruct (Bundled.probe_duration io) as [duration|e'].
    + exists [], (Bundled.error_occurred (StrOf e)).
      split; [done|]. split; [constructor|]. split; [right; by eexists|].
      split; [|done]. split; [done|]. by intros (io' & [=] & _).
    + exists [], (Bundled.error_occurred (StrOf e')).
      split; [done|]. split; [constructor|]. split; [right; by eexists|].
      split; [|done]. split; [done|]. by intros (io' & [=] & _).
Qed.

(** X2: A run of the sequential worker, on a host that may fail to start a
    tool, emits percents between 0 and 100 and then one signal that ends the
    job: the signal of success, with the output path of the worker, exactly
    when the tools started, the loop over the diagnostic lines did not raise
    and the encoder exited with status 0, and a signal of failure otherwise.
    The encoder is launched exactly when the tools start. *)
Theorem windows_run_ends_once (rt : Runtime) (w : Windows.FFmpegWorker) (l : launch) :
  exists ps t,
    Windows.signals (Windows.run_on rt w l) = map Windows.progress ps ++ [t]
    /\ Forall (fun p => 0 <= p <= 100)%Z ps
    /\ (t = Windows.done (Windows.output_path w) \/ exists msg, t = Windows.error msg)
    /\ (t = Windows.done (Windows.output_path w) <->
        exists io, l = Starts io /\ windows_caught io = None /\ returncode io = 0%Z)
    /\ (Windows.launched (Windows.run_on rt w l) <> None <-> exists io, l = Starts io).
Proof.
  destruct l as [io|e|io e]; cbn [Windows.run_on].
  - pose proof (windows_run_signals rt w io) as Hs. cbv zeta in Hs.
    pose proof (windows_read_stderr_range (Windows.probe_duration io) (stderr_lines io))
      as Hrange.
    assert (Hl : Windows.launched (Windows.run rt w io) <> None).
    { unfold Windows.run. by destruct (Windows.read_stderr _ _ _). }
    unfold windows_caught.
    destruct (Windows.read_stderr _ _ _) as [emitted raised] eqn:Hr. cbn [fst snd] in *.
    destruct raised as [e|]; [|destruct (Z.eqb_spec (returncode io) 0) as [Hrc|Hrc]].
    + eexists emitted, _. split; [exact Hs|]. split; [done|].
      split; [right; by eexists|]. split.
      * split; [done|]. intros (io' & [= <-] & H & _). by rewrite Hr in H.
      * split; [by eauto | done].
    + exists (emitted ++ [100%Z]), (Windows.done (Windows.output_path w)).
      split; [rewrite Hs, map_app; simpl; by rewrite <- app_assoc|].
      split; [apply Forall_app; split; [done | by repeat constructor]|].
      split; [by left|]. split.
      * split; [|done]. intros _. exists io. by rewrite Hr.
      * split; [by eauto | done].
    + eexists emitted, _. split; [exact Hs|]. split; [done|].
      split; [right; by eexists|]. split.
      * split; [done|]. by intros (io' & [= <-] & _ & H).
      * split; [by eauto | done].
  - exists [], (Windows.error (StrOf e)).
    split; [done|]. split; [constructor|]. split; [right; by eexists|]. split.
    + split; [done|]. by intros (io' & [=] & _).
    + split; [done|]. by intros (io' & [=]).
  - exists [], (Windows.error (StrOf e)).
    split; [done|]. split; [constructor|]. split; [right; by eexists|]. split.
    + split; [done|]. by intros (io' & [=] & _).
    + split; [done|]. by intros (io' & [=]).
Qed.



End RunEnds.

(** ** The filter, and the reading of a timestamp *)

Section FilterAndTime.
Import PyStr PyNum Digits More.

Lemma hundredth_nonpositive (v : Z) :
  Qle_bool (inject_Z v / 100) 0 = (v <=? 0)%Z.
Proof.
  destruct (Z.leb_spec v 0) as [H|H].
  - apply Qle_bool_iff. unfold Qle. simpl. lia.
  - destruct (Qle_bool (inject_Z v / 100) 0) eqn:Hq; [|done].
    apply Qle_bool_iff in Hq. unfold Qle in Hq. simpl in Hq. lia.
Qed.

(** X4: The filter of a conversion is the saturation of the slider in
    hundredths, followed by the stage of the pixel format exactly when the
    slider is at 0 or below; the two variants build the same filter, and a
    preview started from the same state is made with the filter a conversion
    started from it would use. *)
Theorem filter_follows_the_slider (rt : Runtime) (stb : Bundled.App)
  (ui : PreviewUi.Ui) (f video : string) (isRunning : bool) :
  let stw := Windows.app (PreviewUi.sys ui) in
  let filter (v : Z) :=
    if (v <=? 0)%Z
    then ("eq=saturation=" +:+ float_str rt (inject_Z v / 100)) +:+ ",format=yuv420p"
    else "eq=saturation=" +:+ float_str rt (inject_Z v / 100) in
  Bundled.vf rt (Bundled.new_worker rt stb f) = filter (Bundled.sat_slider stb)
  /\ Windows.vf rt (Windows.saturation (Windows.new_worker rt stw f))
     = filter (Windows.s_slider stw)
  /\ exists sat,
       PreviewUi.previews (PreviewUi.update_preview_now (Some video) isRunning ui)
       = PreviewUi.previews ui ++ [(video, sat)]
       /\ Windows.preview_cmd rt video sat
          = [ffmpeg rt; "-y"; "-ss"; "00:00:01"; "-i"; video; "-frames:v"; "1";
             "-vf"; filter (Windows.s_slider stw); Windows.outjpg rt video sat].
Proof.
  cbv zeta. unfold Bundled.vf, Windows.vf, Windows.preview_cmd, Windows.vf.
  cbn [Bundled.new_worker Bundled.saturation_value Windows.new_worker
       Windows.saturation]. rewrite !hundredth_nonpositive.
  split; [done|]. split; [done|].
  eexists. split; [reflexivity|]. by rewrite hundredth_nonpositive.
Qed.

(** *** The percent is full once the duration is reached *)

Lemma round64_one : round64 1 = Fin 1.
Proof. vm_compute. reflexivity. Qed.

Lemma times100_one : times100 (Fin 1) = Fin 100.
Proof. vm_compute. reflexivity. Qed.

Lemma clamp_float_full (y : pyfloat) :
  Spec.nonneg y -> Spec.clamp_float y = 100%Z <-> Spec.fle (Fin 100) y.
Proof.
  destruct y as [q| | |]; unfold Spec.nonneg; cbn [Spec.fle Spec.clamp_float];
    try done. intros Hq. unfold Spec.clamp_percent. split.
  - intros H. assert (Hf : (100 <= Qfloor q)%Z) by lia.
    apply Qle_trans with (inject_Z (Qfloor q)); [|apply Qfloor_le].
    change 100%Q with (inject_Z 100). by rewrite <- Zle_Qle.
  - intros H%Qfloor_resp_le. change (Qfloor 100) with 100%Z in H. lia.
Qed.

Lemma ratio_full (d : Q) (t : pyfloat) :
  (0 < d)%Q -> Spec.fle (Fin d) t -> Spec.fle (Fin 100) (times100 (Spec.over t d)).
Proof.
  intros Hd Ht. assert (H1 : Spec.fle (Fin 1) (Spec.over t d)).
  { destruct t as [a| | |]; cbn [Spec.fle] in Ht; cbn [Spec.over]; try done.
    rewrite <- round64_one. apply round64_mono; [done|].
    apply Qle_shift_div_l; [done|]. by rewrite Qmult_1_l. }
  rewrite <- times100_one. by apply times100_mono.
Qed.

(** X5: With a duration that is positive, a line with a timestamp has the
    percent 100 exactly when its ratio in binary64 is 100 or more, and this is
    so once its elapsed time in binary64 has reached the duration: then the
    bundled variant gives 100 and the sequential variant gives 100 or raises
    on a ratio beyond every number, unless the hours and minutes cannot be
    read; with a timestamp as a clock shows it the bundled variant gives
    100, and so does the sequential variant when the duration is 2^-20
    seconds at least. *)
Theorem full_when_the_duration_is_reached (d : Q) (line : string) (m : Re.time_match) :
  (0 < d)%Q -> Re.search line = Some m ->
  let ratio := times100 (Spec.over (Spec.elapsed64 m) d) in
  (Spec.percent d m = 100%Z <-> Spec.fle (Fin 100) ratio)
  /\ (Spec.fle (Fin d) (Spec.elapsed64 m) ->
      Spec.fle (Fin 100) ratio
      /\ Bundled.pct (Fin d) m = (_ ← Spec.clock_float m; Ok 100%Z)
      /\ Windows.pct (Fin d) m
         = (_ ← Spec.clock_float m;
            match ratio with PInf => Raise OverflowError_inf | _ => Ok 100%Z end)
      /\ (Spec.clocklike m ->
          Bundled.pct (Fin d) m = Ok 100%Z
          /\ ((pow2 (-20) <= d)%Q -> Windows.pct (Fin d) m = Ok 100%Z))).
Proof.
  intros Hd Hm%search_timestamp. cbv zeta.
  pose proof (clamp_float_full _ (ratio_nonneg d m Hm Hd)) as Hfull.
  split; [exact Hfull|]. intros Hreached.
  pose proof (ratio_full d _ Hd Hreached) as Hr.
  assert (Hp : Spec.percent d m = 100%Z) by by apply Hfull.
  split; [exact Hr|].
  rewrite (bundled_pct_spec _ _ Hm Hd), (windows_pct_spec _ _ Hm Hd), Hp.
  split; [done|]. split; [done|]. intros Hc.
  destruct (clocklike_clock_float m Hm Hc) as (r & ->). cbn [mbind result_bind].
  split; [done|]. intros Hd20.
  by destruct (clocklike_finite d m Hm Hc Hd20) as (y & ->).
Qed.

Lemma full_when_the_duration_is_reached_witness :
  let m := {| Re.group1 := "00"; Re.group2 := "00"; Re.group3 := "20.00" |} in
  let ratio := times100 (Spec.over (Spec.elapsed64 m) 20) in
  (Spec.percent 20 m = 100%Z <-> Spec.fle (Fin 100) ratio)
  /\ (Spec.fle (Fin 20) (Spec.elapsed64 m) ->
      Spec.fle (Fin 100) ratio
      /\ Bundled.pct (Fin 20) m = (_ ← Spec.clock_float m; Ok 100%Z)
      /\ Windows.pct (Fin 20) m
         = (_ ← Spec.clock_float m;
            match ratio with PInf => Raise OverflowError_inf | _ => Ok 100%Z end)
      /\ (Spec.clocklike m ->
          Bundled.pct (Fin 20) m = Ok 100%Z
          /\ ((pow2 (-20) <= 20)%Q -> Windows.pct (Fin 20) m = Ok 100%Z))).
Proof.
  refine (full_when_the_duration_is_reached 20 "frame=9 time=00:00:20.00"
            {| Re.group1 := "00"; Re.group2 := "00"; Re.group3 := "20.00" |} _ _).
  - reflexivity.
  - reflexivity.
Defined.

(** The seconds are rounded when they are read: twenty digits of nines after
    19 read as 20.0, so that a line whose timestamp is below a duration of 20
    seconds gives 100 percent in either variant. *)
Example full_before_the_duration :
  let m := {| Re.group1 := "00"; Re.group2 := "00";
              Re.group3 := "19.99999999999999999999" |} in
  Re.search "time=00:00:19.99999999999999999999" = Some m
  /\ (Spec.elapsed m < 20)%Q
  /\ Spec.elapsed64 m = Fin 20
  /\ Bundled.pct (Fin 20) m = Ok 100%Z
  /\ Windows.pct (Fin 20) m = Ok 100%Z.
Proof. cbv zeta. repeat split; vm_compute; reflexivity. Qed.

(** *** A timestamp is read back *)

Lemma span_decimal_app (d r : string) :
  forallb_str is_decimal d = true -> no_digit_ahead r ->
  Re.span_decimal (d +:+ r) = (d, r).
Proof.
  intros Hd Hr. induction d as [|c d IH]; simpl.
  - destruct r as [|c r]; [done|]. simpl in Hr. simpl. by rewrite Hr.
  - simpl in Hd. apply andb_true_iff in Hd as [Hc Hd]. by rewrite Hc, (IH Hd).
Qed.

Lemma digits1_app (d r : string) :
  decimals d -> no_digit_ahead r -> Re.digits1 (d +:+ r) = Some (d, r).
Proof.
  intros [Hd Hne] Hr. unfold Re.digits1. rewrite (span_decimal_app d r Hd Hr).
  by destruct d.
Qed.

Lemma match_here_timestamp_text (h m s f tail : string) :
  decimals h -> decimals m -> decimals s -> decimals f -> no_digit_ahead tail ->
  Re.match_here
    ("time=" +:+ h +:+ String ":" (m +:+ String ":" (s +:+ String "." (f +:+ tail))))
  = Some {| Re.group1 := h; Re.group2 := m; Re.group3 := s +:+ String "." f |}.
Proof.
  intros Hh Hm Hs Hf Ht. unfold Re.match_here.
  change (Re.word "time=" ("time=" +:+ ?x)) with (Some x).
  cbn [mbind option_bind]. rewrite (digits1_app h _ Hh) by done.
  cbn [mbind option_bind Re.lit Ascii.eqb Bool.eqb]. 
  rewrite (digits1_app m _ Hm) by done.
  cbn [mbind option_bind Re.lit Ascii.eqb Bool.eqb].
  rewrite (digits1_app s _ Hs) by done.
  cbn [mbind option_bind Re.lit Ascii.eqb Bool.eqb].
  rewrite (digits1_app f _ Hf) by done.
  done.
Qed.

Lemma search_skips (p rest : string) :
  no_t p -> Re.search (p +:+ rest) = Re.search rest.
Proof.
  unfold no_t. induction p as [|c p IH]; [done|]. simpl forallb_str.
  intros [Hc Hp]%andb_true_iff. change (String c p +:+ rest) with (String c (p +:+ rest)).
  cbn [Re.search]. rewrite <- (IH Hp).
  assert (Hnone : Re.match_here (String c (p +:+ rest)) = None).
  { unfold Re.match_here. cbn [Re.word Re.lit].
    rewrite Ascii.eqb_sym. apply negb_true_iff in Hc. by rewrite Hc. }
  by rewrite Hnone.
Qed.

(** X6: A line that has, after any text without the letter t, the word [time=]
    and then hours, minutes, seconds and a fraction in decimal digits, gives
    these digits back as its timestamp, whatever follows the fraction that
    is no digit; the hours and the minutes are read as the integers their
    digits denote and the seconds as the binary64 number nearest to the
    number their digits denote, and hours or minutes of more than 4300
    digits are not read.  With a positive duration the percent of either
    variant is the clamped floor of the ratio computed in binary64 from
    these readings, unless the hours and minutes cannot be read or are too
    large for a float or, in the sequential variant, the ratio is beyond
    every number. *)
Theorem timestamp_is_read_back (p h m s f tail : string) (d : Q) :
  no_t p -> decimals h -> decimals m -> decimals s -> decimals f ->
  no_digit_ahead tail -> (0 < d)%Q ->
  let line :=
    p +:+ "time=" +:+ h +:+ String ":" (m +:+ String ":" (s +:+ String "." (f +:+ tail))) in
  let found := {| Re.group1 := h; Re.group2 := m; Re.group3 := s +:+ String "." f |} in
  let read (g : string) : result Z :=
    if (Z.of_nat (String.length g) <=? 4300)%Z then Ok (digits_value g)
    else Raise (ValueError_digits (String.length g)) in
  let n := (digits_value h * 3600 + digits_value m * 60)%Z in
  let seconds :=
    (inject_Z (digits_value s)
     + inject_Z (digits_value f) / inject_Z (10 ^ Z.of_nat (String.length f)))%Q in
  let ratio := times100 (Spec.over (fadd (round64 (inject_Z n)) (round64 seconds)) d) in
  Re.search line = Some found
  /\ py_int h = read h
  /\ py_int m = read m
  /\ py_float (s +:+ String "." f) = Ok (round64 seconds)
  /\ Bundled.pct (Fin d) found
     = (_ ← read h; _ ← read m; _ ← float_of_int n; Ok (Spec.clamp_float ratio))
  /\ Windows.pct (Fin d) found
     = (_ ← read h; _ ← read m; _ ← float_of_int n;
        match ratio with
        | PInf => Raise OverflowError_inf
        | _ => Ok (Spec.clamp_float ratio)
        end).
Proof.
  intros Hp Hh Hm Hs Hf Ht Hd. cbv zeta.
  assert (Hfound : Re.search
            ("time=" +:+ h +:+ String ":" (m +:+ String ":" (s +:+ String "." (f +:+ tail))))
          = Some {| Re.group1 := h; Re.group2 := m; Re.group3 := s +:+ String "." f |}).
  { pose proof (match_here_timestamp_text h m s f tail Hh Hm Hs Hf Ht) as H.
    change ("time=" +:+ ?x) with (String "t" ("ime=" +:+ x)) in *.
    cbn [Re.search]. by rewrite H. }
  split; [by rewrite search_skips|].
  pose proof (search_timestamp _ _ Hfound) as Hts.
  destruct (timestamp_read _ Hts) as (Hi1 & Hi2 & Hfl & _).
  rewrite (bundled_pct_spec _ _ Hts Hd), (windows_pct_spec _ _ Hts Hd).
  unfold Spec.percent, Spec.elapsed64, Spec.seconds_value, Spec.clock_float in *.
  cbn [Re.group1 Re.group2 Re.group3] in *.
  destruct Hs as [Hs _]. rewrite (decimals_then_dot s f Hs) in *.
  rewrite Hi1, Hi2. unfold int_max_str_digits.
  split; [done|]. split; [done|]. split; [done|].
  by destruct (Z.of_nat (String.length h) <=? 4300)%Z,
              (Z.of_nat (String.length m) <=? 4300)%Z.
Qed.

Lemma timestamp_is_read_back_witness :
  let p := "frame=  120 fps= 30 q=28.0 size=    512kB " in
  let tail := " bitrate=1.2kbits/s" in
  let line :=
    p +:+ "time=" +:+ "00" +:+ String ":" ("01" +:+ String ":" ("30" +:+ String "." ("50" +:+ tail))) in
  let found := {| Re.group1 := "00"; Re.group2 := "01";
                  Re.group3 := "30" +:+ String "." "50" |} in
  let read (g : string) : result Z :=
    if (Z.of_nat (String.length g) <=? 4300)%Z then Ok (digits_value g)
    else Raise (ValueError_digits (String.length g)) in
  let n := (digits_value "00" * 3600 + digits_value "01" * 60)%Z in
  let seconds :=
    (inject_Z (digits_value "30")
     + inject_Z (digits_value "50") / inject_Z (10 ^ Z.of_nat (String.length "50")))%Q in
  let ratio := times100 (Spec.over (fadd (round64 (inject_Z n)) (round64 seconds)) 181) in
  Re.search line = Some found
  /\ py_int "00" = read "00"
  /\ py_int "01" = read "01"
  /\ py_float ("30" +:+ String "." "50") = Ok (round64 seconds)
  /\ Bundled.pct (Fin 181) found
     = (_ ← read "00"; _ ← read "01"; _ ← float_of_int n; Ok (Spec.clamp_float ratio))
  /\ Windows.pct (Fin 181) found
     = (_ ← read "00"; _ ← read "01"; _ ← float_of_int n;
        match ratio with
        | PInf => Raise OverflowError_inf
        | _ => Ok (Spec.clamp_float ratio)
        end).
Proof.
  refine (timestamp_is_read_back
            "frame=  120 fps= 30 q=28.0 size=    512kB " "00" "01" "30" "50"
            " bitrate=1.2kbits/s" 181 _ _ _ _ _ _ _).
  - reflexivity.
  - split; [reflexivity | discriminate].
  - split; [reflexivity | discriminate].
  - split; [reflexivity | discriminate].
  - split; [reflexivity | discriminate].
  - reflexivity.
  - reflexivity.
Defined.

End FilterAndTime.

(** ** What adding and removing do to the working set *)

Section Edits.
Import PyStr More.

Lemma fresh_filter_cons (seen : list string) (f : string) (urls : list string) :
  fresh seen (filter (fun u => is_video u = true) (f :: urls))
  = if is_video f && negb (contains seen f)
    then f :: fresh (seen ++ [f]) (filter (fun u => is_video u = true) urls)
    else fresh seen (filter (fun u => is_video u = true) urls).
Proof.
  rewrite filter_cons. case_decide as Hv.
  - rewrite Hv. cbn [fresh andb]. by destruct (contains seen f).
  - apply not_true_is_false in Hv. by rewrite Hv.
Qed.

Lemma bundled_add_files_loop_fresh (fs : list string) (st : Bundled.App) :
  Bundled.input_files (Bundled.add_files_loop fs st)
  = Bundled.input_files st
    ++ take (20 - length (Bundled.input_files st)) (fresh (Bundled.input_files st) fs).
Proof.
  revert st. induction fs as [|f fs IH]; intros st; cbn [Bundled.add_files_loop fresh].
  - by rewrite take_nil, app_nil_r.
  - destruct (Nat.leb_spec 20 (length (Bundled.input_files st))) as [Hcap|Hcap].
    + replace (20 - length (Bundled.input_files st))%nat with 0%nat by lia.
      simpl. by rewrite app_nil_r.
    + destruct (contains (Bundled.input_files st) f); [apply IH|].
      rewrite IH. cbn [Bundled.set_files Bundled.input_files].
      rewrite length_app. cbn [length].
      replace (20 - length (Bundled.input_files st))%nat
        with (S (20 - (length (Bundled.input_files st) + 1)))%nat by lia.
      cbn [take]. by rewrite <- app_assoc.
Qed.

Lemma bundled_dropEvent_fresh (urls : list string) (st : Bundled.App) :
  Bundled.input_files (Bundled.dropEvent urls st)
  = Bundled.input_files st
    ++ take (20 - length (Bundled.input_files st))
         (fresh (Bundled.input_files st) (filter (fun u => is_video u = true) urls)).
Proof.
  revert st. induction urls as [|f urls IH]; intros st; cbn [Bundled.dropEvent].
  - rewrite filter_nil. cbn [fresh]. by rewrite take_nil, app_nil_r.
  - rewrite fresh_filter_cons. fold (is_video f).
    destruct (is_video f && negb (contains (Bundled.input_files st) f)); [|apply IH].
    destruct (Nat.ltb_spec (length (Bundled.input_files st)) 20) as [Hcap|Hcap].
    + rewrite IH. cbn [Bundled.set_files Bundled.input_files].
      rewrite length_app. cbn [length].
      replace (20 - length (Bundled.input_files st))%nat
        with (S (20 - (length (Bundled.input_files st) + 1)))%nat by lia.
      cbn [take]. by rewrite <- app_assoc.
    + rewrite IH.
      replace (20 - length (Bundled.input_files st))%nat with 0%nat by lia.
      done.
Qed.

Lemma windows_add_files_loop_fresh (fs : list string) (st : Windows.App) :
  Windows.deref (Windows.add_files_loop fs st) (Windows.files (Windows.add_files_loop fs st))
  = Windows.deref st (Windows.files st) ++ fresh (Windows.deref st (Windows.files st)) fs.
Proof.
  revert st. induction fs as [|f fs IH]; intros st; cbn [Windows.add_files_loop fresh].
  - by rewrite app_nil_r.
  - destruct (contains (Windows.deref st (Windows.files st)) f); [apply IH|].
    rewrite IH, append_file_deref. by rewrite <- app_assoc.
Qed.

Lemma windows_drop_loop_fresh (urls : list string) (added : bool) (st : Windows.App) :
  let r := Windows.drop_loop urls added st in
  let new := fresh (Windows.deref st (Windows.files st))
               (filter (fun u => is_video u = true) urls) in
  Windows.deref r.2 (Windows.files r.2) = Windows.deref st (Windows.files st) ++ new
  /\ r.1 = added || negb (bool_decide (new = []))
  /\ (new = [] -> r.2 = st).
Proof.
  revert added st. induction urls as [|f urls IH]; intros added st; cbv zeta.
  - cbn [Windows.drop_loop fst snd]. rewrite filter_nil. cbn [fresh].
    rewrite app_nil_r, orb_false_r. done.
  - cbn [Windows.drop_loop]. rewrite fresh_filter_cons. fold (is_video f).
    destruct (is_video f && negb (contains (Windows.deref st (Windows.files st)) f)).
    + destruct (IH true (Windows.append_file f st)) as (H1 & H2 & _).
      rewrite append_file_deref in H1, H2.
      split; [by rewrite H1, <- app_assoc|]. split; [|done].
      rewrite H2. simpl. by rewrite orb_true_r.
    + apply IH.
Qed.

(** X7: Adding files with the button appends to the working set, in their order,
    the offered paths that are not in it yet, each one once, and nothing
    else; the files already there keep their places.  In the bundled
    variant only as many are appended as the cap of 20 leaves room for. *)
Theorem add_files_appends_the_new_paths (fs : list string) (stb : Bundled.App)
  (stw : Windows.App) :
  Bundled.input_files (Bundled.add_files fs stb)
  = Bundled.input_files stb
    ++ take (20 - length (Bundled.input_files stb)) (fresh (Bundled.input_files stb) fs)
  /\ Windows.deref (Windows.add_files fs stw) (Windows.files (Windows.add_files fs stw))
     = Windows.deref stw (Windows.files stw)
       ++ fresh (Windows.deref stw (Windows.files stw)) fs.
Proof.
  split.
  - destruct fs as [|f fs]; [simpl; by rewrite take_nil, app_nil_r|].
    apply (bundled_add_files_loop_fresh (f :: fs)).
  - destruct fs as [|f fs]; [simpl; by rewrite app_nil_r|].
    apply (windows_add_files_loop_fresh (f :: fs)).
Qed.

(** X8: Dropping files appends to the working set, in their order, the dropped
    paths that end with the extension of a video, in small or capital
    letters, and are not in the set yet, each one once; no other path is
    taken.  In the bundled variant only as many are appended as the cap of
    20 leaves room for. *)
Theorem dropEvent_appends_the_new_videos (urls : list string) (stb : Bundled.App)
  (stw : Windows.App) :
  Bundled.input_files (Bundled.dropEvent urls stb)
  = Bundled.input_files stb
    ++ take (20 - length (Bundled.input_files stb))
         (fresh (Bundled.input_files stb) (filter (fun u => is_video u = true) urls))
  /\ Windows.deref (Windows.dropEvent urls stw) (Windows.files (Windows.dropEvent urls stw))
     = Windows.deref stw (Windows.files stw)
       ++ fresh (Windows.deref stw (Windows.files stw))
            (filter (fun u => is_video u = true) urls).
Proof.
  split; [apply bundled_dropEvent_fresh|].
  destruct (windows_drop_loop_fresh urls false stw) as (H & _ & _).
  unfold Windows.dropEvent. by destruct (Windows.drop_loop urls false stw) as [[] st'].
Qed.

(** X9: In the sequential variant a drop that brings no new video leaves the
    whole state as it was, and a drop that brings one starts the timer of
    the preview. *)
Theorem drop_without_news_changes_nothing (urls : list string) (st : Windows.App) :
  let new := fresh (Windows.deref st (Windows.files st))
               (filter (fun u => is_video u = true) urls) in
  (new = [] -> Windows.dropEvent urls st = st)
  /\ (new <> [] -> Windows.debounce_armed (Windows.dropEvent urls st) = true).
Proof.
  cbv zeta. destruct (windows_drop_loop_fresh urls false st) as (_ & H2 & H3).
  cbv zeta in H2, H3. unfold Windows.dropEvent.
  destruct (Windows.drop_loop urls false st) as [added st']. cbn [fst snd] in *.
  split.
  - intros Hnew. rewrite Hnew in H2. rewrite bool_decide_eq_true_2 in H2 by done.
    subst added. simpl. by apply H3.
  - intros Hnew. rewrite bool_decide_eq_false_2 in H2 by done. subst added. done.
Qed.

Lemma drop_without_news_changes_nothing_witness :
  Windows.dropEvent ["/notes/readme.txt"; Host.numbered 3] Host.twenty_listed
  = Host.twenty_listed
  /\ Windows.debounce_armed (Windows.dropEvent [Host.one_more] Host.twenty_listed) = true.
Proof.
  split.
  - refine (proj1 (drop_without_news_changes_nothing _ Host.twenty_listed) _).
    vm_compute. reflexivity.
  - refine (proj2 (drop_without_news_changes_nothing _ Host.twenty_listed) _).
    vm_compute. discriminate.
Defined.

(** *** Removing *)

Lemma filter_absent_all (l : list string) : filter (fun y => y ∉ []) l = l.
Proof.
  induction l as [|y l IH]; [done|].
  rewrite filter_cons, decide_True by apply not_elem_of_nil. by rewrite IH.
Qed.

Lemma filter_absent (x : string) (l : list string) :
  x ∉ l -> filter (fun y => y <> x) l = l.
Proof.
  induction l as [|y l IH]; [done|]. intros H. apply not_elem_of_cons in H as [Hne Hl].
  rewrite filter_cons, decide_True by done. by rewrite IH.
Qed.

Lemma remove_first_absent (x : string) (l : list string) :
  x ∉ l -> remove_first x l = l.
Proof.
  induction l as [|y l IH]; [done|]. intros H. apply not_elem_of_cons in H as [Hne Hl].
  simpl. destruct (String.eqb_spec x y); [done|]. by rewrite IH.
Qed.

Lemma remove_first_filter (x : string) (l : list string) :
  NoDup l -> remove_first x l = filter (fun y => y <> x) l.
Proof.
  induction 1 as [|y l Hy Hl IH]; [done|]. simpl. rewrite filter_cons.
  destruct (String.eqb_spec x y) as [->|Hne].
  - rewrite decide_False by (intros H; by apply H). by rewrite filter_absent.
  - rewrite decide_True by done. by rewrite IH.
Qed.

Lemma remove_if_present (x : string) (l : list string) :
  NoDup l ->
  (if contains l x then remove_first x l else l) = filter (fun y => y <> x) l.
Proof.
  intros Hl. destruct (contains l x) eqn:Hc; [by apply remove_first_filter|].
  apply contains_false in Hc. by rewrite filter_absent.
Qed.

Lemma filter_one_more (x : string) (sel l : list string) :
  filter (fun y => y ∉ sel) (filter (fun y => y <> x) l)
  = filter (fun y => y ∉ x :: sel) l.
Proof.
  rewrite list_filter_filter. apply list_filter_iff. intros y.
  rewrite not_elem_of_cons. tauto.
Qed.

(** X10: Removing the selected rows takes exactly the selected paths out of the
    working set and leaves the other files in their order, in either
    variant. *)
Theorem remove_selected_takes_the_selection_out (sel : list string)
  (stb : Bundled.App) (stw : Windows.App) :
  (NoDup (Bundled.input_files stb) ->
   Bundled.input_files (Bundled.remove_selected sel stb)
   = filter (fun y => y ∉ sel) (Bundled.input_files stb))
  /\ (NoDup (Windows.deref stw (Windows.files stw)) ->
      Windows.deref (Windows.remove_selected sel stw)
        (Windows.files (Windows.remove_selected sel stw))
      = filter (fun y => y ∉ sel) (Windows.deref stw (Windows.files stw))).
Proof.
  split.
  - revert stb. induction sel as [|txt sel IH]; intros st Hnd.
    + simpl. symmetry. apply filter_absent_all.
    + cbn [Bundled.remove_selected]. rewrite IH; cbn [Bundled.set_files Bundled.input_files].
      * by rewrite remove_if_present, filter_one_more.
      * rewrite remove_if_present by done. by apply NoDup_filter.
  - unfold Windows.remove_selected.
    change (Windows.deref (Windows.update_preview_debounced ?st)
              (Windows.files (Windows.update_preview_debounced ?st)))
      with (Windows.deref st (Windows.files st)).
    revert stw. induction sel as [|txt sel IH]; intros st Hnd.
    + simpl. symmetry. apply filter_absent_all.
    + cbn [Windows.remove_loop].
      set (st1 := if contains _ txt then _ else st).
      assert (H1 : Windows.deref st1 (Windows.files st1)
                   = filter (fun y => y <> txt) (Windows.deref st (Windows.files st))).
      { rewrite <- remove_if_present by done. unfold st1.
        destruct (contains _ txt); [|done].
        change (Windows.files (Windows.store ?l ?v ?s)) with (Windows.files s).
        apply deref_store_eq. }
      rewrite IH.
      * change (Windows.deref (Windows.set_items ?i ?s) (Windows.files (Windows.set_items ?i ?s)))
          with (Windows.deref s (Windows.files s)).
        by rewrite H1, filter_one_more.
      * change (Windows.deref (Windows.set_items ?i ?s) (Windows.files (Windows.set_items ?i ?s)))
          with (Windows.deref s (Windows.files s)).
        rewrite H1. by apply NoDup_filter.
Qed.

Lemma remove_selected_takes_the_selection_out_witness :
  let st := Bundled.handle Host.posix Bundled.init
              (Bundled.Add [Host.clip; Host.numbered 1; Host.numbered 2]) in
  Bundled.input_files (Bundled.remove_selected [Host.numbered 1] st)
  = filter (fun y => y ∉ [Host.numbered 1]) (Bundled.input_files st).
Proof.
  refine (proj1 (remove_selected_takes_the_selection_out _ _ Windows.init) _).
  apply (bundled_reachable_NoDup Host.posix), Bundled.reach_step, Bundled.reach_init.
Defined.

End Edits.

(** ** The list widget shows the working set *)

Section Mirror.
Import PyStr More.

Lemma bundled_add_files_loop_mirror (fs : list string) (st : Bundled.App) :
  Bundled.list_widget st = Bundled.input_files st ->
  Bundled.list_widget (Bundled.add_files_loop fs st)
  = Bundled.input_files (Bundled.add_files_loop fs st).
Proof.
  revert st. induction fs as [|f fs IH]; intros st H; cbn [Bundled.add_files_loop]; [done|].
  destruct (20 <=? _)%nat; [done|].
  destruct (contains _ f); apply IH; [done|]. simpl. by rewrite H.
Qed.

Lemma bundled_dropEvent_mirror (urls : list string) (st : Bundled.App) :
  Bundled.list_widget st = Bundled.input_files st ->
  Bundled.list_widget (Bundled.dropEvent urls st)
  = Bundled.input_files (Bundled.dropEvent urls st).
Proof.
  revert st. induction urls as [|f urls IH]; intros st H; cbn [Bundled.dropEvent]; [done|].
  destruct (_ && _); [|by apply IH].
  destruct (_ <? 20)%nat; apply IH; [|done]. simpl. by rewrite H.
Qed.

Lemma bundled_remove_selected_mirror (sel : list string) (st : Bundled.App) :
  Bundled.list_widget st = Bundled.input_files st ->
  Bundled.list_widget (Bundled.remove_selected sel st)
  = Bundled.input_files (Bundled.remove_selected sel st).
Proof.
  revert st. induction sel as [|txt sel IH]; intros st H; cbn [Bundled.remove_selected];
    [done|].
  apply IH. cbn [Bundled.set_files Bundled.list_widget Bundled.input_files]. rewrite H.
  destruct (contains (Bundled.input_files st) txt) eqn:Hc; [done|].
  apply contains_false in Hc. by apply remove_first_absent.
Qed.

Lemma bundled_start_loop_widget (rt : Runtime) (snapshot : list string) (st : Bundled.App) :
  Bundled.list_widget (Bundled.start_loop rt snapshot st) = Bundled.list_widget st.
Proof.
  revert st. induction snapshot as [|f fs IH]; intros st; simpl; [done|]. by rewrite IH.
Qed.

Lemma bundled_handle_mirror (rt : Runtime) (st : Bundled.App) (i : Bundled.input) :
  Bundled.list_widget st = Bundled.input_files st ->
  Bundled.list_widget (Bundled.handle rt st i)
  = Bundled.input_files (Bundled.handle rt st i).
Proof.
  intros H. destruct i as [fs|sel|urls|folder|v| |r|r err]; cbn [Bundled.handle].
  - destruct fs; [done|]. by apply bundled_add_files_loop_mirror.
  - by apply bundled_remove_selected_mirror.
  - by apply bundled_dropEvent_mirror.
  - by destruct folder.
  - done.
  - unfold Bundled.start_conversion.
    destruct (Bundled.input_files st) eqn:Hf; [simpl; congruence|].
    destruct (Bundled.output_folder st); [simpl; congruence|].
    cbn [Bundled.set_status Bundled.list_widget Bundled.input_files].
    rewrite bundled_start_loop_widget, bundled_start_loop_files. congruence.
  - unfold Bundled._on_worker_finished. simpl.
    by destruct (filter _ (Bundled.workers st)).
  - done.
Qed.

Lemma windows_drop_loop_mirror (urls : list string) (added : bool) (st : Windows.App) :
  Windows.list_items st = Windows.deref st (Windows.files st) ->
  let st' := (Windows.drop_loop urls added st).2 in
  Windows.list_items st' = Windows.deref st' (Windows.files st').
Proof.
  revert added st. induction urls as [|f urls IH]; intros added st H;
    cbn [Windows.drop_loop]; [done|].
  destruct (_ && _); [|by apply IH].
  apply IH. rewrite append_file_deref. simpl. by rewrite H.
Qed.

Lemma windows_add_files_loop_mirror (fs : list string) (st : Windows.App) :
  Windows.list_items st = Windows.deref st (Windows.files st) ->
  let st' := Windows.add_files_loop fs st in
  Windows.list_items st' = Windows.deref st' (Windows.files st').
Proof.
  revert st. induction fs as [|f fs IH]; intros st H; cbn [Windows.add_files_loop]; [done|].
  destruct (contains _ f); [by apply IH|].
  apply IH. rewrite append_file_deref. simpl. by rewrite H.
Qed.

Lemma windows_remove_loop_mirror (sel : list string) (st : Windows.App) :
  Windows.list_items st = Windows.deref st (Windows.files st) ->
  let st' := Windows.remove_loop sel st in
  Windows.list_items st' = Windows.deref st' (Windows.files st').
Proof.
  revert st. induction sel as [|txt sel IH]; intros st H; cbn [Windows.remove_loop]; [done|].
  apply IH.
  change (Windows.deref (Windows.set_items ?i ?s) (Windows.files (Windows.set_items ?i ?s)))
    with (Windows.deref s (Windows.files s)).
  cbn [Windows.set_items Windows.list_items].
  destruct (contains (Windows.deref st (Windows.files st)) txt) eqn:Hc.
  - change (Windows.files (Windows.store ?l ?v ?s)) with (Windows.files s).
    rewrite deref_store_eq. cbn [Windows.store Windows.list_items]. by rewrite H.
  - apply contains_false in Hc. rewrite H. by apply remove_first_absent.
Qed.

Lemma run_next_items (rt : Runtime) (st : Windows.App) :
  Windows.list_items (Windows._run_next rt st) = Windows.list_items st.
Proof. unfold Windows._run_next. by destruct (Windows.deref st (Windows.queue st)). Qed.

Lemma slot_items (rt : Runtime) (sg : Windows.signal) (st : Windows.App) :
  Windows.list_items (Windows.slot rt sg st) = Windows.list_items st.
Proof.
  destruct sg; cbn [Windows.slot]; [done| |];
    unfold Windows._worker_done, Windows._worker_error; by rewrite run_next_items.
Qed.

Lemma start_queue_items (rt : Runtime) (st : Windows.App) :
  Windows.list_items (Windows.start_queue rt st) = Windows.list_items st.
Proof.
  unfold Windows.start_queue. destruct (Windows.deref st (Windows.files st)); [done|].
  destruct (Windows.output_dir st); [done|]. by rewrite run_next_items.
Qed.

Lemma windows_handle_mirror (rt : Runtime) (script : nat -> External)
  (s : Windows.Sys) (i : Windows.input) :
  Shape.well_formed (Windows.app s) ->
  Windows.list_items (Windows.app s)
  = Windows.deref (Windows.app s) (Windows.files (Windows.app s)) ->
  let s' := Windows.handle rt script s i in
  Windows.list_items (Windows.app s')
  = Windows.deref (Windows.app s') (Windows.files (Windows.app s')).
Proof.
  intros Hwf H. destruct i as [|urls|fs|sel|folder|v|]; cbn [Windows.handle].
  - destruct (Windows.inbox s) as [|[w sg] rest]; [done|].
    cbn [Windows.absorb Windows.app]. rewrite slot_items.
    destruct (slot_effect rt sg (Windows.note (Windows.ev_signal w sg) (Windows.app s)) Hwf)
      as (_ & H2 & _).
    rewrite H2. exact H.
  - cbn [Windows.app]. unfold Windows.dropEvent.
    pose proof (windows_drop_loop_mirror urls false (Windows.app s) H) as Hm.
    by destruct (Windows.drop_loop urls false (Windows.app s)) as [[] st'].
  - destruct (Windows.buttons_enabled (Windows.app s)); [|done]. cbn [Windows.app].
    destruct fs as [|f fs]; [done|].
    apply (windows_add_files_loop_mirror (f :: fs) _ H).
  - destruct (Windows.buttons_enabled (Windows.app s)); [|done]. cbn [Windows.app].
    apply (windows_remove_loop_mirror sel _ H).
  - destruct (Windows.buttons_enabled (Windows.app s)); [|done]. cbn [Windows.app].
    by destruct folder.
  - exact H.
  - destruct (Windows.buttons_enabled (Windows.app s)); [|done].
    cbn [Windows.absorb Windows.app]. rewrite start_queue_items.
    destruct (start_queue_effect rt (Windows.app s) Hwf) as (_ & _ & H2).
    rewrite H2. exact H.
Qed.

(** X11: In every state either variant reaches, the rows of the list widget are
    the files of the working set, in the same order. *)
Theorem list_widget_shows_the_working_set (rt : Runtime) (script : nat -> External) :
  (forall st, Bundled.reachable rt st ->
              Bundled.list_widget st = Bundled.input_files st)
  /\ (forall s, Windows.reachable rt script s ->
        Windows.list_items (Windows.app s)
        = Windows.deref (Windows.app s) (Windows.files (Windows.app s))).
Proof.
  split.
  - induction 1 as [|st i _ IH]; [done | by apply bundled_handle_mirror].
  - intros s Hs. induction Hs as [|s i Hs IH]; [done|].
    apply windows_handle_mirror; [|done].
    by apply (reachable_invariant rt script).
Qed.

Lemma list_widget_shows_the_working_set_witness :
  let st := Bundled.handle Host.posix
              (Bundled.handle Host.posix Bundled.init
                 (Bundled.Add [Host.clip; Host.numbered 1]))
              (Bundled.Remove [Host.clip]) in
  Bundled.list_widget st = Bundled.input_files st.
Proof.
  refine (proj1 (list_widget_shows_the_working_set Host.posix (fun _ => Host.quiet 0))
            _ _).
  apply Bundled.reach_step, Bundled.reach_step, Bundled.reach_init.
Defined.

End Mirror.

(** ** The start of a batch *)

Section Start.
Import PyStr More.

Lemma bundled_start_loop_frame (rt : Runtime) (snapshot : list string) (st : Bundled.App) :
  let st' := Bundled.start_loop rt snapshot st in
  Bundled.started st' = Bundled.started st ++ map (Bundled.new_worker rt st) snapshot
  /\ Bundled.workers st' = Bundled.workers st ++ map (Bundled.new_worker rt st) snapshot
  /\ Bundled.output_folder st' = Bundled.output_folder st
  /\ Bundled.sat_slider st' = Bundled.sat_slider st
  /\ Bundled.dialogs st' = Bundled.dialogs st.
Proof.
  revert st. induction snapshot as [|f fs IH]; intros st; cbn [Bundled.start_loop].
  - cbn [map]. by rewrite !app_nil_r.
  - destruct (IH (Bundled.spawn (Bundled.new_worker rt st f) st))
      as (H1 & H2 & H3 & H4 & H5).
    cbv zeta. rewrite H1, H2, H3, H4, H5.
    cbn [Bundled.spawn Bundled.started Bundled.workers Bundled.output_folder
         Bundled.sat_slider Bundled.dialogs map].
    rewrite <- !app_assoc. done.
Qed.

Lemma bundled_reachable_cap (rt : Runtime) (st : Bundled.App) :
  Bundled.reachable rt st -> (length (Bundled.input_files st) <= 20)%nat.
Proof.
  induction 1 as [|st i _ IH]; [simpl; lia | by apply bundled_handle_cap].
Qed.

(** X12: With files in the list and an output folder, the start of the bundled
    variant starts one worker for each file of the list, in the order of the
    list, each to write [<stem>_converted.mp4] in the output folder with the
    saturation of the slider in hundredths, and it changes neither the list
    nor the message boxes; from a state the application reaches these are at
    most 20 workers.  The start is not barred while workers run: a second
    start starts a worker for each file again. *)
Theorem bundled_start_one_worker_per_file (rt : Runtime) (st : Bundled.App) :
  Bundled.input_files st <> [] -> Bundled.output_folder st <> EmptyString ->
  let jobs := map (Bundled.new_worker rt st) (Bundled.input_files st) in
  let st' := Bundled.start_conversion rt st in
  Bundled.started st' = Bundled.started st ++ jobs
  /\ Bundled.workers st' = Bundled.workers st ++ jobs
  /\ Bundled.input_files st' = Bundled.input_files st
  /\ Bundled.dialogs st' = Bundled.dialogs st
  /\ (Bundled.reachable rt st -> (length jobs <= 20)%nat)
  /\ Bundled.started (Bundled.start_conversion rt st')
     = Bundled.started st ++ jobs ++ jobs.
Proof.
  intros Hf Ho. cbv zeta.
  assert (Hstart : forall s, Bundled.input_files s = Bundled.input_files st ->
            Bundled.output_folder s = Bundled.output_folder st ->
            Bundled.start_conversion rt s
            = Bundled.set_status "Status: Processing..."
                (Bundled.start_loop rt (Bundled.input_files st) s)).
  { intros s H1 H2. unfold Bundled.start_conversion. rewrite H1, H2.
    destruct (Bundled.input_files st); [done|].
    by destruct (Bundled.output_folder st). }
  rewrite (Hstart st) by done.
  destruct (bundled_start_loop_frame rt (Bundled.input_files st) st)
    as (H1 & H2 & H3 & H4 & H5).
  cbn [Bundled.set_status Bundled.started Bundled.workers Bundled.input_files
       Bundled.dialogs].
  split; [done|]. split; [done|].
  split; [apply bundled_start_loop_files|]. split; [done|]. split.
  - intros Hr. rewrite length_map. by apply (bundled_reachable_cap rt).
  - set (st1 := Bundled.set_status "Status: Processing..."
                  (Bundled.start_loop rt (Bundled.input_files st) st)).
    assert (Hf1 : Bundled.input_files st1 = Bundled.input_files st)
      by apply bundled_start_loop_files.
    assert (Ho1 : Bundled.output_folder st1 = Bundled.output_folder st) by exact H3.
    assert (Hs1 : Bundled.sat_slider st1 = Bundled.sat_slider st) by exact H4.
    assert (Hst1 : Bundled.started st1 = Bundled.started st ++
                     map (Bundled.new_worker rt st) (Bundled.input_files st))
      by exact H1.
    rewrite (Hstart st1 Hf1 Ho1).
    destruct (bundled_start_loop_frame rt (Bundled.input_files st) st1) as (H1' & _).
    cbv zeta in H1'. cbn [Bundled.set_status Bundled.started]. rewrite H1', Hst1.
    rewrite <- app_assoc. f_equal. f_equal.
    apply map_ext. intros f. unfold Bundled.new_worker. by rewrite Ho1, Hs1.
Qed.

Lemma bundled_start_one_worker_per_file_witness :
  let st := Host.bundled_ready in
  let jobs := map (Bundled.new_worker Host.posix st) (Bundled.input_files st) in
  let st' := Bundled.start_conversion Host.posix st in
  Bundled.started st' = Bundled.started st ++ jobs
  /\ Bundled.workers st' = Bundled.workers st ++ jobs
  /\ Bundled.input_files st' = Bundled.input_files st
  /\ Bundled.dialogs st' = Bundled.dialogs st
  /\ (Bundled.reachable Host.posix st -> (length jobs <= 20)%nat)
  /\ Bundled.started (Bundled.start_conversion Host.posix st')
     = Bundled.started st ++ jobs ++ jobs.
Proof.
  refine (bundled_start_one_worker_per_file Host.posix Host.bundled_ready _ _).
  - vm_compute. discriminate.
  - vm_compute. discriminate.
Defined.

Lemma windows_start_rejected (rt : Runtime) (script : nat -> External)
  (s : Windows.Sys) :
  Windows.buttons_enabled (Windows.app s) = true ->
  Windows.absorbed s = length (Windows.workers (Windows.app s)) ->
  Windows.deref (Windows.app s) (Windows.files (Windows.app s)) = []
  \/ Windows.output_dir (Windows.app s) = EmptyString ->
  Windows.handle rt script s Windows.Start
  = {| Windows.app :=
         Windows.note
           (Windows.ev_dialog (warning "Missing info" "Add files + select output folder"))
           (Windows.app s);
       Windows.inbox := Windows.inbox s;
       Windows.absorbed := Windows.absorbed s |}.
Proof.
  intros Hen Ha H. cbn [Windows.handle]. rewrite Hen.
  assert (Hq : Windows.start_queue rt (Windows.app s)
               = Windows.note
                   (Windows.ev_dialog
                      (warning "Missing info" "Add files + select output folder"))
                   (Windows.app s)).
  { unfold Windows.start_queue. destruct H as [H|H]; rewrite H; [done|].
    by destruct (Windows.deref _ _). }
  rewrite Hq. unfold Windows.absorb. cbn [Windows.app Windows.inbox Windows.absorbed
                                           Windows.note Windows.workers].
  rewrite Ha, drop_all. cbn [Windows.emitted_by]. by rewrite app_nil_r.
Qed.

(** X13: Without a file in the list or without an output folder, the start opens
    the message box that asks for them and does nothing else: no worker is
    started, in the sequential variant no signal is queued and the buttons
    stay enabled. *)
Theorem start_without_files_or_folder (rt : Runtime) (script : nat -> External)
  (stb : Bundled.App) (s : Windows.Sys) :
  (Bundled.input_files stb = [] \/ Bundled.output_folder stb = EmptyString ->
   Bundled.start_conversion rt stb
   = Bundled.show (warning "Missing info" "Add files and select output folder") stb)
  /\ (Windows.buttons_enabled (Windows.app s) = true ->
      Windows.absorbed s = length (Windows.workers (Windows.app s)) ->
      Windows.deref (Windows.app s) (Windows.files (Windows.app s)) = []
      \/ Windows.output_dir (Windows.app s) = EmptyString ->
      Windows.handle rt script s Windows.Start
      = {| Windows.app :=
             Windows.note
               (Windows.ev_dialog (warning "Missing info" "Add files + select output folder"))
               (Windows.app s);
           Windows.inbox := Windows.inbox s;
           Windows.absorbed := Windows.absorbed s |}).
Proof.
  split.
  - intros [H|H]; unfold Bundled.start_conversion; rewrite H; [done|].
    by destruct (Bundled.input_files stb).
  - apply windows_start_rejected.
Qed.

Lemma start_without_files_or_folder_witness :
  Bundled.start_conversion Host.posix Host.bundled_twenty
  = Bundled.show (warning "Missing info" "Add files and select output folder")
      Host.bundled_twenty
  /\ Windows.handle Host.posix Host.second_fails Windows.boot Windows.Start
     = {| Windows.app :=
            Windows.note
              (Windows.ev_dialog (warning "Missing info" "Add files + select output folder"))
              (Windows.app Windows.boot);
          Windows.inbox := Windows.inbox Windows.boot;
          Windows.absorbed := Windows.absorbed Windows.boot |}.
Proof.
  pose proof (start_without_files_or_folder Host.posix Host.second_fails
                Host.bundled_twenty Windows.boot) as [Hb Hw].
  split.
  - apply Hb. right. reflexivity.
  - apply Hw; [reflexivity | reflexivity | left; reflexivity].
Defined.

End Start.

(** ** At most one job in flight, whatever the user does *)

Section Flight.
Import PyStr Windows Shape More.

Lemma run_next_buttons (rt : Runtime) (st : App) :
  buttons_enabled (_run_next rt st)
  = match deref st (queue st) with [] => true | _ => buttons_enabled st end.
Proof. unfold _run_next. by destruct (deref st (queue st)). Qed.

Lemma deliver_buttons (rt : Runtime) (script : nat -> External) (s : Sys)
  (w : FFmpegWorker) (t : signal) (rest : list (FFmpegWorker * signal)) :
  inbox s = (w, t) :: rest -> Spec.terminal t = true ->
  deref (app s) (queue (app s)) <> [] ->
  buttons_enabled (app (handle rt script s Deliver)) = buttons_enabled (app s).
Proof.
  intros Hin Ht Hq. cbn [handle]. rewrite Hin. cbn [absorb app].
  destruct t as [p|out|msg]; [done| |]; cbn [slot];
    [unfold _worker_done | unfold _worker_error]; rewrite run_next_buttons.
  - change (deref (set_view ?p ?x ?e ?n ?st) ?l) with (deref st l).
    change (deref (note ?e ?st) ?l) with (deref st l).
    cbn [queue set_view note buttons_enabled].
    destruct (deref (app s) (queue (app s))); [by destruct Hq | done].
  - change (deref (note ?e ?st) ?l) with (deref st l).
    change (deref (note ?e ?st) ?l) with (deref st l).
    cbn [queue set_view note buttons_enabled].
    destruct (deref (app s) (queue (app s))); [by destruct Hq | done].
Qed.

Lemma start_buttons (rt : Runtime) (st : App) (f : string) (fs : list string) :
  deref st (files st) = f :: fs -> output_dir st <> EmptyString ->
  buttons_enabled (start_queue rt st) = false.
Proof.
  intros Hf Ho. unfold start_queue. rewrite Hf.
  destruct (output_dir st) eqn:Hout; [done|].
  rewrite run_next_buttons.
  assert (Hq : deref (set_view 0 "Processing…" false 0 (queue_copy_of_files st))
                 (queue (set_view 0 "Processing…" false 0 (queue_copy_of_files st)))
               = f :: fs).
  { unfold deref. cbn [set_view queue_copy_of_files heap queue].
    rewrite lookup_insert_eq. cbn [default]. exact Hf. }
  by rewrite Hq.
Qed.

Lemma handle_absorbed (rt : Runtime) (script : nat -> External) (s : Sys) (i : input) :
  absorbed s = length (workers (app s)) ->
  absorbed (handle rt script s i) = length (workers (app (handle rt script s i))).
Proof.
  intros Ha.
  assert (Hsame : forall st', same_batch (app s) st' ->
            absorbed s = length (workers st')).
  { intros st' (_ & _ & _ & Hw & _). by rewrite Hw. }
  destruct i as [|urls|fs|sel|folder|v|]; cbn [handle].
  - by destruct (inbox s) as [|[w sg] rest].
  - apply Hsame, dropEvent_same_batch.
  - destruct (buttons_enabled (app s)); [|done]. apply Hsame, add_files_same_batch.
  - destruct (buttons_enabled (app s)); [|done].
    apply Hsame, remove_selected_same_batch.
  - destruct (buttons_enabled (app s)); [|done].
    apply Hsame, choose_output_same_batch.
  - apply Hsame, move_slider_same_batch.
  - by destruct (buttons_enabled (app s)).
Qed.

(** What changes only the list of files, the slider or the output folder
    leaves the jobs as they are. *)
Lemma same_batch_flight (s : Sys) (st' : App) :
  same_batch (app s) st' ->
  (at_rest s \/ one_in_flight s) /\ within_one 0 (log (app s)) ->
  let s' := {| app := st'; inbox := inbox s; absorbed := absorbed s |} in
  (at_rest s' \/ one_in_flight s') /\ within_one 0 (log (app s')).
Proof.
  intros (_ & _ & _ & Hw & Hb & Hl & _) [H Hlog]. cbv zeta.
  unfold at_rest, one_in_flight, jobs_running in *. cbn [app inbox].
  rewrite Hw, Hb, Hl. done.
Qed.

Lemma flight_step (rt : Runtime) (script : nat -> External) (s : Sys) (i : input) :
  well_formed (app s) -> absorbed s = length (workers (app s)) ->
  (at_rest s \/ one_in_flight s) /\ within_one 0 (log (app s)) ->
  let s' := handle rt script s i in
  (at_rest s' \/ one_in_flight s') /\ within_one 0 (log (app s')).
Proof.
  intros Hwf Ha [H Hlog].
  destruct i as [|urls|fs|sel|folder|v|].
  - (* a signal is delivered *)
    unfold at_rest, one_in_flight, jobs_running in H.
    destruct H as [(Hen & Hin & Hrun) | (Hen & Hrun & w & ps & t & Hlast & Hin & Ht)].
    { cbn [handle]. rewrite Hin. split; [left|]; done. }
    destruct ps as [|p ps].
    + cbn [map app] in Hin.
      destruct (deref (app s) (queue (app s))) as [|f rest] eqn:Hq.
      * destruct (deliver_last rt script s w t Ha Hin Ht Hq) as (H1 & H2 & H3 & H4).
        cbv zeta in *.
        destruct (delivered_terminal_running w t 1 ltac:(lia) Ht) as [H5 H6].
        split.
        -- left. split; [done|]. split; [done|]. unfold jobs_running in *.
           rewrite H4, !running_app, Hrun, H5. done.
        -- rewrite H4. apply within_one_app; [done|]. rewrite Hrun.
           apply within_one_app; [done|]. rewrite H5. simpl. lia.
      * destruct (deliver_next rt script s w t f rest Hwf Ha Hin Ht Hq)
          as (H1 & H2 & H3 & _ & _ & _ & _ & H4).
        cbv zeta in *.
        destruct (delivered_terminal_running w t 1 ltac:(lia) Ht) as [H5 H6].
        destruct (windows_run_shape rt (new_worker rt (app s) f)
                    (script (length (workers (app s))))) as (ps' & t' & Hsig & Ht').
        split.
        -- right. split.
           { rewrite (deliver_buttons rt script s w t [] Hin Ht); [done|].
             by rewrite Hq. }
           split.
           { unfold jobs_running in *. rewrite H4, !running_app, Hrun, H5. done. }
           exists (new_worker rt (app s) f), ps', t'.
           split; [by rewrite H3, last_snoc|]. split; [by rewrite H1, Hsig | done].
        -- rewrite H4. apply within_one_app; [done|]. rewrite Hrun.
           apply within_one_app; [done|]. rewrite H5. simpl. lia.
    + cbn [map app] in Hin.
      destruct (deliver_progress rt script s w p _ Ha Hin) as (H1 & H2 & H3 & H4).
      cbv zeta in *.
      destruct H3 as (_ & _ & _ & _ & _ & _ & Hw & Hb).
      split.
      * right. split; [by rewrite Hb|]. split.
        { unfold jobs_running in *. rewrite H4, running_app, Hrun. done. }
        exists w, ps, t. by rewrite Hw, H1.
      * rewrite H4. apply within_one_app; [done|]. rewrite Hrun. simpl. lia.
  - apply (same_batch_flight s); [apply dropEvent_same_batch | by split].
  - cbn [handle]. destruct (buttons_enabled (app s)) eqn:Hen; [|by split].
    apply (same_batch_flight s); [apply add_files_same_batch | by split].
  - cbn [handle]. destruct (buttons_enabled (app s)) eqn:Hen; [|by split].
    apply (same_batch_flight s); [apply remove_selected_same_batch | by split].
  - cbn [handle]. destruct (buttons_enabled (app s)) eqn:Hen; [|by split].
    apply (same_batch_flight s); [apply choose_output_same_batch | by split].
  - apply (same_batch_flight s); [apply move_slider_same_batch | by split].
  - (* the start button *)
    unfold at_rest, one_in_flight, jobs_running in H.
    destruct H as [(Hen & Hin & Hrun) | (Hen & Hrest)].
    2:{ cbn [handle]. rewrite Hen. split; [right|]; done. }
    destruct (deref (app s) (files (app s))) as [|f fs] eqn:Hf.
    { rewrite (windows_start_rejected rt script s Hen Ha (or_introl Hf)).
      cbv zeta. unfold at_rest, jobs_running. cbn [app inbox note log buttons_enabled].
      split.
      - left. split; [done|]. split; [done|]. by rewrite running_app, Hrun.
      - apply within_one_app; [done|]. rewrite Hrun. simpl. lia. }
    destruct (string_dec (output_dir (app s)) EmptyString) as [Ho|Ho].
    { rewrite (windows_start_rejected rt script s Hen Ha (or_intror Ho)).
      cbv zeta. unfold at_rest, jobs_running. cbn [app inbox note log buttons_enabled].
      split.
      - left. split; [done|]. split; [done|]. by rewrite running_app, Hrun.
      - apply within_one_app; [done|]. rewrite Hrun. simpl. lia. }
    destruct (start_effect rt script s f fs Hwf Hen Hin Ha Hf Ho)
      as (H1 & H2 & H3 & _ & _ & _ & _ & H4).
    cbv zeta in *.
    destruct (windows_run_shape rt (new_worker rt (app s) f)
                (script (length (workers (app s))))) as (ps' & t' & Hsig & Ht').
    split.
    + right. split.
      { cbn [handle]. rewrite Hen. cbn [absorb app]. by eapply start_buttons. }
      split.
      { unfold jobs_running in *. rewrite H4, running_app, Hrun. done. }
      exists (new_worker rt (app s) f), ps', t'.
      split; [by rewrite H3, last_snoc|]. split; [by rewrite H1, Hsig | done].
    + rewrite H4. apply within_one_app; [done|]. rewrite Hrun. simpl. lia.
Qed.

(** X14: In every state the sequential application reaches, whatever was dropped,
    added, removed, moved or clicked and in whatever order, either nothing is
    in flight (the buttons are enabled, no signal waits, no job runs) or
    exactly one job is (the buttons are disabled and the signals that wait
    are those of the worker started last, ending with the one that ends the
    job); and at no point of the log of the application do two jobs run. *)
Theorem one_job_in_flight_at_most (rt : Runtime) (script : nat -> External)
  (s : Sys) :
  reachable rt script s ->
  settled s /\ Spec.one_at_a_time (log (app s)).
Proof.
  intros Hr.
  assert (H : settled s /\ within_one 0 (log (app s))).
  { induction Hr as [|s i Hr IH].
    - split; [|done]. split; [done|]. left. by repeat split.
    - destruct IH as [[Ha Hfl] Hlog].
      destruct (reachable_invariant rt script s Hr) as [Hwf _].
      destruct (flight_step rt script s i Hwf Ha (conj Hfl Hlog)) as [H1 H2].
      split; [|done]. split; [by apply handle_absorbed | done]. }
  destruct H as [Hs Hlog]. split; [done|].
  intros k. apply within_one_take; [lia | done].
Qed.

Lemma one_job_in_flight_at_most_witness :
  let s := handle Host.posix Host.second_fails
             (handle Host.posix Host.second_fails
                (handle Host.posix Host.second_fails
                   (handle Host.posix Host.second_fails
                      (handle Host.posix Host.second_fails boot
                         (Add [Host.clip; Host.numbered 1]))
                      (Output "/out"))
                   Start)
                (Drop [Host.one_more]))
             Start in
  settled s /\ Spec.one_at_a_time (log (app s)).
Proof.
  refine (one_job_in_flight_at_most Host.posix Host.second_fails _ _).
  do 5 apply reach_step. apply reach_boot.
Defined.

End Flight.

(** ** The preview of the sequential variant *)

Section PreviewLabel.
Import PyStr Windows More PreviewUi.

Lemma run_next_armed (rt : Runtime) (st : App) :
  debounce_armed (_run_next rt st) = debounce_armed st
  /\ s_slider (_run_next rt st) = s_slider st.
Proof. unfold _run_next. by destruct (deref st (queue st)). Qed.

Lemma slot_armed (rt : Runtime) (sg : signal) (st : App) :
  debounce_armed (slot rt sg st) = debounce_armed st
  /\ s_slider (slot rt sg st) = s_slider st.
Proof.
  destruct sg as [p|out|msg]; cbn [slot]; [done| |].
  - unfold _worker_done.
    by destruct (run_next_armed rt
                   (set_view (progress_bar st) (status st) (buttons_enabled st)
                      (done_count st + 1) st)) as [-> ->].
  - unfold _worker_error.
    by destruct (run_next_armed rt (note (ev_dialog (critical "Error" msg)) st))
      as [-> ->].
Qed.

Lemma start_queue_armed (rt : Runtime) (st : App) :
  debounce_armed (start_queue rt st) = debounce_armed st
  /\ s_slider (start_queue rt st) = s_slider st.
Proof.
  unfold start_queue. destruct (deref st (files st)); [done|].
  destruct (output_dir st); [done|].
  by destruct (run_next_armed rt
                 (set_view 0 "Processing…" false 0 (queue_copy_of_files st)))
    as [-> ->].
Qed.

Lemma apart_from_the_preview_armed (rt : Runtime) (script : nat -> External)
  (s : Sys) (i : input) :
  apart_from_the_preview i = true ->
  debounce_armed (app (handle rt script s i)) = debounce_armed (app s)
  /\ s_slider (app (handle rt script s i)) = s_slider (app s).
Proof.
  destruct i as [|urls|fs|sel|folder|v|]; try discriminate; intros _; cbn [handle].
  - destruct (inbox s) as [|[w sg] rest]; [done|]. cbn [absorb app].
    destruct (slot_armed rt sg (note (ev_signal w sg) (app s))) as [H1 H2].
    by rewrite H1, H2.
  - destruct (buttons_enabled (app s)); [|done]. cbn [app]. by destruct folder.
  - destruct (buttons_enabled (app s)); [|done]. cbn [absorb app].
    apply start_queue_armed.
Qed.

Lemma apart_from_the_preview_all (rt : Runtime) (script : nat -> External)
  (js : list input) :
  forallb apart_from_the_preview js = true ->
  forall s, debounce_armed (app (foldl (handle rt script) s js)) = debounce_armed (app s)
            /\ s_slider (app (foldl (handle rt script) s js)) = s_slider (app s).
Proof.
  induction js as [|j js IH]; intros Hall s; [done|].
  cbn [forallb] in Hall. apply andb_prop in Hall as [Hj Hjs]. cbn [foldl].
  destruct (IH Hjs (handle rt script s j)) as [H1 H2].
  destruct (apart_from_the_preview_armed rt script s j Hj) as [H3 H4].
  split; congruence.
Qed.

(** X15: However the list and the slider were changed before, once the slider
    is moved to [v] the timer that runs out starts one preview, of the
    current item at the saturation [v/100], and ends the thread of the last
    preview if it still runs.  A timer cannot run out again before the next
    change: until then no other preview is started, whatever signals of the
    workers are delivered and whether the start button or the button of the
    output folder is clicked. *)
Theorem one_preview_for_a_burst_of_changes (rt : Runtime)
  (script : nat -> External) (ui : Ui) (changes : list input) (v : Z)
  (video : string) (isRunning : bool) :
  let moved := on_sys (fun s => handle rt script
                                  (foldl (handle rt script) s changes) (Slider v)) ui in
  let shown := timeout (Some video) isRunning moved in
  previews shown = previews ui ++ [(video, (inject_Z v / 100)%Q)]
  /\ preview_thread shown = Some (video, (inject_Z v / 100)%Q)
  /\ terminated shown
     = (match preview_thread ui with
        | Some old => if isRunning then terminated ui ++ [old] else terminated ui
        | None => terminated ui
        end)
  /\ (forall js current running,
        forallb apart_from_the_preview js = true ->
        let later := on_sys (fun s => foldl (handle rt script) s js) shown in
        timeout current running later = later
        /\ previews later = previews shown).
Proof.
  cbv zeta. unfold timeout at 1 2 3. cbn [on_sys sys handle app move_slider debounce_armed].
  cbn [update_preview_now previews preview_thread terminated sys on_sys app disarm
       s_slider].
  split; [done|]. split; [done|]. split; [done|].
  intros js current running Hjs.
  unfold timeout.
  cbn [on_sys sys handle app move_slider debounce_armed update_preview_now disarm
       previews].
  destruct (apart_from_the_preview_all rt script js Hjs
              {| app := disarm (move_slider v (app (foldl (handle rt script) (sys ui) changes)));
                 inbox := inbox (handle rt script (foldl (handle rt script) (sys ui) changes) (Slider v));
                 absorbed := absorbed (handle rt script (foldl (handle rt script) (sys ui) changes) (Slider v)) |})
    as [H1 _].
  cbn [handle app inbox absorbed move_slider disarm debounce_armed] in H1.
  cbn [handle app inbox absorbed move_slider disarm debounce_armed].
  rewrite H1. done.
Qed.

Lemma one_preview_for_a_burst_of_changes_witness :
  let moved := on_sys (fun s => handle Host.posix Host.second_fails
                                  (foldl (handle Host.posix Host.second_fails) s
                                     [Add [Host.clip]; Slider 30; Slider 55])
                                  (Slider 80)) PreviewUi.boot in
  let shown := timeout (Some Host.clip) false moved in
  previews shown = previews PreviewUi.boot ++ [(Host.clip, (inject_Z 80 / 100)%Q)]
  /\ preview_thread shown = Some (Host.clip, (inject_Z 80 / 100)%Q)
  /\ terminated shown
     = (match preview_thread PreviewUi.boot with
        | Some old => if false then terminated PreviewUi.boot ++ [old]
                      else terminated PreviewUi.boot
        | None => terminated PreviewUi.boot
        end)
  /\ (forall js current running,
        forallb apart_from_the_preview js = true ->
        let later := on_sys (fun s => foldl (handle Host.posix Host.second_fails) s js)
                       shown in
        timeout current running later = later
        /\ previews later = previews shown).
Proof.
  exact (one_preview_for_a_burst_of_changes Host.posix Host.second_fails PreviewUi.boot
           [Add [Host.clip]; Slider 30; Slider 55] 80 Host.clip false).
Defined.

(** X16: The label of the preview shows the image of a preview run exactly when
    the encoder returned, the file of the preview is there with more than
    500 bytes and the image can be loaded; in every other case (the encoder
    timed out or could not be started, no file, a file of 500 bytes or
    less, an image that cannot be loaded) it shows the text that no preview
    is available.  Nothing else of the application changes. *)
Theorem preview_or_unavailable (rt : Runtime) (encoder : Encoder)
  (video : string) (sat : Q) (fs : gmap string N) (loads : bool) (ui : Ui) :
  outjpg rt video sat <> EmptyString ->
  let out := outjpg rt video sat in
  let r := Previewer_run rt encoder video sat fs in
  let ui' := _on_preview_ready (ready r) loads ui in
  let good := (encoder (preview_cmd rt video sat) fs).1 = Returned
              /\ (exists size, (encoder (preview_cmd rt video sat) fs).2 !! out = Some size
                               /\ (500 < size)%N)
              /\ loads = true in
  (good -> preview_label ui' = preview_label ui ++ [setPixmap (Some out)])
  /\ (~ good -> preview_label ui' = preview_label ui ++ [setText "Preview unavailable"])
  /\ sys ui' = sys ui /\ previews ui' = previews ui
  /\ preview_thread ui' = preview_thread ui.
Proof.
  intros Hout out r ui' good.
  assert (Htr : truthy out = true).
  { destruct (truthy out) eqn:Ht; [done|]. by apply truthy_false in Ht. }
  assert (Hlabel : preview_label ui'
                   = preview_label ui
                     ++ [if truthy (ready r) && loads then setPixmap (Some (ready r))
                         else setText "Preview unavailable"]).
  { subst ui'. unfold _on_preview_ready. by destruct (truthy (ready r) && loads). }
  assert (Hrest : sys ui' = sys ui /\ previews ui' = previews ui
                  /\ preview_thread ui' = preview_thread ui).
  { subst ui'. unfold _on_preview_ready. by destruct (truthy (ready r) && loads). }
  split; [|split; [|exact Hrest]].
  - intros (Hret & (size & Hsize & Hbig) & Hloads).
    rewrite Hlabel. subst r. unfold Previewer_run. fold out.
    destruct (encoder (preview_cmd rt video sat) fs) as [ret fs'].
    cbn [fst snd] in Hret, Hsize. subst ret. rewrite Hsize.
    apply N.ltb_lt in Hbig. rewrite Hbig. cbn [ready]. by rewrite Htr, Hloads.
  - intros Hbad. rewrite Hlabel. subst r. unfold Previewer_run. fold out.
    destruct (encoder (preview_cmd rt video sat) fs) as [ret fs'] eqn:Henc.
    destruct ret; [|done].
    destruct (fs' !! out) as [size|] eqn:Hsize; [|done].
    destruct (500 <? size)%N eqn:Hbig; [|done].
    cbn [ready]. rewrite Htr. destruct loads; [|done].
    destruct Hbad. subst good. cbn [fst snd].
    split; [done|]. split; [|done]. exists size. split; [done|]. by apply N.ltb_lt.
Qed.

Lemma preview_or_unavailable_witness :
  let out := outjpg Host.posix Host.clip 0.5 in
  let r := Previewer_run Host.posix Host.idle_encoder Host.clip 0.5 Host.cached in
  let ui' := _on_preview_ready (ready r) true PreviewUi.boot in
  let good := (Host.idle_encoder (preview_cmd Host.posix Host.clip 0.5) Host.cached).1
              = Returned
              /\ (exists size,
                    (Host.idle_encoder (preview_cmd Host.posix Host.clip 0.5) Host.cached).2
                      !! out = Some size
                    /\ (500 < size)%N)
              /\ true = true in
  (good -> preview_label ui' = preview_label PreviewUi.boot ++ [setPixmap (Some out)])
  /\ (~ good -> preview_label ui'
                = preview_label PreviewUi.boot ++ [setText "Preview unavailable"])
  /\ sys ui' = sys PreviewUi.boot /\ previews ui' = previews PreviewUi.boot
  /\ preview_thread ui' = preview_thread PreviewUi.boot.
Proof.
  refine (preview_or_unavailable Host.posix Host.idle_encoder Host.clip 0.5 Host.cached
            true PreviewUi.boot _).
  vm_compute. discriminate.
Defined.

End PreviewLabel.

(** ** The names of the output files *)

Section OutputNames.
Import PyStr.

Lemma bundled_start_started (rt : Runtime) (st : Bundled.App) :
  Bundled.input_files st <> [] -> Bundled.output_folder st <> EmptyString ->
  Bundled.started (Bundled.start_conversion rt st)
  = Bundled.started st ++ map (Bundled.new_worker rt st) (Bundled.input_files st).
Proof.
  intros Hf Ho. unfold Bundled.start_conversion.
  destruct (Bundled.input_files st) as [|f fs] eqn:Hfiles; [done|].
  destruct (Bundled.output_folder st) eqn:Hout; [done|].
  cbn [Bundled.set_status Bundled.started].
  by destruct (bundled_start_loop_frame rt (f :: fs) st) as (-> & _).
Qed.

Lemma bundled_cmd_overwrites (rt : Runtime) (w : Bundled.FFmpegWorker)
  (orig_bitrate : option string) :
  Bundled.cmd rt w orig_bitrate !! 1%nat = Some "-y"
  /\ last (Bundled.cmd rt w orig_bitrate) = Some (Bundled.output_path w).
Proof.
  unfold Bundled.cmd. destruct orig_bitrate as [b|]; [destruct (truthy b)|]; done.
Qed.

(** X17: The output file of a job is named by the stem of the input file alone:
    two different files of the list with the same stem, as a clip in two
    folders or with two extensions, are given the same output file.  The
    start of the bundled variant starts a worker for each of them, and the
    encoder command of either variant names the output file last and says
    [-y], to write over a file that is there. *)
Theorem same_stem_same_output (rt : Runtime) (st : Bundled.App) (ws : Windows.App)
  (f g : string) :
  f ∈ Bundled.input_files st -> g ∈ Bundled.input_files st -> f <> g ->
  Bundled.output_folder st <> EmptyString ->
  path_stem rt f = path_stem rt g ->
  let st' := Bundled.start_conversion rt st in
  let w1 := Bundled.new_worker rt st f in
  let w2 := Bundled.new_worker rt st g in
  w1 ∈ Bundled.started st' /\ w2 ∈ Bundled.started st' /\ w1 <> w2
  /\ Bundled.input_path w1 = f /\ Bundled.input_path w2 = g
  /\ Bundled.output_path w1 = Bundled.output_path w2
  /\ (forall w b, Bundled.cmd rt w b !! 1%nat = Some "-y"
                  /\ last (Bundled.cmd rt w b) = Some (Bundled.output_path w))
  /\ Windows.output_path (Windows.new_worker rt ws f)
     = Windows.output_path (Windows.new_worker rt ws g)
  /\ (forall w b, Windows.cmd rt w b !! 1%nat = Some "-y"
                  /\ last (Windows.cmd rt w b) = Some (Windows.output_path w)).
Proof.
  intros Hf Hg Hne Ho Hstem. cbv zeta.
  assert (Hfiles : Bundled.input_files st <> []).
  { intros Hnil. rewrite Hnil in Hf. by apply elem_of_nil in Hf. }
  rewrite (bundled_start_started rt st Hfiles Ho).
  assert (Hin : forall x, x ∈ Bundled.input_files st ->
            Bundled.new_worker rt st x
            ∈ Bundled.started st
              ++ map (Bundled.new_worker rt st) (Bundled.input_files st)).
  { intros x Hx. apply elem_of_app. right. apply list_elem_of_In, in_map.
    by apply list_elem_of_In. }
  split; [by apply Hin|]. split; [by apply Hin|]. split.
  { intros Heq. apply Hne.
    change f with (Bundled.input_path (Bundled.new_worker rt st f)).
    by rewrite Heq. }
  split; [done|]. split; [done|]. split.
  { unfold Bundled.new_worker. cbn [Bundled.output_path]. by rewrite Hstem. }
  split; [apply bundled_cmd_overwrites|]. split.
  { unfold Windows.new_worker. cbn [Windows.output_path]. by rewrite Hstem. }
  done.
Qed.

Lemma same_stem_same_output_witness :
  let st := Bundled.select_output "/out"
              (Bundled.add_files [Host.clip; "/other/clip.mov"] Bundled.init) in
  let f := Host.clip in
  let g := "/other/clip.mov" in
  let st' := Bundled.start_conversion Host.posix st in
  let w1 := Bundled.new_worker Host.posix st f in
  let w2 := Bundled.new_worker Host.posix st g in
  w1 ∈ Bundled.started st' /\ w2 ∈ Bundled.started st' /\ w1 <> w2
  /\ Bundled.input_path w1 = f /\ Bundled.input_path w2 = g
  /\ Bundled.output_path w1 = Bundled.output_path w2
  /\ (forall w b, Bundled.cmd Host.posix w b !! 1%nat = Some "-y"
                  /\ last (Bundled.cmd Host.posix w b) = Some (Bundled.output_path w))
  /\ Windows.output_path (Windows.new_worker Host.posix Windows.init f)
     = Windows.output_path (Windows.new_worker Host.posix Windows.init g)
  /\ (forall w b, Windows.cmd Host.posix w b !! 1%nat = Some "-y"
                  /\ last (Windows.cmd Host.posix w b) = Some (Windows.output_path w)).
Proof.
  refine (same_stem_same_output Host.posix
            (Bundled.select_output "/out"
               (Bundled.add_files [Host.clip; "/other/clip.mov"] Bundled.init))
            Windows.init Host.clip "/other/clip.mov" _ _ _ _ _).
  - apply contains_spec. vm_compute. reflexivity.
  - apply contains_spec. vm_compute. reflexivity.
  - discriminate.
  - vm_compute. discriminate.
  - vm_compute. reflexivity.
Defined.

End OutputNames.

(** ** The slider during a batch *)

Section SliderDuringBatch.
Import PyStr Windows Shape.

(** X18: In the sequential variant the saturation of a job is read from the
    slider when the job is started, not when the batch is: when the slider
    is moved to [v] while a job runs, the worker started for the next file
    of the queue at the end of that job converts it with the saturation
    [v/100], into the output folder of the batch. *)
Theorem slider_moved_while_a_job_runs (rt : Runtime) (script : nat -> External)
  (s : Sys) (w : FFmpegWorker) (t : signal) (f : string) (fs : list string) (v : Z) :
  well_formed (app s) ->
  absorbed s = length (workers (app s)) ->
  inbox s = [(w, t)] -> Spec.terminal t = true ->
  deref (app s) (queue (app s)) = f :: fs ->
  let s' := handle rt script (handle rt script s (Slider v)) Deliver in
  workers (app s')
  = workers (app s)
    ++ [{| input_path := f;
           output_path := path_join rt (output_dir (app s))
                            (path_stem rt f +:+ "_converted.mp4");
           saturation := (inject_Z v / 100)%Q |}]
  /\ deref (app s') (queue (app s')) = fs.
Proof.
  intros Hwf Ha Hin Ht Hq.
  set (s1 := handle rt script s (Slider v)).
  assert (Hwf1 : well_formed (app s1)).
  { eapply same_batch_well_formed; [apply (move_slider_same_batch v) | done]. }
  assert (Ha1 : absorbed s1 = length (workers (app s1))) by exact Ha.
  assert (Hin1 : inbox s1 = [(w, t)]) by exact Hin.
  assert (Hq1 : deref (app s1) (queue (app s1)) = f :: fs) by exact Hq.
  destruct (deliver_next rt script s1 w t f fs Hwf1 Ha1 Hin1 Ht Hq1)
    as (_ & _ & H3 & _ & H5 & _).
  cbv zeta in *. split; [|done]. rewrite H3. done.
Qed.

Lemma slider_moved_while_a_job_runs_witness :
  let s := handle Host.posix (fun _ => Host.quiet 0)
             (handle Host.posix (fun _ => Host.quiet 0) Host.windows_ready Start)
             Deliver in
  let s' := handle Host.posix (fun _ => Host.quiet 0)
              (handle Host.posix (fun _ => Host.quiet 0) s (Slider 40)) Deliver in
  workers (app s')
  = workers (app s)
    ++ [{| input_path := Host.numbered 1;
           output_path := path_join Host.posix (output_dir (app s))
                            (path_stem Host.posix (Host.numbered 1)
                             +:+ "_converted.mp4");
           saturation := (inject_Z 40 / 100)%Q |}]
  /\ deref (app s') (queue (app s')) = [].
Proof.
  refine (slider_moved_while_a_job_runs Host.posix (fun _ => Host.quiet 0)
            (handle Host.posix (fun _ => Host.quiet 0)
               (handle Host.posix (fun _ => Host.quiet 0) Host.windows_ready Start)
               Deliver)
            (new_worker Host.posix (app Host.windows_ready) Host.clip)
            (done "/out/clip_converted.mp4")
            (Host.numbered 1) [] 40 _ _ _ _ _).
  - vm_compute. repeat split; (discriminate || lia).
  - vm_compute. reflexivity.
  - vm_compute. reflexivity.
  - reflexivity.
  - vm_compute. reflexivity.
Defined.

End SliderDuringBatch.
